(** * game-of-life.js (v0.2.3): a shallow embedding and its properties

    The engine keeps its grid in JavaScript arrays that are created, copied
    and re-bound while it runs.  The embedding therefore has an explicit
    object store: [population] and [future] are references into it, rows are
    objects of their own, and every method of [GameOfLife.prototype] is a
    computation in a small state-and-exception monad over the instance.

    The first part follows the source, method by method.  The second part
    introduces the notions the properties are stated with: the cells of an
    instance, the well-formed instances, one generation as a function of the
    one before.  The third part proves the properties, and a last part
    adds further ones: placing life forms, rows off the grid, still lifes
    and shifts under the timer, [randomize] with a fixed source, [killAll]
    without a column, [extend] and [deepExtend], clicks, and the first
    release of [neighbours]. *)

From Stdlib Require Import ZArith QArith Qround Qpower Lia Lqa.
From Stdlib Require Floats.SpecFloat.
From stdpp Require Import base option numbers list sorting gmap fin_maps fin_sets strings.

Local Open Scope Z_scope.

(** * The engine *)

(** ** JavaScript values and objects *)

(** Objects are identified by a [positive].  Property keys are [option Z]:
    the engine only ever indexes with numbers; an integer [z] is the key
    [Some z] (JavaScript prints [-0] as ["0"], so both zeros are the same
    key) and [None] is the key ["NaN"]. *)

(** The values that occur in the grid: [undefined] (a slot never written),
    the booleans, and references to objects. *)
Inductive value : Type :=
  | VUndefined
  | VBool (b : bool)
  | VRef (l : positive).

#[global] Instance value_eq_dec : EqDecision value.
Proof. solve_decision. Defined.

(** Own enumerable properties of an object, and the store of all objects. *)
Abbreviation object := (gmap (option Z) value).
Abbreviation store := (gmap positive (gmap (option Z) value)).

(** [ToBoolean]. *)
Definition truthy (v : value) : bool :=
  match v with
  | VUndefined => false
  | VBool b => b
  | VRef _ => true
  end.

(** [a === b]. *)
Definition strict_eq (a b : value) : bool := bool_decide (a = b).

(** [typeof v === 'object']. *)
Definition is_object (v : value) : bool :=
  match v with
  | VRef _ => true
  | _ => false
  end.

(** [a % b] on integers: the sign follows the dividend, and a zero divisor
    gives [NaN].  Coordinates and indices are integers here and doubles in
    the engine; sums and remainders of doubles are those of the integers as
    long as every operand and every result is at most [2^53] in magnitude,
    which holds for the coordinates of any grid.  Properties about
    coordinates from outside the grid state this bound as a hypothesis. *)
Definition js_rem (a b : Z) : option Z :=
  if decide (b = 0) then None else Some (Z.rem a b).

(** ** The instance *)

(** Calls of the two drawing methods, in the order they happen. *)
Inductive event : Type :=
  | Populate (x y : Z)
  | Kill (x y : Z).

#[global] Instance event_eq_dec : EqDecision event.
Proof. solve_decision. Defined.

(** The fields of a [GameOfLife] object together with the world it acts on:
    the object store, the stream of results of [Math.random()] with the
    number of draws already taken, the log of drawing calls, and the number
    of nested calls the engine's stack still has room for. *)
Record game : Type := Game {
  xLength : Z;
  yLength : Z;
  population : value;
  future : value;
  alive : bool;
  heap : store;
  entropy : nat → Q;
  draws : nat;
  canvas : list event;
  stack : nat
}.

Definition set_xLength (n : Z) (g : game) : game :=
  Game n (yLength g) (population g) (future g) (alive g) (heap g)
       (entropy g) (draws g) (canvas g) (stack g).
Definition set_yLength (n : Z) (g : game) : game :=
  Game (xLength g) n (population g) (future g) (alive g) (heap g)
       (entropy g) (draws g) (canvas g) (stack g).
Definition set_population (v : value) (g : game) : game :=
  Game (xLength g) (yLength g) v (future g) (alive g) (heap g)
       (entropy g) (draws g) (canvas g) (stack g).
Definition set_future (v : value) (g : game) : game :=
  Game (xLength g) (yLength g) (population g) v (alive g) (heap g)
       (entropy g) (draws g) (canvas g) (stack g).
Definition set_alive (b : bool) (g : game) : game :=
  Game (xLength g) (yLength g) (population g) (future g) b (heap g)
       (entropy g) (draws g) (canvas g) (stack g).
Definition set_heap (h : store) (g : game) : game :=
  Game (xLength g) (yLength g) (population g) (future g) (alive g) h
       (entropy g) (draws g) (canvas g) (stack g).
Definition set_draws (n : nat) (g : game) : game :=
  Game (xLength g) (yLength g) (population g) (future g) (alive g) (heap g)
       (entropy g) n (canvas g) (stack g).
Definition set_canvas (c : list event) (g : game) : game :=
  Game (xLength g) (yLength g) (population g) (future g) (alive g) (heap g)
       (entropy g) (draws g) c (stack g).

(** ** Computations *)

Inductive error : Type :=
  | TypeError    (* property access on undefined, or write to a primitive *)
  | RangeError.  (* call stack exhausted *)

Inductive outcome (A : Type) : Type :=
  | Ok (a : A)
  | Throw (e : error).
Arguments Ok {A} a.
Arguments Throw {A} e.

(** A method body: it runs on the instance and either returns or throws;
    what it wrote before throwing stays written. *)
Definition M (A : Type) : Type := game → outcome A * game.

#[global] Instance M_ret : MRet M := λ A a g, (Ok a, g).
#[global] Instance M_bind : MBind M := λ A B f m g,
  match m g with
  | (Ok a, g') => f a g'
  | (Throw e, g') => (Throw e, g')
  end.

Definition throw {A} (e : error) : M A := λ g, (Throw e, g).
Definition gets {A} (f : game → A) : M A := λ g, (Ok (f g), g).
Definition modify (f : game → game) : M unit := λ g, (Ok tt, f g).

(** [for (var i = lo; i < hi; i++) acc = body(i, acc)]. *)
Fixpoint for_iter {A} (n : nat) (i : Z) (body : Z → A → M A) (a : A) : M A :=
  match n with
  | O => mret a
  | S n' => a' ← body i a; for_iter n' (i + 1) body a'
  end.

Definition for_range {A} (lo hi : Z) (body : Z → A → M A) (a : A) : M A :=
  for_iter (Z.to_nat (hi - lo)) lo body a.

(** [for (var i = 0; i < hi; i++) body(i)].  The source tests against
    [this.xLength] or [this.yLength] on every round; no loop body assigns
    them, so the bound is read once, before the loop. *)
Definition for_each (hi : Z) (body : Z → M unit) : M unit :=
  for_range 0 hi (λ i _, body i) tt.

(** The object a reference points to. *)
Definition deref (h : store) (l : positive)
  : object := default ∅ (h !! l).

(** [v[k]]: reading from [undefined] throws, a boolean has no properties. *)
Definition get_prop (v : value) (k : option Z) : M value :=
  match v with
  | VUndefined => throw TypeError
  | VBool _ => mret VUndefined
  | VRef l => g ← gets heap; mret (default VUndefined (deref g l !! k))
  end.

(** [v[k] = x] in strict mode: only objects take properties. *)
Definition set_prop (v : value) (k : option Z) (x : value) : M unit :=
  match v with
  | VRef l => modify (λ g, set_heap (<[l := <[k := x]> (deref (heap g) l)]> (heap g)) g)
  | _ => throw TypeError
  end.

(** A new object ([[]] or [{}]) with the given properties. *)
Definition alloc (o : object) : M value :=
  λ g, let l := fresh (dom (heap g)) in
       (Ok (VRef l), set_heap (<[l := o]> (heap g)) g).

(** [Math.random()]. *)
Definition random : M Q :=
  λ g, (Ok (entropy g (draws g)), set_draws (S (draws g)) g).

(** [for (...) body(x)] over the elements of a list, in order. *)
Fixpoint for_list {A} (l : list A) (body : A → M unit) : M unit :=
  match l with
  | [] => mret tt
  | x :: l' => body x;; for_list l' body
  end.

(** The order in which [for (key in obj)] visits keys: array indices in
    ascending order first, then the other keys.  (JavaScript visits the
    others in creation order, which the store does not record; the loops
    below copy one property per key, so their order among themselves does
    not show in the result.) *)
Definition key_le (a b : option Z) : Prop :=
  match a, b with
  | Some x, Some y => if decide (0 ≤ x) then y < 0 ∨ x ≤ y else y < 0 ∧ x ≤ y
  | Some _, None => True
  | None, Some _ => False
  | None, None => True
  end.

#[global] Instance key_le_dec a b : Decision (key_le a b).
Proof. destruct a, b; simpl; try case_decide; apply _. Defined.

Definition keys_of (o : object) : list (option Z) :=
  merge_sort key_le (map_to_list o).*1.

(** The keys [for (key in v)] runs over; primitives have none. *)
Definition own_keys (v : value) : M (list (option Z)) :=
  match v with
  | VRef l => h ← gets heap; mret (keys_of (deref h l))
  | _ => mret []
  end.

(** ** Methods of [GameOfLife.prototype] *)

(** [populate(x, y)]: draws a colour index and paints the cell.  The log
    records the call; the colour is a rendering detail. *)
Definition populate (x y : Z) : M unit :=
  _ ← random;
  modify (λ g, set_canvas (canvas g ++ [Populate x y]) g).

(** [kill(x, y)]: erases the cell, by [clearRect] or by painting
    [colorEmpty]; the log records the call. *)
Definition kill (x y : Z) : M unit :=
  modify (λ g, set_canvas (canvas g ++ [Kill x y]) g).

(** [this.population[x][y]] and [this.future[x][y]]. *)
Definition read_population (x y : option Z) : M value :=
  pop ← gets population; row ← get_prop pop x; get_prop row y.

Definition read_future (x y : option Z) : M value :=
  fut ← gets future; row ← get_prop fut x; get_prop row y.

(** [this.population[x][y] = v] and [this.future[x][y] = v]. *)
Definition write_population (x y : option Z) (v : value) : M unit :=
  pop ← gets population; row ← get_prop pop x; set_prop row y v.

Definition write_future (x y : option Z) (v : value) : M unit :=
  fut ← gets future; row ← get_prop fut x; set_prop row y v.

(** [neighbours(x, y)]. *)
Definition neighbours (x y : Z) : M Z :=
  count ← for_range (-1) 2 (λ i count,
    for_range (-1) 2 (λ j count,
      xl ← gets xLength;
      yl ← gets yLength;
      let t := js_rem (x + i + xl) xl in
      let s := js_rem (y + j + yl) yl in
      c ← read_population t s;
      mret (if truthy c then count + 1 else count)) count) 0;
  c ← read_population (Some x) (Some y);
  mret (if truthy c then count - 1 else count).

(** [live(x, y)]. *)
Definition live (x y : Z) : M unit :=
  n ← neighbours x y;
  c ← read_population (Some x) (Some y);
  if truthy c && ((n <? 2) || (3 <? n)) then
    write_future (Some x) (Some y) (VBool false)
  else if n =? 3 then
    write_future (Some x) (Some y) (VBool true)
  else mret tt.

(** Rounding towards zero, and [a % b] on numbers with a non-zero divisor:
    [a - b * trunc (a / b)]. *)
Definition Qtrunc (q : Q) : Z :=
  if Qle_bool 0 q then Qfloor q else Qceiling q.

Definition js_fmod (a b : Q) : Q :=
  (a - b * inject_Z (Qtrunc (a / b)))%Q.

(** Numbers are IEEE 754 doubles.  A finite double is given by the rational
    it is; an operation returns the double nearest to the exact result, ties
    going to the even mantissa.  [pow2 t] is [2^t]; [binade q] is the
    exponent [e] with [2^e <= q < 2^(e+1)] of a positive [q]; [ulp q] is the
    distance between the doubles around [q]: 52 binary digits below the
    leading one, and [2^-1074] for subnormal numbers.  (Results are assumed
    to be finite, that is, below [2^1024] in magnitude.) *)
Definition pow2 (t : Z) : Q :=
  if 0 <=? t then inject_Z (2 ^ t) else 1 # Z.to_pos (2 ^ (- t)).

Definition binade (q : Q) : Z :=
  if Qle_bool 1 q then Z.log2 (Qfloor q) else - Z.log2_up (Qceiling (/ q)).

Definition ulp (q : Q) : Q := pow2 (Z.max (binade q - 52) (-1074)).

(** The nearest integer, the even one of two that are equally near. *)
Definition rne (q : Q) : Z :=
  match (q - inject_Z (Qfloor q) ?= 1 # 2)%Q with
  | Lt => Qfloor q
  | Gt => Qfloor q + 1
  | Eq => if Z.even (Qfloor q) then Qfloor q else Qfloor q + 1
  end.

(** The double nearest to [q]. *)
Definition round_double (q : Q) : Q :=
  match (q ?= 0)%Q with
  | Eq => 0
  | Gt => inject_Z (rne (q / ulp q)) * ulp q
  | Lt => - (inject_Z (rne (- q / ulp (- q))) * ulp (- q))
  end%Q.

(** [Math.floor(r * 10 % 2)] for a draw [r], a double: the product is
    rounded to a double; [%] and [Math.floor] are exact on doubles. *)
Definition coin (r : Q) : Z :=
  Qfloor (js_fmod (round_double (r * 10)) 2).

(** The body of the loops of [randomize], for the cell [(i, j)]. *)
Definition randomize_cell (i j : Z) : M unit :=
  r ← random;
  if bool_decide (coin r ≠ 0) then
    populate i j;;
    write_population (Some i) (Some j) (VBool true)
  else mret tt.

(** [randomize()]. *)
Definition randomize : M unit :=
  xl ← gets xLength;
  for_each xl (λ i,
    yl ← gets yLength;
    for_each yl (λ j, randomize_cell i j)).

(** [toggle()]: starts or stops the interval timer; only the flag is kept. *)
Definition toggle : M unit :=
  modify (λ g, set_alive (negb (alive g)) g).

(** [out = out || {}]. *)
Definition or_new_object (out : value) : M value :=
  if truthy out then mret out else alloc ∅.

(** [extend(out, ...args)]. *)
Definition extend (out : value) (args : list value) : M value :=
  out ← or_new_object out;
  for_list args (λ arg,
    if truthy arg then
      keys ← own_keys arg;
      for_list keys (λ k, v ← get_prop arg k; set_prop out k v)
    else mret tt);;
  mret out.

(** [deepExtend(out, ...args)], with [fuel] nested calls left on the stack. *)
Fixpoint deepExtend (fuel : nat) (out : value) (args : list value) : M value :=
  match fuel with
  | O => throw RangeError
  | S fuel' =>
    out ← or_new_object out;
    for_list args (λ obj,
      if truthy obj then
        keys ← own_keys obj;
        for_list keys (λ k,
          v ← get_prop obj k;
          if is_object v then
            o ← get_prop out k;
            v' ← get_prop obj k;
            r ← deepExtend fuel' o [v'];
            set_prop out k r
          else
            v' ← get_prop obj k;
            set_prop out k v')
      else mret tt);;
    mret out
  end.

(** [killAll()]. *)
Definition killAll : M unit :=
  was_alive ← gets alive;
  (if was_alive : bool then toggle else mret tt);;
  xl ← gets xLength;
  for_each xl (λ i,
    yl ← gets yLength;
    for_each yl (λ j,
      write_population (Some i) (Some j) (VBool false);;
      kill i j));;
  arr ← alloc ∅;
  pop ← gets population;
  fut ← extend (VBool true) [arr; pop];
  modify (set_future fut);;
  if was_alive : bool then toggle else mret tt.

(** [addLifeForm(x, y, coords)].  With a [NaN] coordinate [populate] still
    draws its colour but [fillRect] paints nothing, so no cell is logged. *)
Definition addLifeForm (x y : Z) (coords : list (Z * Z)) : M unit :=
  for_list coords (λ c,
    xl ← gets xLength;
    yl ← gets yLength;
    let i := js_rem (x + c.1 + xl) xl in
    let j := js_rem (y + c.2 + yl) yl in
    match i, j with
    | Some a, Some b => populate a b
    | _, _ => _ ← random; mret tt
    end;;
    write_population i j (VBool true)).

(** [advance()]. *)
Definition advance : M unit :=
  arr ← alloc ∅;
  pop ← gets population;
  fuel ← gets stack;
  fut ← deepExtend fuel arr [pop];
  modify (set_future fut);;
  xl ← gets xLength;
  for_each xl (λ i,
    yl ← gets yLength;
    for_each yl (λ j, live i j));;
  xl ← gets xLength;
  for_each xl (λ i,
    yl ← gets yLength;
    for_each yl (λ j,
      p ← read_population (Some i) (Some j);
      f ← read_future (Some i) (Some j);
      if negb (strict_eq p f) then
        f' ← read_future (Some i) (Some j);
        if truthy f' then populate i j else kill i j
      else mret tt));;
  fut ← gets future;
  modify (set_population fut).

(** ** Construction *)

(** What [document.querySelector] found: the tag name and the pixel size of
    the element (a canvas reports unsigned integers). *)
Record Element : Type := {
  nodeName : string;
  width : N;
  height : N
}.

(** [init()]: [cellSize] is the merged setting, a positive integer (any
    other value makes the sizes negative, infinite or [NaN] and is outside
    this model).  The drawing context and the click handlers are of the
    page, not of the grid, and are left out. *)
Definition init (el : Element) (cellSize : positive) : M unit :=
  modify (set_xLength (Z.of_N (width el) / Z.pos cellSize));;
  modify (set_yLength (Z.of_N (height el) / Z.pos cellSize));;
  arr ← alloc ∅;
  modify (set_population arr);;
  xl ← gets xLength;
  for_each xl (λ i,
    row ← alloc ∅;
    pop ← gets population;
    set_prop pop (Some i) row).

(** The default of [cellSize] in [defaults]. *)
Definition default_cellSize : positive := 8.

(** [new GameOfLife(selector, options)]: [el] is the result of the selector
    lookup ([None] for [null]), [cellSize] the option of that name when the
    caller gave one; merging it over [defaults] is all of
    [this.extend({}, defaults, options)] that the grid depends on. *)
Definition GameOfLife (el : option Element) (cellSize : option positive) : M unit :=
  match el with
  | None => throw TypeError
  | Some e =>
    if bool_decide (nodeName e ≠ "CANVAS"%string) then mret tt
    else init e (default default_cellSize cellSize)
  end.

(** The object [new] hands to the constructor: no field is set yet. *)
Definition blank (rnd : nat → Q) (frames : nat) : game :=
  Game 0 0 VUndefined VUndefined false ∅ rnd 0 [] frames.

(** A canvas element of [w] by [h] pixels, and the instance the constructor
    leaves for it. *)
Definition canvas_element (w h : N) : Element :=
  {| nodeName := "CANVAS"; width := w; height := h |}.

Definition create (el : option Element) (cellSize : option positive)
    (rnd : nat → Q) (frames : nat) : outcome unit * game :=
  GameOfLife el cellSize (blank rnd frames).

(** ** The click listener *)

(** The listener [onClick] that [initOnClick] installs for clicks and
    touches.  It turns the pointer position of the event into a cell:
    [left = event.pageX - rect.left + document.body.scrollLeft], likewise
    [top], and hands [Math.floor(left / cellSize)] and
    [Math.floor(top / cellSize)] to the handler of the settings, which
    acts on the instance.  The positions are doubles, and the difference,
    the sum and the quotient are each rounded to a double. *)
Definition pointer_offset (page rect scroll : Q) : Q :=
  round_double (round_double (page - rect) + scroll).

Definition click_cell (page rect scroll : Q) (cellSize : positive) : Z :=
  Qfloor (round_double (pointer_offset page rect scroll / inject_Z (Z.pos cellSize))).

Definition onClick (cellSize : positive) (handler : Z → Z → M unit)
    (pageX pageY rectLeft rectTop scrollLeft scrollTop : Q) : M unit :=
  handler (click_cell pageX rectLeft scrollLeft cellSize)
          (click_cell pageY rectTop scrollTop cellSize).

(** ** The timer *)

(** What the interval timer of [toggle] does in [n] ticks: each tick calls
    [advance]. *)
Fixpoint ticks (n : nat) : M unit :=
  match n with
  | O => mret tt
  | S n' => advance;; ticks n'
  end.

(** ** The first release *)

(** [neighbours] as v0.1.0 had it: the same scan, without the final
    [if (this.population[x][y]) {count--;}]. *)
Module V010.

Definition neighbours (x y : Z) : M Z :=
  count ← for_range (-1) 2 (λ i count,
    for_range (-1) 2 (λ j count,
      xl ← gets xLength;
      yl ← gets yLength;
      let t := js_rem (x + i + xl) xl in
      let s := js_rem (y + j + yl) yl in
      c ← read_population t s;
      mret (if truthy c then count + 1 else count)) count) 0;
  mret count.

End V010.

(** * Notions for the properties *)

(** ** Views of an instance *)

(** The value [a[x][y]] reads when nothing throws. *)
Definition cell_at (h : store) (a : value) (x y : option Z) : value :=
  match a with
  | VRef l =>
    match deref h l !! x with
    | Some (VRef r) => default VUndefined (deref h r !! y)
    | _ => VUndefined
    end
  | _ => VUndefined
  end.

(** The row object behind [a[x]], when there is one. *)
Definition row_loc (h : store) (a : value) (x : option Z) : option positive :=
  match a with
  | VRef l =>
    match deref h l !! x with
    | Some (VRef r) => Some r
    | _ => None
    end
  | _ => None
  end.

(** The cell [(x, y)] of the current generation, and whether it is alive. *)
Definition cell (g : game) (x y : Z) : value :=
  cell_at (heap g) (population g) (Some x) (Some y).

Definition is_alive (g : game) (x y : Z) : bool := truthy (cell g x y).

(** The neighbourhood as the rules of the game define it, to compare the
    code with: the eight offsets around a cell. *)
Definition offsets : list (Z * Z) :=
  [(-1, -1); (-1, 0); (-1, 1); (0, -1); (0, 1); (1, -1); (1, 0); (1, 1)].

(** The number of live cells among the eight neighbours of [(x, y)] on the
    torus: each offset is wrapped with the mathematical modulo. *)
Definition live_neighbours (g : game) (x y : Z) : Z :=
  Z.of_nat (length (filter
    (λ d, is_alive g ((x + d.1) `mod` xLength g) ((y + d.2) `mod` yLength g) = true)
    offsets)).

(** Conway's rule, as the comment above [live] quotes it: a live cell lives
    on with two or three live neighbours, a dead cell comes alive with
    exactly three. *)
Definition rule (a : bool) (n : Z) : bool :=
  if a then (n =? 2) || (n =? 3) else (n =? 3).

(** ** Well-formed instances *)

(** A row holds cells only: no property of it is an object. *)
Definition flat (o : object) : Prop :=
  map_Forall (λ _ v, is_object v = false) o.

(** [v] is a row of the array at [l]: a reference to a flat object other
    than the array itself. *)
Definition is_row (h : store) (l : positive) (v : value) : Prop :=
  match v with
  | VRef r => r ≠ l ∧ match h !! r with Some ro => flat ro | None => False end
  | _ => False
  end.

#[global] Instance is_row_dec h l v : Decision (is_row h l v).
Proof.
  destruct v as [| |r]; simpl; try apply _.
  destruct (h !! r); apply _.
Defined.

(** The keys [0 .. w-1]. *)
Definition index_keys (w : Z) : gset (option Z) :=
  list_to_set (Some <$> seqZ 0 w).

(** [a] is a grid of [w] columns in [h]: an array whose properties are
    exactly the indices below [w], each holding a row of its own. *)
Definition grid (h : store) (a : value) (w : Z) : Prop :=
  match a with
  | VRef l =>
    match h !! l with
    | Some o =>
      dom o = index_keys w ∧
      map_Forall (λ _ v, is_row h l v) o ∧
      NoDup (map_to_list o).*2
    | None => False
    end
  | _ => False
  end.

#[global] Instance grid_dec h a w : Decision (grid h a w).
Proof.
  destruct a as [| |l]; simpl; try apply _.
  destruct (h !! l); apply _.
Defined.

(** What [init] establishes and every method keeps: [population] is a grid
    of [xLength] columns, and the stack has room for the two nested calls
    that copying a grid takes. *)
Definition wf (g : game) : Prop :=
  grid (heap g) (population g) (xLength g) ∧ (2 ≤ stack g)%nat.

#[global] Instance wf_dec g : Decision (wf g).
Proof. unfold wf. apply _. Defined.

(** The nine cells [neighbours] scans, in scan order, and what the scan
    counts: the live ones among them, each read at its wrapped indices. *)
Definition window : list (Z * Z) :=
  [(-1, -1); (-1, 0); (-1, 1); (0, -1); (0, 0); (0, 1); (1, -1); (1, 0); (1, 1)].

Definition scanned (g : game) (x y : Z) : Z :=
  foldl (λ c d, c + Z.b2z (truthy (cell_at (heap g) (population g)
                   (js_rem (x + d.1 + xLength g) (xLength g))
                   (js_rem (y + d.2 + yLength g) (yLength g))))) 0 window.

(** Computations that only read: they return or throw [TypeError], and
    leave the instance as it was. *)
Definition reads {A} (m : M A) (g : game) : Prop :=
  (∃ a, m g = (Ok a, g)) ∨ m g = (Throw TypeError, g).

(** ** One generation, as a function of the current one *)

(** What [live] leaves in the future slot of a cell holding [c] with [n]
    live neighbours. *)
Definition live_value (c : value) (n : Z) : value :=
  if truthy c && ((n <? 2) || (3 <? n)) then VBool false
  else if n =? 3 then VBool true
  else c.

Definition next_cell (g : game) (x y : Z) : value :=
  live_value (cell g x y) (live_neighbours g x y).

(** The drawing call the view update makes for one cell. *)
Definition redraw (old new : value) (x y : Z) : list event :=
  if strict_eq old new then []
  else if truthy new then [Populate x y] else [Kill x y].

(** The drawing calls of one [advance], column by column. *)
Definition redraw_column (g : game) (x : Z) (n : Z) : list event :=
  seqZ 0 n ≫= λ y, redraw (cell g x y) (next_cell g x y) x y.

Definition redraws (g : game) : list event :=
  seqZ 0 (xLength g) ≫= λ x, redraw_column g x (yLength g).

(** The instance while [advance] fills the copy at [la]: the objects of the
    current generation are untouched, the copy is a grid of new rows, and a
    cell of it holds the next value once [done] and the old one before. *)
Definition living (g : game) (la : positive) (done : Z → Z → bool) (g2 : game) : Prop :=
  ∃ h2 : store,
    g2 = set_future (VRef la) (set_heap h2 g) ∧
    (∀ l, l ∈ dom (heap g) → h2 !! l = heap g !! l) ∧
    grid h2 (VRef la) (xLength g) ∧
    (∀ k r, row_loc h2 (VRef la) k = Some r → r ∉ dom (heap g)) ∧
    (∀ x y, 0 ≤ x < xLength g → 0 ≤ y < yLength g →
       cell_at h2 (VRef la) (Some x) (Some y)
       = if done x y then next_cell g x y else cell g x y).

(** ** The draws of [randomize] *)













(** ** Doubles *)

(** The value of a finite double of the Standard Library's IEEE 754
    arithmetic, and the double nearest to a ratio of two integers; the
    rounding of this development is compared with that arithmetic on
    samples. *)
Definition SF2Q (f : SpecFloat.spec_float) : Q :=
  match f with
  | SpecFloat.S754_finite s m e =>
    (if s then -1 else 1) * inject_Z (Z.pos m) * pow2 e
  | _ => 0
  end%Q.

Definition double_of (a b : Z) : SpecFloat.spec_float :=
  SpecFloat.SFdiv 53 1024 (SpecFloat.binary_normalize 53 1024 a 0 false)
                          (SpecFloat.binary_normalize 53 1024 b 0 false).

(** The integers every double operation of the engine is exact on: those
    up to [2^53] in magnitude.  A sum [a + b + c], taken from the left, is
    exact when the operands and both results are such integers. *)
Definition safe (z : Z) : Prop := - 2 ^ 53 ≤ z ≤ 2 ^ 53.

#[global] Instance safe_dec z : Decision (safe z).
Proof. unfold safe. apply _. Defined.

Definition safe_sum (a b c : Z) : Prop :=
  safe a ∧ safe b ∧ safe c ∧ safe (a + b) ∧ safe (a + b + c).

#[global] Instance safe_sum_dec a b c : Decision (safe_sum a b c).
Proof. unfold safe_sum. apply _. Defined.

(** The index sums of [addLifeForm] are exact for every offset. *)
Definition exact_sums (g : game) (x y : Z) (coords : list (Z * Z)) : Prop :=
  Forall (λ c, safe_sum x c.1 (xLength g) ∧ safe_sum y c.2 (yLength g)) coords.

#[global] Instance exact_sums_dec g x y coords : Decision (exact_sums g x y coords).
Proof. unfold exact_sums. apply _. Defined.

(** Pointer coordinates and cell sizes up to a size no page has: sums of
    three of them stay far below the largest double. *)
Definition moderate (q : Q) : Prop := (- inject_Z (2 ^ 53) <= q)%Q ∧ (q <= inject_Z (2 ^ 53))%Q.

(** ** Offsets that reach a cell *)

(** The offsets of the neighbourhood of [(x, y)] that wrap onto the cell
    [(tx, ty)]. *)
Definition reaching (g : game) (x y tx ty : Z) : list (Z * Z) :=
  filter (λ d, (x + d.1) `mod` xLength g = tx ∧ (y + d.2) `mod` yLength g = ty) offsets.

(** ** Comparing instances *)

(** Two instances of the same size whose cells agree in liveness everywhere
    on the grid except possibly at [(x, y)]. *)
Definition same_but_centre (g1 g2 : game) (x y : Z) : Prop :=
  xLength g2 = xLength g1 ∧ yLength g2 = yLength g1 ∧
  ∀ x' y', 0 ≤ x' < xLength g1 → 0 ≤ y' < yLength g1 → (x', y') ≠ (x, y) →
    is_alive g2 x' y' = is_alive g1 x' y'.

(** Two instances of the same size with the same live cells. *)
Definition same_liveness (g1 g2 : game) : Prop :=
  xLength g2 = xLength g1 ∧ yLength g2 = yLength g1 ∧
  Forall (λ x, Forall (λ y, is_alive g2 x y = is_alive g1 x y)
                      (seqZ 0 (yLength g1)))
         (seqZ 0 (xLength g1)).

#[global] Instance same_liveness_dec g1 g2 : Decision (same_liveness g1 g2).
Proof. unfold same_liveness. apply _. Defined.

(** ** Stamping a life form *)

(** The indices [addLifeForm] computes for the offset [c] of a life form
    placed at [(x, y)]: the property keys it writes to. *)
Definition stamp_keys (g : game) (x y : Z) (c : Z * Z) : option Z * option Z :=
  (js_rem (x + c.1 + xLength g) (xLength g),
   js_rem (y + c.2 + yLength g) (yLength g)).

(** The column index of the offset [c] is a column of the grid. *)
Definition column_ok (g : game) (x : Z) (c : Z * Z) : bool :=
  match js_rem (x + c.1 + xLength g) (xLength g) with
  | Some i => bool_decide (0 ≤ i < xLength g)
  | None => false
  end.

(** The drawing call logged for a pair of indices: none when one is [NaN]. *)
Definition stamp_event (k : option Z * option Z) : list event :=
  match k with
  | (Some a, Some b) => [Populate a b]
  | _ => []
  end.

(** The cell of the torus the offset [c] of a life form at [(x, y)] stands
    for, with the mathematical modulo. *)
Definition wrapped (g : game) (x y : Z) (c : Z * Z) : Z * Z :=
  ((x + c.1) `mod` xLength g, (y + c.2) `mod` yLength g).

(** ** Still lifes and shifted grids *)

(** Every cell of the grid already has the liveness the rule gives it. *)
Definition still (g : game) : Prop :=
  Forall (λ x, Forall (λ y, rule (is_alive g x y) (live_neighbours g x y) = is_alive g x y)
                      (seqZ 0 (yLength g)))
         (seqZ 0 (xLength g)).

#[global] Instance still_dec g : Decision (still g).
Proof. unfold still. apply _. Defined.

(** [g2] is [g1] moved by [(a, b)] on the torus: the cell [(x, y)] of [g2]
    is alive exactly when the cell [(x - a, y - b)] of [g1] is. *)
Definition shifted (a b : Z) (g1 g2 : game) : Prop :=
  xLength g2 = xLength g1 ∧ yLength g2 = yLength g1 ∧
  Forall (λ x, Forall (λ y, is_alive g2 x y
                            = is_alive g1 ((x - a) `mod` xLength g1) ((y - b) `mod` yLength g1))
                      (seqZ 0 (yLength g1)))
         (seqZ 0 (xLength g1)).

#[global] Instance shifted_dec a b g1 g2 : Decision (shifted a b g1 g2).
Proof. unfold shifted. apply _. Defined.

(** ** Sequences of calls *)

(** The methods a page calls on an instance, and the instance a sequence of
    such calls leaves, whether the single calls return or throw. *)
Inductive call : Type :=
  | Advance
  | Randomize
  | KillAll
  | Toggle
  | AddLifeForm (x y : Z) (coords : list (Z * Z)).

Definition perform (c : call) : M unit :=
  match c with
  | Advance => advance
  | Randomize => randomize
  | KillAll => killAll
  | Toggle => toggle
  | AddLifeForm x y coords => addLifeForm x y coords
  end.

Definition after (calls : list call) (g : game) : game :=
  foldl (λ g c, (perform c g).2) g calls.

(** ** Merging objects *)

(** The own properties [extend] copies from an argument: those of the
    object for a reference, none for a primitive. *)
Definition properties (h : store) (v : value) : object :=
  match v with
  | VRef l => deref h l
  | _ => ∅
  end.

(** The properties of the target after the arguments were merged into it
    from left to right.  The union of maps keeps the left value, so a later
    argument overrides an earlier one and the target. *)
Definition merged (h : store) (out : object) (args : list value) : object :=
  foldl (λ acc v, properties h v ∪ acc) out args.

(** ** Instances used as examples *)

Definition no_entropy : nat → Q := λ _, 0%Q.

(** A new instance on a canvas of [w] by [h] cells of the default size. *)
Definition new_game (w h : N) : game :=
  (create (Some (canvas_element (8 * w) (8 * h))) None no_entropy 2).2.

(** The horizontal blinker on a 5 by 5 grid. *)
Definition blinker : game :=
  (addLifeForm 0 0 [(1, 2); (2, 2); (3, 2)] (new_game 5 5)).2.

(** The 1 by 1 grid, with its cell never set and with its cell alive. *)
Definition lone_dead : game := new_game 1 1.
Definition lone_alive : game := (addLifeForm 0 0 [(0, 0)] (new_game 1 1)).2.

(** A 3 by 3 grid with no cell alive, and one with the corner cell alive. *)
Definition bare : game := new_game 3 3.

Definition corner : game := (addLifeForm 0 0 [(0, 0)] (new_game 3 3)).2.

(** The blinker with a random source whose draws run through
    0, 1/20, 2/20, ... *)
Definition dice : nat → Q := λ n, (Z.of_nat n # 20)%Q.

Definition blinker_dice : game :=
  (addLifeForm 0 0 [(1, 2); (2, 2); (3, 2)]
     (create (Some (canvas_element 40 40)) None dice 2).2).2.

(** The blinker two generations later: the same cells in other objects. *)
Definition blinker_again : game := (advance (advance blinker).2).2.

(** The live cells of the grid, column by column. *)
Definition live_cells (g : game) : list (Z * Z) :=
  seqZ 0 (xLength g) ≫= λ x,
    (λ y, (x, y)) <$> filter (λ y, is_alive g x y = true) (seqZ 0 (yLength g)).

(** The glider of the README, [[1,0], [2,1], [0,2], [1,2], [2,2]], placed
    at [(1, 1)] of an 8 by 8 grid. *)
Definition glider_shape : list (Z * Z) := [(1, 0); (2, 1); (0, 2); (1, 2); (2, 2)].

Definition glider : game := (addLifeForm 1 1 glider_shape (new_game 8 8)).2.

(** A 3 by 3 grid with only the middle cell alive. *)
Definition middle : game := (addLifeForm 1 1 [(0, 0)] (new_game 3 3)).2.

(** The block, a still life, on a 4 by 4 grid. *)
Definition block : game :=
  (addLifeForm 1 1 [(0, 0); (1, 0); (0, 1); (1, 1)] (new_game 4 4)).2.

(** The glider placed at [(6, 7)] of the 8 by 8 grid, across its edges. *)
Definition glider_across : game :=
  (addLifeForm 6 7 glider_shape (new_game 8 8)).2.

(** A random source whose every draw selects the cell, and a new instance
    with a given source. *)
Definition loaded : nat → Q := λ _, (1 # 8)%Q.

Definition new_game_with (rnd : nat → Q) (w h : N) : game :=
  (create (Some (canvas_element (8 * w) (8 * h))) None rnd 2).2.

(** A store with an empty object and two objects to merge into it. *)
Definition mergeable : game :=
  Game 0 0 VUndefined VUndefined false
       {[ 1%positive := ∅;
          2%positive := {[ Some 0 := VBool false; Some 1 := VBool true ]};
          3%positive := {[ Some 1 := VBool false; Some 2 := VRef 2 ]} ]}
       no_entropy 0 [] 2.

(** An element that is not a canvas. *)
Definition div_element : Element :=
  {| nodeName := "DIV"; width := 300; height := 150 |}.

(** * Properties *)

(** ** Running computations *)

Lemma bind_ok {A B} (m : M A) (f : A → M B) g a g' :
  m g = (Ok a, g') → (m ≫= f) g = f a g'.
Proof. intros H. unfold mbind, M_bind. by rewrite H. Qed.

Lemma bind_throw {A B} (m : M A) (f : A → M B) g e g' :
  m g = (Throw e, g') → (m ≫= f) g = (Throw e, g').
Proof. intros H. unfold mbind, M_bind. by rewrite H. Qed.

Lemma bind_assoc {A B C} (m : M A) (f : A → M B) (k : B → M C) g :
  ((m ≫= f) ≫= k) g = (m ≫= λ a, f a ≫= k) g.
Proof. unfold mbind, M_bind. by destruct (m g) as [[a|e] g']. Qed.

(** Take one step of a sequence with the equation [H] of its first action. *)
Ltac run H := rewrite ?bind_assoc, (bind_ok _ _ _ _ _ H).

Lemma bind_gets {A B} (p : game → A) (f : A → M B) g :
  (gets p ≫= f) g = f (p g) g.
Proof. reflexivity. Qed.

Lemma bind_modify {B} (u : game → game) (f : unit → M B) g :
  (modify u ≫= f) g = f tt (u g).
Proof. reflexivity. Qed.

Lemma bind_ret {A B} (a : A) (f : A → M B) g :
  (mret a ≫= f) g = f a g.
Proof. reflexivity. Qed.

(** A loop whose body keeps an invariant returns, and the invariant holds
    at the exit index. *)
Lemma for_iter_inv {A} (P : Z → A → game → Prop) n lo body (a : A) g :
  P lo a g →
  (∀ i a g, lo ≤ i < lo + Z.of_nat n → P i a g →
     ∃ a' g', body i a g = (Ok a', g') ∧ P (i + 1) a' g') →
  ∃ a' g', for_iter n lo body a g = (Ok a', g') ∧ P (lo + Z.of_nat n) a' g'.
Proof.
  revert lo a g. induction n as [|n IH]; intros lo a g H0 Hstep.
  - exists a, g. split; [done|]. by replace (lo + Z.of_nat 0) with lo by lia.
  - destruct (Hstep lo a g) as (a1 & g1 & Hb & H1); [lia|done|].
    destruct (IH (lo + 1) a1 g1) as (a2 & g2 & Hl & H2); [done| |].
    + intros i b gi Hi. apply Hstep. lia.
    + exists a2, g2. split.
      * simpl. by rewrite (bind_ok _ _ _ _ _ Hb).
      * by replace (lo + Z.of_nat (S n)) with (lo + 1 + Z.of_nat n) by lia.
Qed.

Lemma for_each_inv (P : Z → game → Prop) hi body g :
  0 ≤ hi →
  P 0 g →
  (∀ i g, 0 ≤ i < hi → P i g → ∃ g', body i g = (Ok tt, g') ∧ P (i + 1) g') →
  ∃ g', for_each hi body g = (Ok tt, g') ∧ P hi g'.
Proof.
  intros Hhi H0 Hstep. unfold for_each, for_range.
  destruct (for_iter_inv (λ i _ g, P i g) (Z.to_nat (hi - 0)) 0
              (λ i _, body i) tt g) as ([] & g' & Hr & HP); [done| |].
  - intros i [] gi Hi HPi. destruct (Hstep i gi) as (g1 & Hb & H1); [lia|done|].
    by exists tt, g1.
  - exists g'. split; [done|]. by replace hi with (0 + Z.of_nat (Z.to_nat (hi - 0))) by lia.
Qed.

Lemma for_each_none hi body g : hi ≤ 0 → for_each hi body g = (Ok tt, g).
Proof.
  intros H. unfold for_each, for_range.
  by replace (Z.to_nat (hi - 0)) with O by lia.
Qed.

Lemma for_list_inv {A} (P : list A → game → Prop) (l : list A) body g :
  P [] g →
  (∀ pre x g, (∃ post, l = pre ++ x :: post) → P pre g →
     ∃ g', body x g = (Ok tt, g') ∧ P (pre ++ [x]) g') →
  ∃ g', for_list l body g = (Ok tt, g') ∧ P l g'.
Proof.
  intros H0 Hstep.
  cut (∀ post pre g, l = pre ++ post → P pre g →
         ∃ g', for_list post body g = (Ok tt, g') ∧ P l g').
  { intros Hc. by apply (Hc l [] g). }
  clear g H0. induction post as [|x post IH]; intros pre g Hl HP.
  - exists g. split; [done|]. by rewrite Hl, app_nil_r.
  - destruct (Hstep pre x g) as (g1 & Hb & H1); [by exists post|done|].
    destruct (IH (pre ++ [x]) g1) as (g2 & Hr & H2); [by rewrite <-app_assoc|done|].
    exists g2. split; [|done]. simpl. by rewrite (bind_ok _ _ _ _ _ Hb).
Qed.

(** ** Grids in the store *)

Lemma NoDup_snd_inj {K V} (l : list (K * V)) k1 k2 v :
  NoDup l.*2 → (k1, v) ∈ l → (k2, v) ∈ l → k1 = k2.
Proof.
  induction l as [|[k w] l IH]; simpl; intros Hnd H1 H2.
  - by apply elem_of_nil in H1.
  - apply NoDup_cons in Hnd as [Hnin Hnd].
    apply elem_of_cons in H1 as [H1|H1], H2 as [H2|H2]; simplify_eq; try done.
    + exfalso. apply Hnin. apply list_elem_of_fmap. by exists (k2, w).
    + exfalso. apply Hnin. apply list_elem_of_fmap. by exists (k1, w).
    + by apply IH.
Qed.

Lemma elem_of_index_keys w k :
  k ∈ index_keys w ↔ ∃ i, k = Some i ∧ 0 ≤ i < w.
Proof.
  unfold index_keys. rewrite elem_of_list_to_set, list_elem_of_fmap.
  split; intros (i & Hk & Hi); exists i; (split; [done|]);
    apply elem_of_seqZ in Hi || apply elem_of_seqZ; lia.
Qed.

(** What a grid gives when it is used. *)
Lemma grid_inv h a w :
  grid h a w →
  ∃ l o, a = VRef l ∧ h !! l = Some o ∧
    (∀ k, is_Some (o !! k) ↔ ∃ i, k = Some i ∧ 0 ≤ i < w) ∧
    (∀ k v, o !! k = Some v →
       ∃ r ro, v = VRef r ∧ r ≠ l ∧ h !! r = Some ro ∧ flat ro) ∧
    (∀ k1 k2 v, o !! k1 = Some v → o !! k2 = Some v → k1 = k2).
Proof.
  destruct a as [| |l]; simpl; try done.
  destruct (h !! l) as [o|] eqn:Hl; [|done].
  intros (Hdom & Hrows & Hnd). exists l, o. repeat split; try done.
  - intros Hk. apply elem_of_index_keys. rewrite <-Hdom. by apply elem_of_dom.
  - intros Hk. apply elem_of_dom. rewrite Hdom. by apply elem_of_index_keys.
  - intros k v Hk. specialize (Hrows k v Hk). destruct v as [| |r]; simpl in Hrows; try done.
    destruct Hrows as [Hne Hr]. destruct (h !! r) as [ro|] eqn:Hro; [|done].
    by exists r, ro.
  - intros k1 k2 v H1 H2. eapply NoDup_snd_inj; [done| |];
      by apply elem_of_map_to_list.
Qed.

(** What it takes to be a grid. *)
Lemma grid_intro h l o w :
  h !! l = Some o →
  (∀ k, is_Some (o !! k) ↔ ∃ i, k = Some i ∧ 0 ≤ i < w) →
  (∀ k v, o !! k = Some v →
     ∃ r ro, v = VRef r ∧ r ≠ l ∧ h !! r = Some ro ∧ flat ro) →
  (∀ k1 k2 v, o !! k1 = Some v → o !! k2 = Some v → k1 = k2) →
  grid h (VRef l) w.
Proof.
  intros Hl Hdom Hrows Hinj. simpl. rewrite Hl. repeat split.
  - apply set_eq. intros k. rewrite elem_of_dom, elem_of_index_keys. apply Hdom.
  - intros k v Hk. destruct (Hrows k v Hk) as (r & ro & -> & Hne & Hr & Hf).
    simpl. by rewrite Hr.
  - apply NoDup_fmap_2_strong; [|apply NoDup_map_to_list].
    intros [k1 v1] [k2 v2] H1%elem_of_map_to_list H2%elem_of_map_to_list Heq.
    simpl in Heq. subst v2. f_equal. by eapply Hinj.
Qed.

(** A grid only depends on its own objects. *)
Lemma grid_frame h h' a w :
  grid h a w → (∀ l, l ∈ dom h → h' !! l = h !! l) → grid h' a w.
Proof.
  intros Hg Hfr. destruct (grid_inv _ _ _ Hg) as (l & o & -> & Hl & Hdom & Hrows & Hinj).
  apply (grid_intro h' l o w); try done.
  - rewrite Hfr; [done|]. apply elem_of_dom. by eexists.
  - intros k v Hk. destruct (Hrows k v Hk) as (r & ro & -> & Hne & Hr & Hf).
    exists r, ro. repeat split; try done. rewrite Hfr; [done|].
    apply elem_of_dom. by eexists.
Qed.

Lemma cell_at_frame h h' a w x y :
  grid h a w → (∀ l, l ∈ dom h → h' !! l = h !! l) →
  cell_at h' a x y = cell_at h a x y.
Proof.
  intros Hg Hfr. destruct (grid_inv _ _ _ Hg) as (l & o & -> & Hl & Hdom & Hrows & Hinj).
  unfold cell_at, deref. rewrite Hfr by (apply elem_of_dom; by eexists).
  rewrite Hl. simpl. destruct (o !! x) as [v|] eqn:Hx; [|done].
  destruct (Hrows x v Hx) as (r & ro & -> & Hne & Hr & Hf).
  rewrite Hfr by (apply elem_of_dom; by eexists). done.
Qed.

(** Reading [a[x][y]] from a grid: a column index gives the cell, any other
    [x] finds no row and throws. *)
Lemma read_cell_ok g a w x y :
  grid (heap g) a w → (∃ i, x = Some i ∧ 0 ≤ i < w) →
  (row ← get_prop a x; get_prop row y) g = (Ok (cell_at (heap g) a x y), g).
Proof.
  intros Hg Hx. destruct (grid_inv _ _ _ Hg) as (l & o & -> & Hl & Hdom & Hrows & Hinj).
  destruct (proj2 (Hdom x) Hx) as [v Hv].
  destruct (Hrows x v Hv) as (r & ro & -> & Hne & Hr & Hf).
  unfold cell_at, get_prop, deref. simpl.
  unfold mbind, M_bind, gets, mret, M_ret. simpl. rewrite Hl. simpl. rewrite Hv. done.
Qed.

Lemma read_cell_throw g a w x y :
  grid (heap g) a w → ¬ (∃ i, x = Some i ∧ 0 ≤ i < w) →
  (row ← get_prop a x; get_prop row y) g = (Throw TypeError, g).
Proof.
  intros Hg Hx. destruct (grid_inv _ _ _ Hg) as (l & o & -> & Hl & Hdom & Hrows & Hinj).
  assert (o !! x = None) as Hn.
  { destruct (o !! x) eqn:E; [|done]. exfalso. apply Hx, Hdom. by eexists. }
  unfold get_prop, deref. unfold mbind, M_bind, gets, mret, M_ret. simpl.
  rewrite Hl. simpl. rewrite Hn. done.
Qed.

Lemma read_population_ok g x y :
  wf g → (∃ i, x = Some i ∧ 0 ≤ i < xLength g) →
  read_population x y g = (Ok (cell_at (heap g) (population g) x y), g).
Proof. intros [Hg _] Hx. unfold read_population. rewrite bind_gets. by eapply read_cell_ok. Qed.

Lemma read_population_throw g x y :
  wf g → ¬ (∃ i, x = Some i ∧ 0 ≤ i < xLength g) →
  read_population x y g = (Throw TypeError, g).
Proof. intros [Hg _] Hx. unfold read_population. rewrite bind_gets. by eapply read_cell_throw. Qed.

(** ** Wrapping *)

Lemma js_rem_wrap x i w :
  0 ≤ x < w → -1 ≤ i ≤ 1 → js_rem (x + i + w) w = Some ((x + i) `mod` w).
Proof.
  intros Hx Hi. unfold js_rem. case_decide; [lia|]. f_equal.
  rewrite Z.rem_mod_nonneg by lia.
  replace (x + i + w) with (x + i + 1 * w) by lia. by rewrite Z_mod_plus_full.
Qed.

Lemma wrap_in_range x i w : 0 ≤ x < w → 0 ≤ (x + i) `mod` w < w.
Proof. intros Hx. apply Z.mod_pos_bound. lia. Qed.

Lemma read_population_bind {B} g x y (f : value → M B) :
  wf g → (∃ i, x = Some i ∧ 0 ≤ i < xLength g) →
  (read_population x y ≫= f) g = f (cell_at (heap g) (population g) x y) g.
Proof. intros Hw Hx. by rewrite (bind_ok _ _ _ _ _ (read_population_ok g x y Hw Hx)). Qed.

(** ** Counting neighbours *)

Lemma if_b2z (b : bool) (c : Z) : (if b then c + 1 else c) = c + Z.b2z b.
Proof. destruct b; simpl; lia. Qed.

(** A loop whose body only computes leaves the instance alone and folds
    its step function over the indices. *)
Lemma for_iter_pure {A} n lo (body : Z → A → M A) (F : Z → A → A) a g :
  (∀ i a, lo ≤ i < lo + Z.of_nat n → body i a g = (Ok (F i a), g)) →
  for_iter n lo body a g = (Ok (foldl (λ a i, F i a) a (seqZ lo (Z.of_nat n))), g).
Proof.
  revert lo a. induction n as [|n IH]; intros lo a Hb; [done|].
  cbn [for_iter]. assert (lo ≤ lo < lo + Z.of_nat (S n)) as Hlo by lia.
  rewrite (bind_ok _ _ _ _ _ (Hb lo a Hlo)).
  rewrite (IH (lo + 1) (F lo a)); [|intros i b Hi; apply Hb; lia].
  replace (Z.of_nat (S n)) with (Z.succ (Z.of_nat n)) by lia.
  rewrite (seqZ_cons lo) by lia. simpl.
  replace (Z.pred (Z.succ (Z.of_nat n))) with (Z.of_nat n) by lia.
  by replace (Z.succ lo) with (lo + 1) by lia.
Qed.

(** On a column of the grid, [neighbours] returns: it scans the window and
    takes the centre off again when the centre is alive. *)
Lemma neighbours_ok g x y :
  wf g → 0 ≤ x < xLength g →
  neighbours x y g = (Ok (scanned g x y - Z.b2z (is_alive g x y)), g).
Proof.
  intros Hw Hx. unfold neighbours, for_range.
  change (Z.to_nat (2 - -1)) with 3%nat.
  set (F := λ (i j : Z) (c : Z), c + Z.b2z (truthy (cell_at (heap g) (population g)
              (js_rem (x + i + xLength g) (xLength g))
              (js_rem (y + j + yLength g) (yLength g))))).
  erewrite bind_ok; cycle 1.
  { apply (for_iter_pure 3 (-1) _ (λ i c, foldl (λ c j, F i j c) c (seqZ (-1) 3))).
    intros i c Hi. apply (for_iter_pure 3 (-1) _ (F i)).
    intros j c' Hj. rewrite !bind_gets.
    rewrite read_population_bind; [|done|].
    - unfold mret, M_ret, F. by rewrite if_b2z.
    - rewrite js_rem_wrap by lia. eexists. split; [done|]. by apply wrap_in_range. }
  rewrite read_population_bind; [|done|by exists x].
  unfold mret, M_ret. f_equal. f_equal.
  unfold is_alive, cell. destruct (truthy _); simpl Z.b2z; [|rewrite Z.sub_0_r]; reflexivity.
Qed.

Lemma reads_bind {A B} (m : M A) (f : A → M B) g :
  reads m g → (∀ a, reads (f a) g) → reads (m ≫= f) g.
Proof.
  intros [[a Ha]|Ha] Hf.
  - unfold reads. rewrite (bind_ok _ _ _ _ _ Ha). apply Hf.
  - right. by rewrite (bind_throw _ _ _ _ _ Ha).
Qed.

Lemma reads_ret {A} (a : A) g : reads (mret a) g.
Proof. left. by exists a. Qed.

Lemma reads_gets {A} (p : game → A) g : reads (gets p) g.
Proof. left. by eexists. Qed.

Lemma reads_for_iter {A} n lo (body : Z → A → M A) a g :
  (∀ i a, reads (body i a) g) → reads (for_iter n lo body a) g.
Proof.
  intros Hb. revert lo a. induction n as [|n IH]; intros lo a.
  - apply reads_ret.
  - cbn [for_iter]. apply reads_bind; [apply Hb|]. intros a'. apply IH.
Qed.

Lemma reads_read_population g x y : wf g → reads (read_population x y) g.
Proof.
  intros Hw. destruct x as [i|].
  - destruct (decide (0 ≤ i < xLength g)) as [Hi|Hi].
    + left. eexists. apply read_population_ok; [done|]. by exists i.
    + right. apply read_population_throw; [done|]. by intros (k & [= <-] & Hk).
  - right. apply read_population_throw; [done|]. by intros (k & [=] & Hk).
Qed.

(** Off the grid's columns the last read, [population[x][y]] with the raw
    [x], finds no row (if no earlier read already failed). *)
Lemma neighbours_throw g x y :
  wf g → ¬ (0 ≤ x < xLength g) → neighbours x y g = (Throw TypeError, g).
Proof.
  intros Hw Hx. unfold neighbours.
  assert (read_population (Some x) (Some y) g = (Throw TypeError, g)) as Hc.
  { apply read_population_throw; [done|]. intros (i & [= <-] & Hi). lia. }
  match goal with |- (?m ≫= _) g = _ => assert (reads m g) as [[c Hm]|Hm] end.
  { apply reads_for_iter. intros i c. apply reads_for_iter. intros j c'.
    apply reads_bind; [apply reads_gets|]. intros xl.
    apply reads_bind; [apply reads_gets|]. intros yl.
    apply reads_bind; [by apply reads_read_population|]. intros v. apply reads_ret. }
  - rewrite (bind_ok _ _ _ _ _ Hm). by rewrite (bind_throw _ _ _ _ _ Hc).
  - by rewrite (bind_throw _ _ _ _ _ Hm).
Qed.

Lemma length_filter_b2z {A} (f : A → bool) (l : list A) :
  Z.of_nat (length (filter (λ d, f d = true) l)) = foldr (λ d c, Z.b2z (f d) + c) 0 l.
Proof.
  induction l as [|d l IH]; [done|].
  rewrite filter_cons. simpl foldr. rewrite <-IH.
  destruct (decide (f d = true)) as [E|E].
  - rewrite E. simpl length. simpl Z.b2z. lia.
  - apply not_true_is_false in E. rewrite E. simpl Z.b2z. lia.
Qed.

(** For a cell of the grid the scan minus the centre is the number of live
    cells among the eight wrapped neighbours. *)
Lemma scanned_in_range g x y :
  0 ≤ x < xLength g → 0 ≤ y < yLength g →
  scanned g x y - Z.b2z (is_alive g x y) = live_neighbours g x y.
Proof.
  intros Hx Hy. unfold scanned, live_neighbours.
  rewrite (length_filter_b2z (λ d, is_alive g ((x + d.1) `mod` xLength g)
                                              ((y + d.2) `mod` yLength g))).
  unfold window, offsets. cbn [foldl foldr fst snd].
  rewrite !js_rem_wrap by lia.
  rewrite !Z.add_0_r, (Z.mod_small x), (Z.mod_small y) by lia.
  unfold is_alive, cell. lia.
Qed.

Lemma live_neighbours_bounds g x y : 0 ≤ live_neighbours g x y ≤ 8.
Proof.
  unfold live_neighbours. split; [lia|].
  match goal with |- context [filter ?P offsets] =>
    pose proof (length_filter P offsets) as H end.
  change (length offsets) with 8%nat in H. lia.
Qed.

(** [neighbours] on a cell of the grid. *)
Lemma neighbours_in_range g x y :
  wf g → 0 ≤ x < xLength g → 0 ≤ y < yLength g →
  neighbours x y g = (Ok (live_neighbours g x y), g).
Proof.
  intros Hw Hx Hy. rewrite neighbours_ok by done. by rewrite scanned_in_range.
Qed.

(** A live cell reached by one of the eight offsets is counted. *)
Lemma live_neighbours_pos g x y d :
  d ∈ offsets →
  is_alive g ((x + d.1) `mod` xLength g) ((y + d.2) `mod` yLength g) = true →
  1 ≤ live_neighbours g x y.
Proof.
  intros Hd Ha. unfold live_neighbours.
  assert (d ∈ filter (λ d, is_alive g ((x + d.1) `mod` xLength g)
                             ((y + d.2) `mod` yLength g) = true) offsets) as Hin.
  { by apply list_elem_of_filter. }
  destruct (filter _ offsets); [by apply elem_of_nil in Hin|]. simpl length. lia.
Qed.

(** ** Writing cells *)

Lemma grid_row h a w i :
  grid h a w → 0 ≤ i < w →
  ∃ r ro, row_loc h a (Some i) = Some r ∧ h !! r = Some ro ∧ flat ro.
Proof.
  intros Hg Hi. destruct (grid_inv _ _ _ Hg) as (l & o & -> & Hl & Hdom & Hrows & Hinj).
  destruct (proj2 (Hdom (Some i))) as [v Hv]; [by exists i|].
  destruct (Hrows _ _ Hv) as (r & ro & -> & Hne & Hr & Hf).
  exists r, ro. unfold row_loc, deref. rewrite Hl. simpl. by rewrite Hv.
Qed.

(** [a[i][y] = v] on a grid replaces one property of the row behind [a[i]]. *)
Lemma write_cell_ok g a w i y v :
  grid (heap g) a w → 0 ≤ i < w →
  ∃ r ro, row_loc (heap g) a (Some i) = Some r ∧ heap g !! r = Some ro ∧
    (row ← get_prop a (Some i); set_prop row y v) g
    = (Ok tt, set_heap (<[r := <[y := v]> ro]> (heap g)) g).
Proof.
  intros Hg Hi. destruct (grid_row _ _ _ _ Hg Hi) as (r & ro & Hrl & Hr & Hf).
  exists r, ro. repeat split; try done.
  destruct a as [| |l]; try done. unfold row_loc in Hrl.
  destruct (deref (heap g) l !! Some i) as [[| |r']|] eqn:E; try done.
  injection Hrl as ->.
  unfold get_prop, set_prop, mbind, M_bind, gets, mret, M_ret, modify. simpl.
  rewrite E. simpl. unfold deref at 1. by rewrite Hr.
Qed.

Lemma flat_insert (o : object) k v : flat o → is_object v = false → flat (<[k := v]> o).
Proof. intros Hf Hv. by apply map_Forall_insert_2. Qed.

Lemma grid_write h a w x r ro y v :
  grid h a w → row_loc h a x = Some r → h !! r = Some ro → is_object v = false →
  grid (<[r := <[y := v]> ro]> h) a w.
Proof.
  intros Hg Hrl Hr Hv.
  destruct (grid_inv _ _ _ Hg) as (l & o & -> & Hl & Hdom & Hrows & Hinj).
  unfold row_loc, deref in Hrl. rewrite Hl in Hrl. simpl in Hrl.
  destruct (o !! x) as [[| |r']|] eqn:Hx; try done. injection Hrl as ->.
  destruct (Hrows _ _ Hx) as (r0 & ro0 & [= <-] & Hne & _ & _).
  apply (grid_intro _ l o w); try done.
  - by rewrite lookup_insert_ne.
  - intros k v0 Hk. destruct (Hrows _ _ Hk) as (r1 & ro1 & -> & Hne1 & Hr1 & Hf1).
    destruct (decide (r1 = r)) as [->|Hd].
    + exists r, (<[y := v]> ro). rewrite lookup_insert_eq. repeat split; try done.
      apply flat_insert; [|done]. by simplify_eq.
    + exists r1, ro1. by rewrite lookup_insert_ne.
Qed.

Lemma cell_at_write h a w x r ro y v x' y' :
  grid h a w → row_loc h a x = Some r → h !! r = Some ro →
  cell_at (<[r := <[y := v]> ro]> h) a x' y'
  = if decide (x' = x ∧ y' = y) then v else cell_at h a x' y'.
Proof.
  intros Hg Hrl Hr.
  destruct (grid_inv _ _ _ Hg) as (l & o & -> & Hl & Hdom & Hrows & Hinj).
  unfold row_loc, deref in Hrl. rewrite Hl in Hrl. simpl in Hrl.
  destruct (o !! x) as [[| |r']|] eqn:Hx; try done. injection Hrl as ->.
  destruct (Hrows _ _ Hx) as (r0 & ro0 & [= <-] & Hne & _ & _).
  unfold cell_at, deref. rewrite lookup_insert_ne by done. rewrite Hl. simpl.
  destruct (o !! x') as [v'|] eqn:Hx'.
  - destruct (Hrows _ _ Hx') as (r1 & ro1 & -> & Hne1 & Hr1 & Hf1).
    destruct (decide (r1 = r)) as [->|Hd].
    + assert (x' = x) as -> by (by eapply Hinj).
      rewrite lookup_insert_eq. simpl. rewrite Hr. simpl.
      destruct (decide (y' = y)) as [->|Hy].
      * rewrite lookup_insert_eq. simpl. by rewrite decide_True.
      * rewrite lookup_insert_ne by done. rewrite decide_False; [done|]. by intros [_ ?].
    + rewrite lookup_insert_ne by done. rewrite decide_False; [done|].
      intros [-> _]. simplify_eq.
  - rewrite decide_False; [done|]. intros [-> _]. simplify_eq.
Qed.

(** ** Copying the grid *)

Lemma keys_of_elem (o : object) k : k ∈ keys_of o ↔ is_Some (o !! k).
Proof.
  unfold keys_of. rewrite merge_sort_Permutation, list_elem_of_fmap. split.
  - intros ([k' v] & -> & Hin). apply elem_of_map_to_list in Hin. by eexists.
  - intros [v Hv]. exists (k, v). split; [done|]. by apply elem_of_map_to_list.
Qed.

Lemma keys_of_NoDup (o : object) : NoDup (keys_of o).
Proof. unfold keys_of. rewrite merge_sort_Permutation. apply NoDup_fst_map_to_list. Qed.

Lemma NoDup_app_mid {A} (pre post : list A) x : NoDup (pre ++ x :: post) → x ∉ pre.
Proof.
  intros Hnd Hin. apply NoDup_app in Hnd as (_ & Hd & _).
  apply (Hd x Hin). by left.
Qed.

(** Copying a row: a new object with the same cells. *)
Lemma copy_row fuel g r ro :
  heap g !! r = Some ro → flat ro →
  deepExtend (S fuel) VUndefined [VRef r] g
  = (Ok (VRef (fresh (dom (heap g)))),
     set_heap (<[fresh (dom (heap g)) := ro]> (heap g)) g).
Proof.
  intros Hr Hf. set (h := heap g) in *. set (l' := fresh (dom h)).
  assert (l' ≠ r) as Hne.
  { intros E. apply (is_fresh (dom h)). fold l'. rewrite E. by eapply elem_of_dom_2. }
  cbn [deepExtend]. unfold or_new_object. cbn [truthy].
  erewrite bind_ok; [|reflexivity]. cbn [for_list].
  set (g1 := set_heap (<[l' := ∅]> h) g).
  assert (own_keys (VRef r) g1 = (Ok (keys_of ro), g1)) as Hk.
  { unfold own_keys. rewrite bind_gets. unfold mret, M_ret, deref. simpl.
    rewrite lookup_insert_ne by done. by rewrite Hr. }
  cbn [truthy].
  destruct (for_list_inv
    (λ pre g2, ∃ acc : object, g2 = set_heap (<[l' := acc]> h) g ∧
       ∀ k, acc !! k = if decide (k ∈ pre) then ro !! k else None)
    (keys_of ro)
    (λ k, v ← get_prop (VRef r) k;
          if is_object v then
            o ← get_prop (VRef l') k; v' ← get_prop (VRef r) k;
            r' ← deepExtend fuel o [v']; set_prop (VRef l') k r'
          else v' ← get_prop (VRef r) k; set_prop (VRef l') k v') g1)
    as (g2 & Hloop & acc & -> & Hacc).
  { exists ∅. split; [done|]. intros k. rewrite lookup_empty.
    rewrite decide_False; [done|]. apply not_elem_of_nil. }
  { intros pre k g2 [post Hpost] (acc & -> & Hacc).
    assert (is_Some (ro !! k)) as [v Hv].
    { apply keys_of_elem. rewrite Hpost. apply elem_of_app. right. by left. }
    assert (get_prop (VRef r) k (set_heap (<[l' := acc]> h) g)
            = (Ok v, set_heap (<[l' := acc]> h) g)) as Hget.
    { unfold get_prop. rewrite bind_gets. unfold mret, M_ret, deref. simpl.
      rewrite lookup_insert_ne by done. rewrite Hr. simpl. by rewrite Hv. }
    rewrite (bind_ok _ _ _ _ _ Hget). rewrite (Hf _ _ Hv).
    rewrite (bind_ok _ _ _ _ _ Hget).
    eexists. split; [reflexivity|].
    exists (<[k := v]> acc). split.
    - unfold set_heap, deref. simpl. rewrite lookup_insert_eq. simpl.
      by rewrite insert_insert_eq.
    - intros k'. destruct (decide (k' = k)) as [->|Hk'].
      + rewrite lookup_insert_eq. rewrite decide_True; [done|].
        apply elem_of_app. right. by left.
      + rewrite lookup_insert_ne by done. rewrite Hacc.
        destruct (decide (k' ∈ pre)) as [Hin|Hin].
        * rewrite decide_True; [done|]. apply elem_of_app. by left.
        * rewrite decide_False; [done|]. intros [?|?%list_elem_of_singleton]%elem_of_app; done. }
  fold h l' g1. run Hk. run Hloop.
  rewrite bind_ret. unfold mret, M_ret. do 3 f_equal.
  apply map_eq. intros k. rewrite Hacc.
  destruct (decide (k ∈ keys_of ro)) as [Hin|Hin]; [done|].
  destruct (ro !! k) eqn:E; [|done]. exfalso. apply Hin, keys_of_elem. by eexists.
Qed.

(** Copying the population: a new array of new rows, cell for cell the
    same, while every object that existed before stays as it was. *)
Lemma copy_population g :
  wf g →
  ∃ la h',
    la = fresh (dom (heap g)) ∧
    deepExtend (stack g) (VRef la) [population g] (set_heap (<[la := ∅]> (heap g)) g)
    = (Ok (VRef la), set_heap h' g) ∧
    (la ∉ dom (heap g)) ∧
    (∀ l, l ∈ dom (heap g) → h' !! l = heap g !! l) ∧
    grid h' (VRef la) (xLength g) ∧
    (∀ k r, row_loc h' (VRef la) k = Some r → r ∉ dom (heap g)) ∧
    (∀ x y, cell_at h' (VRef la) x y = cell_at (heap g) (population g) x y).
Proof.
  intros [Hg Hst]. set (h := heap g) in *. set (w := xLength g) in *.
  destruct (grid_inv _ _ _ Hg) as (lp & po & Hpop & Hlp & Hdom & Hrows & Hinj).
  set (la := fresh (dom h)).
  assert (la ∉ dom h) as Hla by apply is_fresh.
  assert (la ≠ lp) as Hne.
  { intros E. apply Hla. rewrite E. by eapply elem_of_dom_2. }
  destruct (stack g) as [|n] eqn:Hstack; [lia|].
  assert (∃ f, n = S f) as [f Hn] by (destruct n; [lia|by eexists]).
  set (g1 := set_heap (<[la := ∅]> h) g).
  set (body := λ k : option Z,
    v ← get_prop (VRef lp) k;
    if is_object v then
      o ← get_prop (VRef la) k; v' ← get_prop (VRef lp) k;
      r' ← deepExtend n o [v']; set_prop (VRef la) k r'
    else v' ← get_prop (VRef lp) k; set_prop (VRef la) k v').
  destruct (for_list_inv
    (λ pre g2, ∃ (h2 : store) (oa : object), (g2 = set_heap h2 g) ∧
       (∀ l, l ∈ dom h → h2 !! l = h !! l) ∧
       h2 !! la = Some oa ∧
       (∀ k, k ∉ pre → oa !! k = None) ∧
       (∀ k, k ∈ pre → ∃ r ro l', po !! k = Some (VRef r) ∧ h !! r = Some ro ∧
            flat ro ∧ oa !! k = Some (VRef l') ∧ (l' ∉ dom h) ∧ l' ≠ la ∧
            h2 !! l' = Some ro) ∧
       (∀ k1 k2 v, oa !! k1 = Some v → oa !! k2 = Some v → k1 = k2))
    (keys_of po) body g1)
    as (g2 & Hloop & h2 & oa & -> & Hfr & Hoa & Hout & Hin & Hoinj).
  { exists (<[la := ∅]> h), ∅. repeat split.
    - intros l Hl. rewrite lookup_insert_ne; [done|]. intros <-. done.
    - by rewrite lookup_insert_eq.
    - intros k Hk. by apply elem_of_nil in Hk.
    - intros k1 k2 v Hk. by rewrite lookup_empty in Hk. }
  { intros pre k g2 [post Hpost] (h2 & oa & -> & Hfr & Hoa & Hout & Hin & Hoinj).
    assert (k ∉ pre) as Hkpre.
    { eapply NoDup_app_mid. rewrite <-Hpost. apply keys_of_NoDup. }
    assert (is_Some (po !! k)) as [v Hv].
    { apply keys_of_elem. rewrite Hpost. apply elem_of_app. right. by left. }
    destruct (Hrows _ _ Hv) as (r & ro & -> & Hrne & Hr & Hf).
    assert (h2 !! lp = Some po) as Hlp2.
    { rewrite Hfr; [done|]. by eapply elem_of_dom_2. }
    assert (h2 !! r = Some ro) as Hr2.
    { rewrite Hfr; [done|]. by eapply elem_of_dom_2. }
    set (g2 := set_heap h2 g).
    assert (get_prop (VRef lp) k g2 = (Ok (VRef r), g2)) as Hget.
    { unfold get_prop. rewrite bind_gets. unfold mret, M_ret, deref. simpl.
      rewrite Hlp2. simpl. by rewrite Hv. }
    assert (get_prop (VRef la) k g2 = (Ok VUndefined, g2)) as Hgeto.
    { unfold get_prop. rewrite bind_gets. unfold mret, M_ret, deref. simpl.
      rewrite Hoa. simpl. by rewrite (Hout _ Hkpre). }
    set (l' := fresh (dom h2)).
    assert (l' ∉ dom h2) as Hl' by apply is_fresh.
    assert (dom h ⊆ dom h2) as Hsub.
    { intros l Hl. apply elem_of_dom. rewrite (Hfr _ Hl). by apply elem_of_dom. }
    assert (l' ≠ la) as Hl'la.
    { intros E. apply Hl'. rewrite E. by eapply elem_of_dom_2. }
    unfold body. run Hget. cbn [is_object]. run Hgeto. run Hget.
    assert (heap g2 !! r = Some ro) as Hr2' by done.
    rewrite Hn. rewrite ?bind_assoc, (bind_ok _ _ _ _ _ (copy_row f g2 r ro Hr2' Hf)).
    change (heap g2) with h2. fold l'.
    eexists. split; [reflexivity|].
    exists (<[la := <[k := VRef l']> oa]> (<[l' := ro]> h2)), (<[k := VRef l']> oa).
    split; [|repeat split].
    - unfold set_heap, deref. simpl. rewrite lookup_insert_ne by done. by rewrite Hoa.
    - intros l Hl. rewrite !lookup_insert_ne; [by apply Hfr| |].
      + intros <-. by apply Hl', Hsub.
      + intros <-. done.
    - by rewrite lookup_insert_eq.
    - intros k' Hk'. rewrite lookup_insert_ne.
      + apply Hout. intros ?. apply Hk', elem_of_app. by left.
      + intros <-. apply Hk', elem_of_app. right. by left.
    - intros k' [Hk'|Hk'%list_elem_of_singleton]%elem_of_app.
      + destruct (Hin _ Hk') as (r0 & ro0 & l0 & H1 & H2 & H3 & H4 & H5 & H6 & H7).
        exists r0, ro0, l0. repeat split; try done.
        * rewrite lookup_insert_ne; [done|]. by intros <-.
        * rewrite !lookup_insert_ne; try done.
          intros <-. apply Hl'. by eapply elem_of_dom_2.
      + subst k'. exists r, ro, l'. repeat split; try done.
        * by rewrite lookup_insert_eq.
        * intros ?. by apply Hl', Hsub.
        * rewrite lookup_insert_ne by done. by rewrite lookup_insert_eq.
    - intros k1 k2 v0 H1 H2.
      destruct (decide (k1 = k)) as [->|E1], (decide (k2 = k)) as [->|E2]; try done.
      + rewrite lookup_insert_eq in H1. rewrite lookup_insert_ne in H2 by done.
        simplify_eq. exfalso.
        destruct (decide (k2 ∈ pre)) as [Hp|Hp]; [|by rewrite (Hout _ Hp) in H2].
        destruct (Hin _ Hp) as (r0 & ro0 & l0 & _ & _ & _ & H4 & _ & _ & H7).
        simplify_eq. apply Hl'. by eapply elem_of_dom_2.
      + rewrite lookup_insert_eq in H2. rewrite lookup_insert_ne in H1 by done.
        simplify_eq. exfalso.
        destruct (decide (k1 ∈ pre)) as [Hp|Hp]; [|by rewrite (Hout _ Hp) in H1].
        destruct (Hin _ Hp) as (r0 & ro0 & l0 & _ & _ & _ & H4 & _ & _ & H7).
        simplify_eq. apply Hl'. by eapply elem_of_dom_2.
      + rewrite lookup_insert_ne in H1, H2 by done. by eapply Hoinj. }
  exists la, h2. split; [done|]. split; [|repeat split; try done].
  - fold g1. rewrite Hpop. cbn [deepExtend]. unfold or_new_object. cbn [truthy].
    rewrite bind_ret. cbn [for_list truthy].
    assert (own_keys (VRef lp) g1 = (Ok (keys_of po), g1)) as Hk.
    { unfold own_keys. rewrite bind_gets. unfold mret, M_ret, deref. simpl.
      rewrite lookup_insert_ne by done. by rewrite Hlp. }
    run Hk. fold body. run Hloop. by rewrite bind_ret.
  - apply (grid_intro _ la oa w); try done.
    + intros k. rewrite <-Hdom. split.
      * intros [v Hv]. destruct (decide (k ∈ keys_of po)) as [Hp|Hp];
          [by apply keys_of_elem|]. by rewrite (Hout _ Hp) in Hv.
      * intros Hk%keys_of_elem.
        destruct (Hin _ Hk) as (r0 & ro0 & l0 & _ & _ & _ & H4 & _). by eexists.
    + intros k v Hv. destruct (decide (k ∈ keys_of po)) as [Hk|Hk];
        [|by rewrite (Hout _ Hk) in Hv].
      destruct (Hin _ Hk) as (r0 & ro0 & l0 & _ & _ & H3 & H4 & _ & H6 & H7).
      simplify_eq. by exists l0, ro0.
  - intros k r. unfold row_loc, deref. rewrite Hoa. simpl.
    destruct (oa !! k) as [[| |l0]|] eqn:Hk; try done. intros [= <-].
    destruct (decide (k ∈ keys_of po)) as [Hp|Hp]; [|by rewrite (Hout _ Hp) in Hk].
    destruct (Hin _ Hp) as (r0 & ro0 & l1 & _ & _ & _ & H4 & H5 & _). by simplify_eq.
  - intros x y. fold h. rewrite Hpop. unfold cell_at, deref. rewrite Hoa, Hlp. simpl.
    destruct (decide (x ∈ keys_of po)) as [Hp|Hp].
    + destruct (Hin _ Hp) as (r0 & ro0 & l1 & H1 & H2 & _ & H4 & _ & _ & H7).
      by rewrite H1, H4, H2, H7.
    + rewrite (Hout _ Hp). destruct (po !! x) eqn:E; [|done].
      exfalso. apply Hp, keys_of_elem. by eexists.
Qed.

(** ** The two loops of [advance] *)

Lemma for_each_run (P : Z → game → Prop) hi body g :
  P 0 g →
  (∀ i g, 0 ≤ i < hi → P i g → ∃ g', body i g = (Ok tt, g') ∧ P (i + 1) g') →
  ∃ g', for_each hi body g = (Ok tt, g') ∧ P (Z.max 0 hi) g'.
Proof.
  intros H0 Hstep. destruct (decide (0 ≤ hi)) as [Hhi|Hhi].
  - rewrite Z.max_r by done. by apply for_each_inv.
  - exists g. rewrite for_each_none by lia. split; [done|]. by rewrite Z.max_l by lia.
Qed.

(** A sweep over the grid, column by column: if the body settles the cell
    it is called for and keeps [Q], which tracks the cells settled so far,
    then the two nested loops return with every cell settled. *)
Lemma sweep (Q : (Z → Z → bool) → game → Prop) w h (body : Z → Z → M unit) g :
  (∀ d d' g, (∀ x y, 0 ≤ x < w → 0 ≤ y < h → d x y = d' x y) → Q d g → Q d' g) →
  (∀ d g, Q d g → yLength g = h) →
  (∀ d i j g, 0 ≤ i < w → 0 ≤ j < h → d i j = false → Q d g →
     ∃ g', body i j g = (Ok tt, g') ∧ Q (λ x y, d x y || ((x =? i) && (y =? j))) g') →
  Q (λ _ _, false) g →
  ∃ g', for_each w (λ i, yl ← gets yLength; for_each yl (body i)) g = (Ok tt, g') ∧
        Q (λ _ _, true) g'.
Proof.
  intros Hext Hy Hstep H0.
  destruct (for_each_run (λ i g3, Q (λ x _, x <? i) g3) w
    (λ i, yl ← gets yLength; for_each yl (body i)) g) as (g3 & Hr & H3).
  - eapply Hext; [|done]. intros x y Hx Hyy. symmetry. apply Z.ltb_ge. lia.
  - intros i g3 Hi H3. rewrite bind_gets, (Hy _ _ H3).
    destruct (for_each_run
      (λ j g4, Q (λ x y, (x <? i) || ((x =? i) && (y <? j))) g4)
      h (body i) g3) as (g4 & Hr4 & H4).
    + eapply Hext; [|done]. intros x y Hx Hyy.
      replace (y <? 0) with false by (symmetry; apply Z.ltb_ge; lia).
      by rewrite andb_false_r, orb_false_r.
    + intros j g4 Hj H4.
      destruct (Hstep (λ x y, (x <? i) || ((x =? i) && (y <? j))) i j g4 Hi Hj)
        as (g5 & Hr5 & H5); [|done|].
      { by rewrite !Z.ltb_irrefl, andb_false_r. }
      exists g5. split; [done|]. eapply Hext; [|done].
      intros x y Hx Hyy. simpl.
      destruct (Z.ltb_spec x i), (Z.eqb_spec x i), (Z.ltb_spec y j),
        (Z.eqb_spec y j), (Z.ltb_spec y (j + 1)); simpl; try done; lia.
    + exists g4. split; [done|]. eapply Hext; [|done].
      intros x y Hx Hyy. simpl.
      destruct (Z.ltb_spec x i), (Z.eqb_spec x i), (Z.ltb_spec y (Z.max 0 h)),
        (Z.ltb_spec x (i + 1)); simpl; try done; lia.
  - exists g3. split; [done|]. eapply Hext; [|done].
    intros x y Hx Hyy. simpl. apply Z.ltb_lt. lia.
Qed.

Lemma living_ext g la done done' g2 :
  (∀ x y, 0 ≤ x < xLength g → 0 ≤ y < yLength g → done x y = done' x y) →
  living g la done g2 → living g la done' g2.
Proof.
  intros He (h2 & -> & Hfr & Hg & Hrl & Hc). exists h2. repeat split; try done.
  intros x y Hx Hy. rewrite <-He by done. by apply Hc.
Qed.

Lemma living_wf g la done g2 :
  wf g → living g la done g2 →
  wf g2 ∧ xLength g2 = xLength g ∧ yLength g2 = yLength g ∧
  (∀ x y, cell g2 x y = cell g x y).
Proof.
  intros [Hg Hst] (h2 & -> & Hfr & Hg2 & Hrl & Hc). repeat split; try done.
  - by eapply grid_frame.
  - intros x y. unfold cell. simpl. by eapply cell_at_frame.
Qed.

Lemma live_neighbours_ext g g2 x y :
  xLength g2 = xLength g → yLength g2 = yLength g →
  (∀ x y, cell g2 x y = cell g x y) →
  live_neighbours g2 x y = live_neighbours g x y.
Proof.
  intros Hx Hy Hc. unfold live_neighbours. rewrite Hx, Hy. do 2 f_equal.
  apply list_filter_iff. intros d. unfold is_alive. by rewrite Hc.
Qed.

Lemma row_loc_write h a w x r ro y v k :
  grid h a w → row_loc h a x = Some r → h !! r = Some ro →
  row_loc (<[r := <[y := v]> ro]> h) a k = row_loc h a k.
Proof.
  intros Hg Hrl Hr.
  destruct (grid_inv _ _ _ Hg) as (l & o & -> & Hl & Hdom & Hrows & Hinj).
  unfold row_loc, deref in *. rewrite Hl in Hrl. simpl in Hrl.
  destruct (o !! x) as [[| |r']|] eqn:Hx; try done. injection Hrl as ->.
  destruct (Hrows _ _ Hx) as (r0 & ro0 & [= <-] & Hne & _ & _).
  by rewrite lookup_insert_ne.
Qed.

(** One call of [live] settles one cell of the copy. *)
Lemma live_step g la done g2 i j :
  wf g → living g la done g2 →
  0 ≤ i < xLength g → 0 ≤ j < yLength g → done i j = false →
  ∃ g3, live i j g2 = (Ok tt, g3) ∧
        living g la (λ x y, done x y || ((x =? i) && (y =? j))) g3.
Proof.
  intros Hw Hl Hi Hj Hd.
  destruct (living_wf _ _ _ _ Hw Hl) as (Hw2 & Hx2 & Hy2 & Hc2).
  destruct Hl as (h2 & -> & Hfr & Hg2 & Hrl & Hc).
  set (g2 := set_future (VRef la) (set_heap h2 g)) in *.
  unfold live.
  assert (neighbours i j g2 = (Ok (live_neighbours g i j), g2)) as Hn.
  { rewrite neighbours_in_range by (done || lia).
    by rewrite (live_neighbours_ext g g2). }
  assert (read_population (Some i) (Some j) g2 = (Ok (cell g i j), g2)) as Hp.
  { rewrite read_population_ok; [|done|exists i; split; [done|lia]].
    by rewrite <-Hc2. }
  run Hn. run Hp.
  pose proof (Hc i j Hi Hj) as Hold. rewrite Hd in Hold.
  assert (∀ v, is_object v = false →
    live_value (cell g i j) (live_neighbours g i j) = v →
    ∃ g3, write_future (Some i) (Some j) v g2 = (Ok tt, g3) ∧
          living g la (λ x y, done x y || ((x =? i) && (y =? j))) g3) as Hwrite.
  { intros v Hv Hlv. unfold write_future. rewrite bind_gets.
    destruct (write_cell_ok g2 (VRef la) (xLength g) i (Some j) v Hg2 Hi)
      as (r & ro & Hr & Hro & Heq).
    change (future g2) with (VRef la). rewrite Heq. eexists. split; [reflexivity|].
    change (heap g2) with h2 in *.
    exists (<[r := <[Some j := v]> ro]> h2). repeat split.
    - intros l Hl. rewrite lookup_insert_ne; [by apply Hfr|].
      intros <-. by apply (Hrl _ _ Hr).
    - by eapply grid_write.
    - intros k r'. erewrite row_loc_write by done. apply Hrl.
    - intros x y Hx Hy. erewrite cell_at_write by done.
      destruct (Z.eqb_spec x i) as [->|Hxi], (Z.eqb_spec y j) as [->|Hyj];
        rewrite ?orb_true_r, ?orb_false_r; simpl andb; rewrite ?orb_true_r, ?orb_false_r.
      + rewrite decide_True by done. by rewrite <-Hlv.
      + rewrite decide_False by (intros [_ [=]]; done). by apply Hc.
      + rewrite decide_False by (intros [[=] _]; done). by apply Hc.
      + rewrite decide_False by (intros [[=] _]; done). by apply Hc. }
  destruct (truthy (cell g i j) && ((live_neighbours g i j <? 2)
            || (3 <? live_neighbours g i j))) eqn:E1.
  { apply Hwrite; [done|]. unfold live_value. by rewrite E1. }
  destruct (live_neighbours g i j =? 3) eqn:E2.
  { apply Hwrite; [done|]. unfold live_value. by rewrite E1, E2. }
  exists g2. split; [done|]. exists h2. repeat split; try done.
  intros x y Hx Hy.
  destruct (Z.eqb_spec x i) as [->|Hxi], (Z.eqb_spec y j) as [->|Hyj];
    simpl andb; rewrite ?orb_true_r, ?orb_false_r; try by apply Hc.
  rewrite Hold. unfold next_cell, live_value. by rewrite E1, E2.
Qed.

(** The first loop: every cell of the copy gets its next value. *)
Lemma live_loop g la g2 :
  wf g → living g la (λ _ _, false) g2 →
  ∃ g3, for_each (xLength g2) (λ i, yl ← gets yLength; for_each yl (λ j, live i j)) g2
        = (Ok tt, g3) ∧
        living g la (λ _ _, true) g3.
Proof.
  intros Hw Hl.
  destruct (living_wf _ _ _ _ Hw Hl) as (_ & Hx2 & _ & _). rewrite Hx2.
  apply (sweep (living g la) (xLength g) (yLength g)); try done.
  - intros d d' g3. apply living_ext.
  - intros d g3 H3. by destruct (living_wf _ _ _ _ Hw H3) as (_ & _ & Hy3 & _).
  - intros d i j g3 Hi Hj Hd H3. by apply live_step.
Qed.

Lemma seqZ_bind_snoc {A} (f : Z → list A) n :
  0 ≤ n → seqZ 0 (n + 1) ≫= f = (seqZ 0 n ≫= f) ++ f n.
Proof.
  intros Hn. rewrite seqZ_app by lia. rewrite bind_app. f_equal.
  change (seqZ (0 + n) 1) with [n]. by rewrite bind_singleton.
Qed.

Lemma seqZ_max m n : seqZ m (Z.max 0 n) = seqZ m n.
Proof.
  destruct (decide (0 ≤ n)); [by rewrite Z.max_r|].
  rewrite Z.max_l by lia. by rewrite !seqZ_nil by lia.
Qed.

Lemma read_future_ok g la w x y :
  future g = VRef la → grid (heap g) (VRef la) w → 0 ≤ x < w →
  read_future (Some x) (Some y) g
  = (Ok (cell_at (heap g) (VRef la) (Some x) (Some y)), g).
Proof.
  intros Hf Hg Hx. unfold read_future. rewrite bind_gets, Hf.
  eapply read_cell_ok; [done|]. by exists x.
Qed.

(** The second loop: one drawing call for every cell whose slot in the
    copy differs from the current one, and nothing else changes. *)
Lemma view_loop g la g3 :
  wf g → living g la (λ _ _, true) g3 →
  ∃ d, for_each (xLength g3) (λ i,
         yl ← gets yLength;
         for_each yl (λ j,
           p ← read_population (Some i) (Some j);
           f ← read_future (Some i) (Some j);
           if negb (strict_eq p f) then
             f' ← read_future (Some i) (Some j);
             if truthy f' then populate i j else kill i j
           else mret tt)) g3
       = (Ok tt, set_draws d (set_canvas (canvas g ++ redraws g) g3)).
Proof.
  intros Hw Hl.
  destruct (living_wf _ _ _ _ Hw Hl) as (Hw3 & Hx3 & Hy3 & Hc3).
  destruct Hl as (h3 & Hg3 & Hfr & Hgr & Hrl & Hc).
  assert (heap g3 = h3) as Hh3 by (by rewrite Hg3).
  assert (future g3 = VRef la) as Hf3 by (by rewrite Hg3).
  rewrite Hx3.
  set (body := λ i j : Z,
           p ← read_population (Some i) (Some j);
           f ← read_future (Some i) (Some j);
           if negb (strict_eq p f) then
             f' ← read_future (Some i) (Some j);
             if truthy f' then populate i j else kill i j
           else mret tt).
  set (pre := λ i : Z, seqZ 0 i ≫= λ x, redraw_column g x (yLength g)).
  destruct (for_each_run
    (λ i g4, ∃ d, g4 = set_draws d (set_canvas (canvas g ++ pre i) g3))
    (xLength g) (λ i, yl ← gets yLength; for_each yl (body i)) g3)
    as (g4 & Hr & d & ->).
  - exists (draws g3). unfold pre. simpl. rewrite app_nil_r. subst g3. by destruct g.
  - intros i g4 Hi [d ->]. rewrite bind_gets.
    change (yLength (set_draws d (set_canvas (canvas g ++ pre i) g3))) with (yLength g3).
    rewrite Hy3.
    destruct (for_each_run
      (λ j g5, ∃ d, g5 = set_draws d
                 (set_canvas (canvas g ++ pre i ++ redraw_column g i j) g3))
      (yLength g) (body i) (set_draws d (set_canvas (canvas g ++ pre i) g3)))
      as (g5 & Hr5 & d5 & ->).
    + exists d. unfold redraw_column. simpl. by rewrite app_nil_r.
    + intros j g5 Hj [d5 ->].
      set (g5 := set_draws d5 (set_canvas (canvas g ++ pre i ++ redraw_column g i j) g3)).
      assert (wf g5) as Hw5 by exact Hw3.
      assert (read_population (Some i) (Some j) g5 = (Ok (cell g i j), g5)) as Hp.
      { rewrite read_population_ok; [|done|exists i; split; [done|]].
        - change (cell_at (heap g5) (population g5) (Some i) (Some j)) with (cell g3 i j).
          by rewrite Hc3.
        - change (xLength g5) with (xLength g3). lia. }
      assert (read_future (Some i) (Some j) g5 = (Ok (next_cell g i j), g5)) as Hf.
      { rewrite (read_future_ok g5 la (xLength g)); try done.
        - change (heap g5) with (heap g3). by rewrite Hh3, Hc.
        - change (heap g5) with (heap g3). by rewrite Hh3. }
      unfold body. run Hp. run Hf.
      assert (redraw_column g i (j + 1)
              = redraw_column g i j ++ redraw (cell g i j) (next_cell g i j) i j) as Hsn.
      { unfold redraw_column.
        apply (seqZ_bind_snoc (λ y, redraw (cell g i y) (next_cell g i y) i y)). lia. }
      rewrite Hsn. unfold redraw.
      destruct (strict_eq (cell g i j) (next_cell g i j)); cbn [negb].
      * exists g5. split; [done|]. exists d5. by rewrite app_nil_r.
      * run Hf. destruct (truthy (next_cell g i j)).
        -- eexists. split; [reflexivity|]. exists (S d5).
           unfold g5. simpl. by rewrite <-!app_assoc.
        -- eexists. split; [reflexivity|]. exists d5.
           unfold g5. simpl. by rewrite <-!app_assoc.
    + eexists. split; [done|]. exists d5. do 3 f_equal.
      unfold pre.
      rewrite (seqZ_bind_snoc (λ x, redraw_column g x (yLength g))) by lia.
      f_equal. unfold redraw_column. by rewrite seqZ_max.
  - exists d. etransitivity; [exact Hr|]. do 4 f_equal.
    unfold pre, redraws. by rewrite seqZ_max.
Qed.

(** ** One call of [advance] *)

(** [advance] returns.  It leaves every object of the old generation as it
    was, binds [population] (and [future]) to a grid of new objects whose
    cells are the next values, and logs the drawing calls of the changed
    cells. *)
Lemma advance_spec g :
  wf g →
  ∃ la h' d,
    advance g
    = (Ok tt, set_population (VRef la) (set_draws d
                (set_canvas (canvas g ++ redraws g)
                   (set_future (VRef la) (set_heap h' g))))) ∧
    (la ∉ dom (heap g)) ∧
    (∀ l, l ∈ dom (heap g) → h' !! l = heap g !! l) ∧
    grid h' (VRef la) (xLength g) ∧
    (∀ x y, 0 ≤ x < xLength g → 0 ≤ y < yLength g →
       cell_at h' (VRef la) (Some x) (Some y) = next_cell g x y).
Proof.
  intros Hw.
  destruct (copy_population g Hw) as (la & h1 & Hla & Hcopy & Hfresh & Hfr & Hg1 & Hrl & Hc).
  assert (living g la (λ _ _, false) (set_future (VRef la) (set_heap h1 g))) as Hl1.
  { exists h1. by repeat split. }
  destruct (live_loop g la _ Hw Hl1) as (g3 & Hlive & Hl3).
  destruct (view_loop g la g3 Hw Hl3) as (d & Hview).
  pose proof Hl3 as (h3 & Hg3 & Hfr3 & Hgr3 & Hrl3 & Hc3).
  exists la, h3, d. repeat split; try done.
  unfold advance. erewrite bind_ok; [|reflexivity]. rewrite !bind_gets.
  rewrite <-Hla. change (stack (set_heap (<[la:=∅]> (heap g)) g)) with (stack g).
  change (population (set_heap (<[la:=∅]> (heap g)) g)) with (population g).
  run Hcopy. rewrite bind_modify, bind_gets. run Hlive. rewrite bind_gets. run Hview.
  rewrite bind_gets. unfold modify. by rewrite Hg3.
Qed.

Lemma advance_next g :
  wf g →
  ∃ g', advance g = (Ok tt, g') ∧ wf g' ∧
    xLength g' = xLength g ∧ yLength g' = yLength g ∧
    (∀ x y, 0 ≤ x < xLength g → 0 ≤ y < yLength g → cell g' x y = next_cell g x y) ∧
    canvas g' = canvas g ++ redraws g ∧
    (∀ l, l ∈ dom (heap g) → heap g' !! l = heap g !! l) ∧
    future g' = population g' ∧ alive g' = alive g.
Proof.
  intros Hw. destruct (advance_spec g Hw) as (la & h' & d & Heq & Hla & Hfr & Hg & Hc).
  eexists. split; [exact Heq|]. destruct Hw as [_ Hst]. by repeat split.
Qed.

(** Cells are never objects. *)
Lemma cell_flat g x y : wf g → is_object (cell g x y) = false.
Proof.
  intros [Hg _]. destruct (grid_inv _ _ _ Hg) as (l & o & Hp & Hl & Hdom & Hrows & Hinj).
  unfold cell, cell_at, deref. rewrite Hp, Hl. simpl.
  destruct (o !! Some x) as [v|] eqn:Hx; [|done].
  destruct (Hrows _ _ Hx) as (r & ro & -> & _ & Hr & Hf). rewrite Hr. simpl.
  destruct (ro !! Some y) as [c|] eqn:Hy; [|done]. by apply (Hf _ _ Hy).
Qed.

(** What [live] writes follows Conway's rule. *)
Lemma live_value_rule c n : truthy (live_value c n) = rule (truthy c) n.
Proof.
  unfold live_value, rule.
  destruct (truthy c) eqn:Hc; simpl;
    destruct (Z.ltb_spec n 2), (Z.ltb_spec 3 n), (Z.eqb_spec n 3), (Z.eqb_spec n 2);
    simpl; try done; lia.
Qed.

Lemma is_alive_next g g' x y :
  cell g' x y = next_cell g x y →
  is_alive g' x y = rule (is_alive g x y) (live_neighbours g x y).
Proof. intros Hc. unfold is_alive. rewrite Hc. apply live_value_rule. Qed.

(** ** The rule (C1) *)



(** ** The neighbour count (C2, C3, C7) *)

Lemma offsets_spec d :
  d ∈ offsets → -1 ≤ d.1 ≤ 1 ∧ -1 ≤ d.2 ≤ 1 ∧ (d.1 ≠ 0 ∨ d.2 ≠ 0).
Proof.
  unfold offsets. rewrite !elem_of_cons, elem_of_nil.
  intros H. destruct_or!; subst; simpl; lia.
Qed.

Lemma wrap_ne x i w :
  2 ≤ w → 0 ≤ x < w → -1 ≤ i ≤ 1 → i ≠ 0 → (x + i) `mod` w ≠ x.
Proof.
  intros Hw Hx Hi Hi0. assert (i = 1 ∨ i = -1) as [->| ->] by lia.
  - destruct (decide (x + 1 = w)) as [E|Hne].
    + rewrite E, Z_mod_same_full. lia.
    + rewrite Z.mod_small by lia. lia.
  - destruct (decide (x = 0)) as [->|Hne].
    + replace (0 + -1) with (w - 1 + -1 * w) by lia.
      rewrite Z_mod_plus_full, Z.mod_small by lia. lia.
    + rewrite Z.mod_small by lia. lia.
Qed.

Lemma filter_ext_in {A} (P Q : A → Prop) `{∀ x, Decision (P x)} `{∀ x, Decision (Q x)}
    (l : list A) :
  (∀ x, x ∈ l → P x ↔ Q x) → filter P l = filter Q l.
Proof.
  induction l as [|a l IH]; intros He; [done|].
  rewrite !filter_cons.
  assert (filter P l = filter Q l) as -> by (apply IH; intros x Hx; apply He; by right).
  assert (P a ↔ Q a) as Ha by (apply He; by left).
  destruct (decide (P a)), (decide (Q a)); try done; tauto.
Qed.

(** With at least two columns and two rows none of the eight neighbours is
    the centre, so the count ignores the centre's state. *)
Lemma live_neighbours_centre g g2 x y :
  2 ≤ xLength g → 2 ≤ yLength g → 0 ≤ x < xLength g → 0 ≤ y < yLength g →
  same_but_centre g g2 x y →
  live_neighbours g2 x y = live_neighbours g x y.
Proof.
  intros Hw Hh Hx Hy (Hx2 & Hy2 & Hs). unfold live_neighbours. rewrite Hx2, Hy2.
  do 2 f_equal. apply filter_ext_in. intros d Hd.
  destruct (offsets_spec d Hd) as (H1 & H2 & Hne).
  rewrite Hs; [done| | |].
  - by apply wrap_in_range.
  - by apply wrap_in_range.
  - intros [= E1 E2]. destruct Hne as [Hne|Hne].
    + by apply (wrap_ne x d.1 (xLength g)).
    + by apply (wrap_ne y d.2 (yLength g)).
Qed.

(** C2, as stated, fails on the 1 by 1 grid: the eight wrapped neighbours of
    the only cell are that cell, so making it alive raises its own count
    from 0 to 8. *)
Lemma neighbours_counts_centre_1x1 :
  wf lone_dead ∧ wf lone_alive ∧
  same_but_centre lone_dead lone_alive 0 0 ∧
  is_alive lone_dead 0 0 = false ∧ is_alive lone_alive 0 0 = true ∧
  (neighbours 0 0 lone_dead).1 = Ok 0 ∧
  (neighbours 0 0 lone_alive).1 = Ok 8.
Proof.
  split; [apply (bool_decide_unpack _); vm_compute; exact I|].
  split; [apply (bool_decide_unpack _); vm_compute; exact I|].
  split; [|by vm_compute].
  split; [done|]. split; [done|].
  intros x' y' Hx' Hy' Hne. exfalso. apply Hne.
  change (xLength lone_dead) with 1 in Hx'. change (yLength lone_dead) with 1 in Hy'.
  f_equal; lia.
Qed.

(** On a grid with a single column or a single row the two offsets along
    that direction wrap onto the centre, and a live centre is counted for
    both. *)
Lemma live_neighbours_self g x y :
  0 ≤ x < xLength g → 0 ≤ y < yLength g →
  xLength g = 1 ∨ yLength g = 1 → is_alive g x y = true →
  2 ≤ live_neighbours g x y.
Proof.
  intros Hx Hy Hone Ha. unfold live_neighbours.
  rewrite (length_filter_b2z (λ d, is_alive g ((x + d.1) `mod` xLength g)
                                              ((y + d.2) `mod` yLength g))).
  unfold offsets. cbn [foldr fst snd].
  rewrite !Z.add_0_r, (Z.mod_small x), (Z.mod_small y) by lia.
  destruct Hone as [E|E]; rewrite E, !Z.mod_1_r.
  - assert (x = 0) as -> by lia. rewrite Ha.
    repeat match goal with |- context [Z.b2z (is_alive ?a ?b ?c)] =>
      destruct (is_alive a b c) end; simpl; lia.
  - assert (y = 0) as -> by lia. rewrite Ha.
    repeat match goal with |- context [Z.b2z (is_alive ?a ?b ?c)] =>
      destruct (is_alive a b c) end; simpl; lia.
Qed.

(** C2, amended.  For a cell of the grid [neighbours] returns the number of
    live cells among the eight wrapped offsets other than [(0, 0)], a count
    between 0 and 8.  With at least two columns and two rows none of the
    eight is the centre, and the count is the same whatever the centre's
    state; with a single column or a single row a live centre is among its
    own wrapped neighbours and is counted at least twice. *)
Theorem neighbours_excludes_centre g x y :
  wf g → 0 ≤ x < xLength g → 0 ≤ y < yLength g →
  neighbours x y g = (Ok (live_neighbours g x y), g) ∧
  0 ≤ live_neighbours g x y ≤ 8 ∧
  (2 ≤ xLength g → 2 ≤ yLength g →
   ∀ g2, wf g2 → same_but_centre g g2 x y →
     neighbours x y g2 = (Ok (live_neighbours g x y), g2)) ∧
  (xLength g = 1 ∨ yLength g = 1 → is_alive g x y = true →
   2 ≤ live_neighbours g x y).
Proof.
  intros Hw Hx Hy. split; [by apply neighbours_in_range|].
  split; [apply live_neighbours_bounds|]. split.
  - intros Hw2 Hh2 g2 Hwf2 Hs. pose proof Hs as (Hx2 & Hy2 & _).
    rewrite neighbours_in_range; [|done|lia|lia].
    by rewrite (live_neighbours_centre g g2).
  - by apply live_neighbours_self.
Qed.

Lemma neighbours_excludes_centre_witness :
  neighbours 2 1 blinker = (Ok (live_neighbours blinker 2 1), blinker) ∧
  0 ≤ live_neighbours blinker 2 1 ≤ 8 ∧
  (2 ≤ xLength blinker → 2 ≤ yLength blinker →
   ∀ g2, wf g2 → same_but_centre blinker g2 2 1 →
     neighbours 2 1 g2 = (Ok (live_neighbours blinker 2 1), g2)) ∧
  (xLength blinker = 1 ∨ yLength blinker = 1 → is_alive blinker 2 1 = true →
   2 ≤ live_neighbours blinker 2 1).
Proof.
  apply (neighbours_excludes_centre blinker 2 1).
  - apply (bool_decide_unpack _). vm_compute. exact I.
  - vm_compute. split; discriminate || reflexivity.
  - vm_compute. split; discriminate || reflexivity.
Defined.

(** With three columns or more, two offsets that wrap onto the same column
    are the same. *)
Lemma wrap_inj x a b w :
  3 ≤ w → -1 ≤ a ≤ 1 → -1 ≤ b ≤ 1 → (x + a) `mod` w = (x + b) `mod` w → a = b.
Proof.
  intros Hw Ha Hb E.
  assert (H0 : ∀ c, 0 ≤ c < w → c `mod` w = 0 → c = 0).
  { intros c Hc Hm. by rewrite Z.mod_small in Hm. }
  assert (Hab : (a - b) `mod` w = 0).
  { replace (a - b) with ((x + a) - (x + b)) by lia.
    by rewrite Zminus_mod, E, Z.sub_diag, Zmod_0_l. }
  assert (Hba : (b - a) `mod` w = 0).
  { replace (b - a) with ((x + b) - (x + a)) by lia.
    by rewrite Zminus_mod, E, Z.sub_diag, Zmod_0_l. }
  destruct (decide (b ≤ a)).
  - specialize (H0 (a - b)). lia.
  - specialize (H0 (b - a)). lia.
Qed.

(** Making one cell alive raises the count by one for every offset that
    wraps onto it. *)
Lemma live_neighbours_raise g g' x y tx ty :
  0 ≤ x < xLength g → 0 ≤ y < yLength g →
  same_but_centre g g' tx ty →
  is_alive g tx ty = false → is_alive g' tx ty = true →
  live_neighbours g' x y
  = live_neighbours g x y + Z.of_nat (length (reaching g x y tx ty)).
Proof.
  intros Hx Hy (Hx' & Hy' & Hs) Hd Ha. unfold live_neighbours, reaching.
  rewrite Hx', Hy'.
  induction offsets as [|d l IH]; [done|].
  rewrite !filter_cons.
  assert (Hin : 0 ≤ (x + d.1) `mod` xLength g < xLength g ∧
                0 ≤ (y + d.2) `mod` yLength g < yLength g).
  { split; by apply wrap_in_range. }
  destruct (decide ((x + d.1) `mod` xLength g = tx ∧ (y + d.2) `mod` yLength g = ty))
    as [[E1 E2]|Hne].
  - rewrite E1, E2, Ha, Hd.
    rewrite decide_True by done. rewrite decide_False by done.
    cbn [length]. lia.
  - rewrite (Hs _ _ (proj1 Hin) (proj2 Hin)) by (intros [= E1 E2]; by destruct Hne).
    destruct (decide (is_alive g _ _ = true)); cbn [length]; lia.
Qed.

Lemma reaching_one g x y d :
  3 ≤ xLength g → 3 ≤ yLength g → d ∈ offsets →
  length (reaching g x y ((x + d.1) `mod` xLength g) ((y + d.2) `mod` yLength g)) = 1%nat.
Proof.
  intros Hw Hh Hd. unfold reaching.
  rewrite (filter_ext_in _ (λ d', d' = d)).
  - unfold offsets in *. rewrite !elem_of_cons in Hd.
    destruct_or!; subst; try reflexivity. by apply elem_of_nil in Hd.
  - intros d' Hd'. destruct (offsets_spec d Hd) as (H1 & H2 & _).
    destruct (offsets_spec d' Hd') as (H1' & H2' & _). split.
    + intros [E1 E2]. apply wrap_inj in E1; [|done..]. apply wrap_inj in E2; [|done..].
      destruct d, d'; simpl in *; congruence.
    + by intros ->.
Qed.

Lemma reaching_pos g x y d :
  d ∈ offsets →
  (1 ≤ length (reaching g x y ((x + d.1) `mod` xLength g) ((y + d.2) `mod` yLength g)))%nat.
Proof.
  intros Hd. unfold reaching.
  assert (d ∈ filter (λ d', (x + d'.1) `mod` xLength g = (x + d.1) `mod` xLength g ∧
                           (y + d'.2) `mod` yLength g = (y + d.2) `mod` yLength g) offsets)
    as Hin by (by apply list_elem_of_filter).
  destruct (filter _ offsets); [by apply elem_of_nil in Hin|]. simpl. lia.
Qed.

(** C3.  The count is taken on the torus.  On every cell of the grid
    [neighbours] returns the number of the eight offsets whose cell, taken
    modulo the width and the height, is alive.  A cell is counted from
    every side: for any cell [(x, y)] of the grid and any of the eight
    offsets, negative ones included, making the cell the offset wraps onto
    alive (and changing nothing else) raises the count at [(x, y)] by at
    least one, and by exactly one from three columns and rows up.  In
    particular, from two columns and rows up, a live cell at [(0, 0)]
    raises the count at each of the three opposite corners. *)
Theorem neighbours_toroidal g :
  wf g →
  (∀ x y, 0 ≤ x < xLength g → 0 ≤ y < yLength g →
     neighbours x y g
     = (Ok (Z.of_nat (length (filter
              (λ d, is_alive g ((x + d.1) `mod` xLength g) ((y + d.2) `mod` yLength g) = true)
              offsets))), g)) ∧
  (∀ g' x y d,
     wf g' → 0 ≤ x < xLength g → 0 ≤ y < yLength g → d ∈ offsets →
     same_but_centre g g' ((x + d.1) `mod` xLength g) ((y + d.2) `mod` yLength g) →
     is_alive g ((x + d.1) `mod` xLength g) ((y + d.2) `mod` yLength g) = false →
     is_alive g' ((x + d.1) `mod` xLength g) ((y + d.2) `mod` yLength g) = true →
     ∃ n k, neighbours x y g = (Ok n, g) ∧ neighbours x y g' = (Ok (n + k), g') ∧
            1 ≤ k ∧ (3 ≤ xLength g → 3 ≤ yLength g → k = 1)) ∧
  (2 ≤ xLength g → 2 ≤ yLength g →
   ∀ g', wf g' → same_but_centre g g' 0 0 →
     is_alive g 0 0 = false → is_alive g' 0 0 = true →
     ∀ c, c ∈ [(xLength g - 1, yLength g - 1); (xLength g - 1, 0); (0, yLength g - 1)] →
       ∃ n k, neighbours c.1 c.2 g = (Ok n, g) ∧
              neighbours c.1 c.2 g' = (Ok (n + k), g') ∧ 1 ≤ k).
Proof.
  intros Hw.
  assert (Hraise : ∀ g' x y d,
     wf g' → 0 ≤ x < xLength g → 0 ≤ y < yLength g → d ∈ offsets →
     same_but_centre g g' ((x + d.1) `mod` xLength g) ((y + d.2) `mod` yLength g) →
     is_alive g ((x + d.1) `mod` xLength g) ((y + d.2) `mod` yLength g) = false →
     is_alive g' ((x + d.1) `mod` xLength g) ((y + d.2) `mod` yLength g) = true →
     ∃ n k, neighbours x y g = (Ok n, g) ∧ neighbours x y g' = (Ok (n + k), g') ∧
            1 ≤ k ∧ (3 ≤ xLength g → 3 ≤ yLength g → k = 1)).
  { intros g' x y d Hw' Hx Hy Hd Hs Hdead Halive.
    pose proof Hs as (Hx' & Hy' & _).
    exists (live_neighbours g x y),
      (Z.of_nat (length (reaching g x y ((x + d.1) `mod` xLength g)
                                        ((y + d.2) `mod` yLength g)))).
    split; [by apply neighbours_in_range|]. split; [|split].
    - rewrite neighbours_in_range by (done || lia).
      by rewrite (live_neighbours_raise g g' x y _ _ Hx Hy Hs Hdead Halive).
    - pose proof (reaching_pos g x y d Hd). lia.
    - intros H3 H3'. by rewrite reaching_one. }
  split; [|split; [exact Hraise|]].
  - intros x y Hx Hy. by apply neighbours_in_range.
  - intros Hx2 Hy2 g' Hw' Hs Hdead Halive c Hc.
    assert (Hl : ∀ w, 2 ≤ w → (w - 1 + 1) `mod` w = 0).
    { intros w Hw2. replace (w - 1 + 1) with w by lia. apply Z_mod_same_full. }
    assert (Hz : ∀ w, 2 ≤ w → (0 + 0) `mod` w = 0).
    { intros w Hw2. apply Z.mod_small. lia. }
    rewrite !elem_of_cons in Hc. destruct Hc as [->|[->|[->|Hc]]];
      [| | |by apply elem_of_nil in Hc]; cbn [fst snd].
    + destruct (Hraise g' (xLength g - 1) (yLength g - 1) (1, 1) Hw')
        as (n & k & H1 & H2 & H3 & _); try lia; cbn [fst snd];
        rewrite ?Hl by done; try done; [by apply (bool_decide_unpack _)|]. by exists n, k.
    + destruct (Hraise g' (xLength g - 1) 0 (1, 0) Hw')
        as (n & k & H1 & H2 & H3 & _); try lia; cbn [fst snd];
        rewrite ?Hl, ?Hz by done; try done; [by apply (bool_decide_unpack _)|]. by exists n, k.
    + destruct (Hraise g' 0 (yLength g - 1) (0, 1) Hw')
        as (n & k & H1 & H2 & H3 & _); try lia; cbn [fst snd];
        rewrite ?Hl, ?Hz by done; try done; [by apply (bool_decide_unpack _)|]. by exists n, k.
Qed.

Lemma neighbours_toroidal_witness :
  (∀ x y, 0 ≤ x < xLength bare → 0 ≤ y < yLength bare →
     neighbours x y bare
     = (Ok (Z.of_nat (length (filter
              (λ d, is_alive bare ((x + d.1) `mod` xLength bare)
                                    ((y + d.2) `mod` yLength bare) = true)
              offsets))), bare)) ∧
  (∀ g' x y d,
     wf g' → 0 ≤ x < xLength bare → 0 ≤ y < yLength bare → d ∈ offsets →
     same_but_centre bare g' ((x + d.1) `mod` xLength bare)
                               ((y + d.2) `mod` yLength bare) →
     is_alive bare ((x + d.1) `mod` xLength bare) ((y + d.2) `mod` yLength bare) = false →
     is_alive g' ((x + d.1) `mod` xLength bare) ((y + d.2) `mod` yLength bare) = true →
     ∃ n k, neighbours x y bare = (Ok n, bare) ∧ neighbours x y g' = (Ok (n + k), g') ∧
            1 ≤ k ∧ (3 ≤ xLength bare → 3 ≤ yLength bare → k = 1)) ∧
  (2 ≤ xLength bare → 2 ≤ yLength bare →
   ∀ g', wf g' → same_but_centre bare g' 0 0 →
     is_alive bare 0 0 = false → is_alive g' 0 0 = true →
     ∀ c, c ∈ [(xLength bare - 1, yLength bare - 1); (xLength bare - 1, 0);
               (0, yLength bare - 1)] →
       ∃ n k, neighbours c.1 c.2 bare = (Ok n, bare) ∧
              neighbours c.1 c.2 g' = (Ok (n + k), g') ∧ 1 ≤ k).
Proof.
  apply (neighbours_toroidal bare).
  apply (bool_decide_unpack _). vm_compute. exact I.
Defined.


(** Instances with the same live cells. *)
Lemma same_liveness_spec g1 g2 :
  same_liveness g1 g2 ↔
  xLength g2 = xLength g1 ∧ yLength g2 = yLength g1 ∧
  ∀ x y, 0 ≤ x < xLength g1 → 0 ≤ y < yLength g1 →
    is_alive g2 x y = is_alive g1 x y.
Proof.
  unfold same_liveness. rewrite Forall_forall.
  split; intros (Hx & Hy & H); (split; [done|]); (split; [done|]).
  - intros x y Hx' Hy'. specialize (H x). rewrite Forall_forall in H.
    apply H; apply elem_of_seqZ; lia.
  - intros x Hx'%elem_of_seqZ. apply Forall_forall. intros y Hy'%elem_of_seqZ.
    apply H; lia.
Qed.

(** The count only looks at the liveness of cells of the grid. *)
Lemma live_neighbours_same g1 g2 x y :
  same_liveness g1 g2 → 0 ≤ x < xLength g1 → 0 ≤ y < yLength g1 →
  live_neighbours g2 x y = live_neighbours g1 x y.
Proof.
  intros (Hx2 & Hy2 & Hs)%same_liveness_spec Hx Hy.
  unfold live_neighbours. rewrite Hx2, Hy2. do 2 f_equal.
  apply list_filter_iff. intros d. rewrite Hs; [done| |]; by apply wrap_in_range.
Qed.

(** C7, as stated, fails: [neighbours] throws for a column index off the
    grid, both past the last column and far enough below zero.  The last
    read uses the raw [x], and [%] keeps the sign of a negative dividend. *)
Lemma neighbours_off_grid_throws :
  wf corner ∧ xLength corner = 3 ∧ yLength corner = 3 ∧
  (neighbours 3 0 corner).1 = Throw TypeError ∧
  (neighbours (-5) 0 corner).1 = Throw TypeError ∧
  js_rem (-5 + 0 + 3) 3 = Some (-2).
Proof.
  split; [apply (bool_decide_unpack _); vm_compute; exact I|].
  by vm_compute.
Qed.

(** C7, amended.  [neighbours (x, y)] returns normally exactly when [x] is a
    column of the grid: for such an [x] and any integer [y] it returns a
    count and changes nothing, for any other [x] it throws a [TypeError].
    For a cell of the grid the count is that of the eight wrapped
    neighbours and depends on the cells of the grid only: an instance with
    the same live cells gives the same count, whatever else its rows and
    its array hold; and every index the scan computes is wrapped into the
    grid. *)
Theorem neighbours_total_on_columns g x y :
  wf g →
  (0 ≤ x < xLength g → ∃ n, neighbours x y g = (Ok n, g)) ∧
  (¬ (0 ≤ x < xLength g) → neighbours x y g = (Throw TypeError, g)) ∧
  (0 ≤ x < xLength g → 0 ≤ y < yLength g →
   neighbours x y g = (Ok (live_neighbours g x y), g) ∧
   (∀ g', wf g' → same_liveness g g' →
      neighbours x y g' = (Ok (live_neighbours g x y), g')) ∧
   ∀ i j, -1 ≤ i ≤ 1 → -1 ≤ j ≤ 1 →
     ∃ t s, js_rem (x + i + xLength g) (xLength g) = Some t ∧
            js_rem (y + j + yLength g) (yLength g) = Some s ∧
            0 ≤ t < xLength g ∧ 0 ≤ s < yLength g).
Proof.
  intros Hw. split; [|split].
  - intros Hx. eexists. by apply neighbours_ok.
  - intros Hx. by apply neighbours_throw.
  - intros Hx Hy. split; [by apply neighbours_in_range|]. split.
    + intros g' Hw' Hs. pose proof Hs as (Hx' & Hy' & _).
      rewrite neighbours_in_range by (done || lia).
      by rewrite (live_neighbours_same g g').
    + intros i j Hi Hj.
      exists ((x + i) `mod` xLength g), ((y + j) `mod` yLength g).
      rewrite !js_rem_wrap by done. repeat split; by apply wrap_in_range.
Qed.

Lemma neighbours_total_on_columns_witness :
  (0 ≤ 2 < xLength blinker → ∃ n, neighbours 2 1 blinker = (Ok n, blinker)) ∧
  (¬ (0 ≤ 2 < xLength blinker) → neighbours 2 1 blinker = (Throw TypeError, blinker)) ∧
  (0 ≤ 2 < xLength blinker → 0 ≤ 1 < yLength blinker →
   neighbours 2 1 blinker = (Ok (live_neighbours blinker 2 1), blinker) ∧
   (∀ g', wf g' → same_liveness blinker g' →
      neighbours 2 1 g' = (Ok (live_neighbours blinker 2 1), g')) ∧
   ∀ i j, -1 ≤ i ≤ 1 → -1 ≤ j ≤ 1 →
     ∃ t s, js_rem (2 + i + xLength blinker) (xLength blinker) = Some t ∧
            js_rem (1 + j + yLength blinker) (yLength blinker) = Some s ∧
            0 ≤ t < xLength blinker ∧ 0 ≤ s < yLength blinker).
Proof.
  apply (neighbours_total_on_columns blinker 2 1).
  apply (bool_decide_unpack _). vm_compute. exact I.
Defined.

(** ** The drawing calls (C4) *)

Lemma elem_of_redraws g e :
  e ∈ redraws g ↔
  ∃ x y, 0 ≤ x < xLength g ∧ 0 ≤ y < yLength g ∧
         e ∈ redraw (cell g x y) (next_cell g x y) x y.
Proof.
  unfold redraws, redraw_column. rewrite list_elem_of_bind. split.
  - intros (x & (y & He & Hy%elem_of_seqZ)%list_elem_of_bind & Hx%elem_of_seqZ).
    exists x, y. repeat split; (done || lia).
  - intros (x & y & Hx & Hy & He). exists x. split; [|apply elem_of_seqZ; lia].
    apply list_elem_of_bind. exists y. split; [done|apply elem_of_seqZ; lia].
Qed.

Lemma NoDup_redraw old new x y : NoDup (redraw old new x y).
Proof.
  unfold redraw. destruct (strict_eq old new); [apply NoDup_nil_2|].
  destruct (truthy new); apply NoDup_singleton.
Qed.

Lemma redraw_at old new x y e :
  e ∈ redraw old new x y → e = Populate x y ∨ e = Kill x y.
Proof.
  unfold redraw. destruct (strict_eq old new); [by intros ?%elem_of_nil|].
  destruct (truthy new); intros ->%list_elem_of_singleton; auto.
Qed.

Lemma NoDup_redraws g : NoDup (redraws g).
Proof.
  unfold redraws, redraw_column.
  apply NoDup_bind; [| |apply NoDup_seqZ].
  - intros x1 x2 e _ _ (y1 & H1 & _)%list_elem_of_bind (y2 & H2 & _)%list_elem_of_bind.
    apply redraw_at in H1, H2. destruct H1, H2; congruence.
  - intros x _. apply NoDup_bind; [| |apply NoDup_seqZ].
    + intros y1 y2 e _ _ H1 H2.
      apply redraw_at in H1, H2. destruct H1, H2; congruence.
    + intros y _. apply NoDup_redraw.
Qed.

(** A slot of the copy differs from the current cell exactly when the cell's
    liveness changes. *)
Lemma changed_iff old n :
  is_object old = false →
  strict_eq old (live_value old n) = false ↔ truthy old ≠ truthy (live_value old n).
Proof.
  intros Hf. unfold strict_eq. rewrite bool_decide_eq_false. split.
  - intros Hne Ht. apply Hne. unfold live_value in *.
    destruct (truthy old && ((n <? 2) || (3 <? n))) eqn:E1.
    + apply andb_true_iff in E1 as [E1 _]. by rewrite E1 in Ht.
    + destruct (n =? 3); [|done].
      destruct old as [|[|]|]; simpl in *; done.
  - intros Hne E. apply Hne. by rewrite <-E.
Qed.

Lemma redraw_populate g x y x' y' :
  wf g →
  Populate x' y' ∈ redraw (cell g x y) (next_cell g x y) x y ↔
  x' = x ∧ y' = y ∧ is_alive g x y = false ∧ truthy (next_cell g x y) = true.
Proof.
  intros Hw. pose proof (changed_iff (cell g x y) (live_neighbours g x y)
                           (cell_flat g x y Hw)) as Hch.
  fold (next_cell g x y) in Hch. unfold redraw, is_alive.
  destruct (strict_eq (cell g x y) (next_cell g x y)) eqn:E.
  - rewrite elem_of_nil. split; [done|]. intros (_ & _ & H1 & H2).
    assert (true = false) as Hc; [|done].
    apply Hch. by rewrite H1, H2.
  - pose proof (proj1 Hch eq_refl) as Hne.
    destruct (truthy (next_cell g x y)) eqn:E2; rewrite list_elem_of_singleton.
    + split; [intros [= -> ->]|intros (-> & -> & _)]; [|done].
      repeat split. by destruct (truthy (cell g x y)).
    + split; [done|]. by intros (_ & _ & _ & ?).
Qed.

Lemma redraw_kill g x y x' y' :
  wf g →
  Kill x' y' ∈ redraw (cell g x y) (next_cell g x y) x y ↔
  x' = x ∧ y' = y ∧ is_alive g x y = true ∧ truthy (next_cell g x y) = false.
Proof.
  intros Hw. pose proof (changed_iff (cell g x y) (live_neighbours g x y)
                           (cell_flat g x y Hw)) as Hch.
  fold (next_cell g x y) in Hch. unfold redraw, is_alive.
  destruct (strict_eq (cell g x y) (next_cell g x y)) eqn:E.
  - rewrite elem_of_nil. split; [done|]. intros (_ & _ & H1 & H2).
    assert (true = false) as Hc; [|done].
    apply Hch. by rewrite H1, H2.
  - pose proof (proj1 Hch eq_refl) as Hne.
    destruct (truthy (next_cell g x y)) eqn:E2; rewrite list_elem_of_singleton.
    + split; [done|]. by intros (_ & _ & _ & ?).
    + split; [intros [= -> ->]|intros (-> & -> & _)]; [|done].
      repeat split. by destruct (truthy (cell g x y)).
Qed.

(** C4.  The drawing calls of one [advance] are exactly the changes of the
    generation: [populate] is called for the cells of the grid that were
    dead and are alive afterwards, [kill] for those that were alive and are
    dead afterwards, each once, and for no other cell. *)
Theorem advance_redraws_changes g :
  wf g →
  ∃ g' calls,
    advance g = (Ok tt, g') ∧
    canvas g' = canvas g ++ calls ∧
    NoDup calls ∧
    ∀ x y,
      (Populate x y ∈ calls ↔
         0 ≤ x < xLength g ∧ 0 ≤ y < yLength g ∧
         is_alive g x y = false ∧ is_alive g' x y = true) ∧
      (Kill x y ∈ calls ↔
         0 ≤ x < xLength g ∧ 0 ≤ y < yLength g ∧
         is_alive g x y = true ∧ is_alive g' x y = false).
Proof.
  intros Hw.
  destruct (advance_next g Hw) as (g' & Hadv & _ & _ & _ & Hc & Hcanvas & _).
  exists g', (redraws g). split; [done|]. split; [done|]. split; [apply NoDup_redraws|].
  intros x y. rewrite !elem_of_redraws. split; split.
  - intros (x0 & y0 & Hx & Hy & He). apply redraw_populate in He as (-> & -> & H1 & H2); [|done].
    unfold is_alive at 2. by rewrite Hc.
  - intros (Hx & Hy & H1 & H2). exists x, y. split; [done|]. split; [done|].
    apply redraw_populate; [done|]. unfold is_alive in H2. by rewrite Hc in H2.
  - intros (x0 & y0 & Hx & Hy & He). apply redraw_kill in He as (-> & -> & H1 & H2); [|done].
    unfold is_alive at 2. by rewrite Hc.
  - intros (Hx & Hy & H1 & H2). exists x, y. split; [done|]. split; [done|].
    apply redraw_kill; [done|]. unfold is_alive in H2. by rewrite Hc in H2.
Qed.

Lemma advance_redraws_changes_witness :
  ∃ g' calls,
    advance blinker = (Ok tt, g') ∧
    canvas g' = canvas blinker ++ calls ∧
    NoDup calls ∧
    ∀ x y,
      (Populate x y ∈ calls ↔
         0 ≤ x < xLength blinker ∧ 0 ≤ y < yLength blinker ∧
         is_alive blinker x y = false ∧ is_alive g' x y = true) ∧
      (Kill x y ∈ calls ↔
         0 ≤ x < xLength blinker ∧ 0 ≤ y < yLength blinker ∧
         is_alive blinker x y = true ∧ is_alive g' x y = false).
Proof.
  apply (advance_redraws_changes blinker).
  apply (bool_decide_unpack _). vm_compute. exact I.
Defined.

(** ** Determinism (C5) *)

(** C5.  [advance] is a function of the grid alone.  From two instances with
    the same live cells (whatever their objects in the store, their [future]
    buffers and their drawing logs) it returns with the same live cells,
    and with the same cell values if the cell values were the same; every
    new cell is the rule applied to the generation before the call, and no
    object of that generation is written. *)
Theorem advance_deterministic g1 g2 :
  wf g1 → wf g2 → same_liveness g1 g2 →
  ∃ g1' g2',
    advance g1 = (Ok tt, g1') ∧ advance g2 = (Ok tt, g2') ∧
    same_liveness g1' g2' ∧
    ((∀ x y, 0 ≤ x < xLength g1 → 0 ≤ y < yLength g1 → cell g2 x y = cell g1 x y) →
     ∀ x y, 0 ≤ x < xLength g1 → 0 ≤ y < yLength g1 → cell g2' x y = cell g1' x y) ∧
    (∀ x y, 0 ≤ x < xLength g1 → 0 ≤ y < yLength g1 →
       cell g1' x y = live_value (cell g1 x y) (live_neighbours g1 x y)) ∧
    (∀ l, l ∈ dom (heap g1) → heap g1' !! l = heap g1 !! l).
Proof.
  intros Hw1 Hw2 Hs. pose proof (proj1 (same_liveness_spec _ _) Hs) as (Hx & Hy & Ha).
  destruct (advance_next g1 Hw1) as (g1' & Hadv1 & _ & Hx1 & Hy1 & Hc1 & _ & Hfr1 & _).
  destruct (advance_next g2 Hw2) as (g2' & Hadv2 & _ & Hx2 & Hy2 & Hc2 & _).
  exists g1', g2'. split; [done|]. split; [done|]. split; [|split; [|split]].
  - apply same_liveness_spec. rewrite Hx1, Hx2, Hy1, Hy2. repeat split; try done.
    intros x y Hx' Hy'.
    rewrite (is_alive_next g2 g2' x y) by (apply Hc2; lia).
    rewrite (is_alive_next g1 g1' x y) by (apply Hc1; lia).
    by rewrite Ha, (live_neighbours_same g1 g2).
  - intros Hc x y Hx' Hy'. rewrite Hc2, Hc1 by lia. unfold next_cell.
    by rewrite Hc, (live_neighbours_same g1 g2).
  - intros x y Hx' Hy'. by apply Hc1.
  - done.
Qed.

Lemma advance_deterministic_witness :
  ∃ g1' g2',
    advance blinker = (Ok tt, g1') ∧ advance blinker_again = (Ok tt, g2') ∧
    same_liveness g1' g2' ∧
    ((∀ x y, 0 ≤ x < xLength blinker → 0 ≤ y < yLength blinker →
        cell blinker_again x y = cell blinker x y) →
     ∀ x y, 0 ≤ x < xLength blinker → 0 ≤ y < yLength blinker →
        cell g2' x y = cell g1' x y) ∧
    (∀ x y, 0 ≤ x < xLength blinker → 0 ≤ y < yLength blinker →
       cell g1' x y = live_value (cell blinker x y) (live_neighbours blinker x y)) ∧
    (∀ l, l ∈ dom (heap blinker) → heap g1' !! l = heap blinker !! l).
Proof.
  apply (advance_deterministic blinker blinker_again).
  - apply (bool_decide_unpack _). vm_compute. exact I.
  - apply (bool_decide_unpack _). vm_compute. exact I.
  - apply (bool_decide_unpack _). vm_compute. exact I.
Defined.

(** ** Writing the population: [killAll] (C6) and [randomize] (C10) *)

(** [this.population[i][j] = v] for a column [i] of the grid and a boolean
    or undefined [v]. *)
Lemma write_population_ok g i j v :
  wf g → 0 ≤ i < xLength g → is_object v = false →
  ∃ h', write_population (Some i) j v g = (Ok tt, set_heap h' g) ∧
        wf (set_heap h' g) ∧
        ∀ x y, cell_at h' (population g) x y
               = if decide (x = Some i ∧ y = j) then v
                 else cell_at (heap g) (population g) x y.
Proof.
  intros [Hg Hst] Hi Hv.
  destruct (write_cell_ok g (population g) (xLength g) i j v Hg Hi)
    as (r & ro & Hr & Hro & Heq).
  exists (<[r := <[j := v]> ro]> (heap g)). split; [|split].
  - unfold write_population. by rewrite bind_gets.
  - split; [|done]. simpl. by eapply grid_write.
  - intros x y. by eapply cell_at_write.
Qed.

Lemma keys_of_empty : keys_of ∅ = [].
Proof. unfold keys_of. by rewrite map_to_list_empty. Qed.

(** The loops of [killAll]: every cell of the grid ends up [false]. *)
Lemma killAll_loops g :
  wf g →
  ∃ h2 c,
    for_each (xLength g) (λ i,
      yl ← gets yLength;
      for_each yl (λ j,
        write_population (Some i) (Some j) (VBool false);; kill i j)) g
    = (Ok tt, set_canvas c (set_heap h2 g)) ∧
    wf (set_canvas c (set_heap h2 g)) ∧
    ∀ x y, 0 ≤ x < xLength g → 0 ≤ y < yLength g →
      cell_at h2 (population g) (Some x) (Some y) = VBool false.
Proof.
  intros Hw.
  destruct (sweep
    (λ d g2, ∃ h2 c, g2 = set_canvas c (set_heap h2 g) ∧ wf g2 ∧
       ∀ x y, 0 ≤ x < xLength g → 0 ≤ y < yLength g →
         d x y = true → cell_at h2 (population g) (Some x) (Some y) = VBool false)
    (xLength g) (yLength g)
    (λ i j, write_population (Some i) (Some j) (VBool false);; kill i j) g)
    as (g2 & Hr & h2 & c & -> & Hw2 & Hc).
  - intros d d' g2 He (h2 & c & -> & Hw2 & Hc). exists h2, c.
    split; [done|]. split; [done|].
    intros x y Hx Hy Hd. apply Hc; try done. by rewrite He.
  - by intros d g2 (h2 & c & -> & _).
  - intros d i j g2 Hi Hj Hd (h2 & c & -> & Hw2 & Hc).
    destruct (write_population_ok _ i (Some j) (VBool false) Hw2 Hi eq_refl)
      as (h3 & Heq & Hw3 & Hc3).
    run Heq. eexists. split; [reflexivity|].
    exists h3, (c ++ [Kill i j]). split; [done|]. split; [exact Hw3|].
    intros x y Hx Hy Hd'. simpl in Hc3. rewrite Hc3.
    destruct (decide (Some x = Some i ∧ Some y = Some j)) as [|Hne]; [done|].
    apply Hc; try done. destruct (d x y); [done|]. simpl in Hd'.
    apply andb_true_iff in Hd' as [->%Z.eqb_eq ->%Z.eqb_eq]. by destruct Hne.
  - exists (heap g), (canvas g). split; [by destruct g|]. split; [by destruct g|done].
  - exists h2, c. split; [done|]. split; [done|].
    intros x y Hx Hy. by apply Hc.
Qed.

(** [extend] with the primitive [true] as its target: the first property
    it tries to copy throws. *)
Lemma extend_true_throws (g : game) (la lp : positive) (o : object) (k : option Z) :
  heap g !! la = Some ∅ → heap g !! lp = Some o → is_Some (o !! k) →
  extend (VBool true) [VRef la; VRef lp] g = (Throw TypeError, g).
Proof.
  intros Hla Hlp Hk. unfold extend, or_new_object. cbn [truthy].
  rewrite bind_ret. cbn [for_list truthy].
  assert (own_keys (VRef la) g = (Ok [], g)) as Hka.
  { unfold own_keys. rewrite bind_gets. unfold deref. rewrite Hla. simpl.
    by rewrite keys_of_empty. }
  assert (own_keys (VRef lp) g = (Ok (keys_of o), g)) as Hkp.
  { unfold own_keys. rewrite bind_gets. unfold deref. by rewrite Hlp. }
  run Hka. cbn [for_list]. rewrite bind_ret. run Hkp.
  destruct (keys_of o) as [|k0 ks] eqn:Hks.
  { apply keys_of_elem in Hk. rewrite Hks in Hk. by apply elem_of_nil in Hk. }
  cbn [for_list].
  assert (∃ v, get_prop (VRef lp) k0 g = (Ok v, g)) as [v Hget].
  { eexists. unfold get_prop. by rewrite bind_gets. }
  run Hget. reflexivity.
Qed.

(** [killAll] on a grid with a column: the loops run, then [extend]
    throws. *)
Lemma killAll_spec g :
  wf g → 1 ≤ xLength g →
  ∃ g', killAll g = (Throw TypeError, g') ∧ wf g' ∧
        alive g' = false ∧ future g' = future g ∧
        ∀ x y, 0 ≤ x < xLength g → 0 ≤ y < yLength g → cell g' x y = VBool false.
Proof.
  intros Hw Hx. unfold killAll. rewrite bind_gets.
  set (g0 := set_alive false g).
  assert ((if alive g then toggle else mret tt) g = (Ok tt, g0)) as Htog.
  { unfold g0. destruct g as [? ? ? ? [|] ? ? ? ? ?]; reflexivity. }
  run Htog. rewrite bind_gets.
  assert (wf g0) as Hw0 by exact Hw.
  destruct (killAll_loops g0 Hw0) as (h2 & c & Heq & Hw2 & Hc).
  change (xLength g0) with (xLength g) in *. run Heq.
  erewrite bind_ok; [|reflexivity]. rewrite bind_gets.
  set (la := fresh (dom h2)).
  set (g3 := set_heap (<[la := ∅]> h2) (set_canvas c (set_heap h2 g0))).
  change (heap (set_canvas c (set_heap h2 g0))) with h2. fold la g3.
  destruct Hw2 as [Hg2 Hst2]. simpl in Hg2.
  destruct (grid_inv _ _ _ Hg2) as (lp & po & Hpop & Hlp & Hdom & _).
  assert (la ∉ dom h2) as Hla by apply is_fresh.
  assert (la ≠ lp) as Hne.
  { intros E. apply Hla. rewrite E. by eapply elem_of_dom_2. }
  change (population g3) with (population g). rewrite Hpop.
  assert (extend (VBool true) [VRef la; VRef lp] g3 = (Throw TypeError, g3)) as Hext.
  { apply (extend_true_throws g3 la lp po (Some 0)).
    - unfold g3. simpl. by rewrite lookup_insert_eq.
    - unfold g3. simpl. by rewrite lookup_insert_ne.
    - apply Hdom. exists 0. split; [done|lia]. }
  rewrite ?bind_assoc, (bind_throw _ _ _ _ _ Hext).
  assert (∀ l, l ∈ dom h2 → <[la := ∅]> h2 !! l = h2 !! l) as Hfr.
  { intros l Hl. rewrite lookup_insert_ne; [done|]. by intros <-. }
  exists g3. split; [done|]. split; [|split; [done|split; [done|]]].
  - split; [|exact Hst2]. unfold g3. simpl. by eapply grid_frame.
  - intros x y Hx' Hy'. unfold cell, g3. simpl.
    rewrite (cell_at_frame h2 _ _ (xLength g)); [by apply Hc|done|done].
Qed.

(** [killAll] on a grid without a column: nothing to copy, so [extend]
    returns its first argument and [future] becomes [true]. *)
Lemma killAll_empty g :
  wf g → xLength g ≤ 0 →
  ∃ g', killAll g = (Ok tt, g') ∧ wf g' ∧ future g' = VBool true.
Proof.
  intros Hw Hx. unfold killAll. rewrite bind_gets.
  set (g0 := set_alive false g).
  assert ((if alive g then toggle else mret tt) g = (Ok tt, g0)) as Htog.
  { unfold g0. destruct g as [? ? ? ? [|] ? ? ? ? ?]; reflexivity. }
  run Htog. rewrite bind_gets. change (xLength g0) with (xLength g).
  rewrite ?bind_assoc. erewrite bind_ok; [|by apply for_each_none].
  erewrite bind_ok; [|reflexivity]. rewrite bind_gets.
  set (la := fresh (dom (heap g0))).
  set (g3 := set_heap (<[la := ∅]> (heap g0)) g0).
  destruct Hw as [Hg Hst].
  destruct (grid_inv _ _ _ Hg) as (lp & po & Hpop & Hlp & Hdom & _).
  assert (la ∉ dom (heap g)) as Hla by apply is_fresh.
  assert (la ≠ lp) as Hne.
  { intros E. apply Hla. rewrite E. by eapply elem_of_dom_2. }
  change (population g3) with (population g). rewrite Hpop.
  assert (extend (VBool true) [VRef la; VRef lp] g3 = (Ok (VBool true), g3)) as Hext.
  { unfold extend, or_new_object. cbn [truthy]. rewrite bind_ret. cbn [for_list truthy].
    assert (own_keys (VRef la) g3 = (Ok [], g3)) as Hka.
    { unfold own_keys. rewrite bind_gets. unfold deref, g3. simpl.
      rewrite lookup_insert_eq. simpl. by rewrite keys_of_empty. }
    assert (own_keys (VRef lp) g3 = (Ok [], g3)) as Hkp.
    { unfold own_keys. rewrite bind_gets. unfold deref, g3. simpl.
      rewrite lookup_insert_ne by done. rewrite Hlp. simpl.
      destruct (keys_of po) as [|k ks] eqn:Hks; [done|].
      assert (k ∈ keys_of po) as Hk by (rewrite Hks; by left).
      apply keys_of_elem, Hdom in Hk as (i & _ & Hi). lia. }
    run Hka. cbn [for_list]. rewrite bind_ret. run Hkp. cbn [for_list].
    by rewrite !bind_ret. }
  run Hext. rewrite bind_modify.
  assert (grid (<[la := ∅]> (heap g)) (population g) (xLength g)) as Hg3.
  { eapply grid_frame; [done|]. intros l Hl. rewrite lookup_insert_ne; [done|].
    by intros <-. }
  destruct (alive g); eexists; (split; [reflexivity|]); by split.
Qed.

(** C6.  On every grid with at least one column [killAll] does not complete:
    after its loops have set every cell to [false] and erased it, the call
    [this.extend(true, [], this.population)] tries to copy the first column
    onto the primitive [true] and throws a [TypeError].  The cells stay
    dead, [future] is not rebuilt, and a simulation that was running stays
    stopped, since the closing [toggle] is never reached. *)
Theorem killAll_throws g :
  wf g → 1 ≤ xLength g →
  ∃ g', killAll g = (Throw TypeError, g') ∧
        alive g' = false ∧ future g' = future g ∧
        ∀ x y, 0 ≤ x < xLength g → 0 ≤ y < yLength g → cell g' x y = VBool false.
Proof.
  intros Hw Hx. destruct (killAll_spec g Hw Hx) as (g' & Heq & _ & H).
  by exists g'.
Qed.



Lemma killAll_throws_witness :
  ∃ g', killAll blinker = (Throw TypeError, g') ∧
        alive g' = false ∧ future g' = future blinker ∧
        ∀ x y, 0 ≤ x < xLength blinker → 0 ≤ y < yLength blinker →
               cell g' x y = VBool false.
Proof.
  apply (killAll_throws blinker).
  - apply (bool_decide_unpack _). vm_compute. exact I.
  - vm_compute. discriminate.
Defined.

(** The failing call on the smallest grid: a new 1 by 1 instance. *)
Lemma killAll_1x1_throws : (killAll lone_dead).1 = Throw TypeError.
Proof. by vm_compute. Qed.

(** [advance], which copies with [deepExtend], completes on the same grid. *)
Lemma advance_completes_1x1 : (advance lone_dead).1 = Ok tt.
Proof. by vm_compute. Qed.

(** [randomize] returns, and a cell keeps its value or holds [true]. *)
Lemma randomize_spec g :
  wf g →
  ∃ g', randomize g = (Ok tt, g') ∧ wf g' ∧
        xLength g' = xLength g ∧ yLength g' = yLength g ∧
        ∀ x y, cell g' x y = cell g x y ∨ cell g' x y = VBool true.
Proof.
  intros Hw. unfold randomize. rewrite bind_gets.
  destruct (sweep
    (λ _ g2, wf g2 ∧ xLength g2 = xLength g ∧ yLength g2 = yLength g ∧
       ∀ x y, cell g2 x y = cell g x y ∨ cell g2 x y = VBool true)
    (xLength g) (yLength g) randomize_cell g)
    as (g' & Hr & Hw' & Hx' & Hy' & Hc).
  - by intros d d' g2 _ H.
  - by intros d g2 (_ & _ & H & _).
  - intros d i j g2 Hi Hj _ (Hw2 & Hx2 & Hy2 & Hc2).
    unfold randomize_cell. erewrite bind_ok; [|reflexivity].
    destruct (bool_decide (coin (entropy g2 (draws g2)) ≠ 0)).
    + unfold populate. rewrite !bind_assoc. erewrite bind_ok; [|reflexivity].
      rewrite bind_modify.
      match goal with |- ∃ g', write_population _ _ _ ?gg = _ ∧ _ =>
        set (g4 := gg) end.
      assert (wf g4) as Hw4 by exact Hw2.
      destruct (write_population_ok g4 i (Some j) (VBool true) Hw4) as (h5 & Heq & Hw5 & Hc5);
        [change (xLength g4) with (xLength g2); by rewrite Hx2|done|].
      eexists. split; [exact Heq|]. split; [exact Hw5|]. split; [done|]. split; [done|].
      intros x y. unfold cell. change (population (set_heap h5 g4)) with (population g4).
      change (heap (set_heap h5 g4)) with h5. rewrite Hc5.
      destruct (decide (Some x = Some i ∧ Some y = Some j)); [by right|]. apply Hc2.
    + eexists. split; [reflexivity|]. split; [exact Hw2|]. split; [exact Hx2|].
      split; [exact Hy2|]. exact Hc2.
  - split; [done|]. split; [done|]. split; [done|]. intros x y. by left.
  - by exists g'.
Qed.





(** ** Construction (C8) *)

(** The loop of [init]: [population] becomes a grid whose rows are new,
    empty arrays. *)
Lemma init_loop g la w :
  population g = VRef la → heap g !! la = Some ∅ → 0 ≤ w →
  ∃ h',
    for_each w (λ i, row ← alloc ∅; pop ← gets population;
                     set_prop pop (Some i) row) g
    = (Ok tt, set_heap h' g) ∧
    grid h' (VRef la) w ∧
    ∀ k r, row_loc h' (VRef la) k = Some r → h' !! r = Some ∅.
Proof.
  intros Hpop Hla Hw.
  destruct (for_each_inv
    (λ i g2, ∃ h2 : store, g2 = set_heap h2 g ∧ grid h2 (VRef la) i ∧
       ∀ k r, row_loc h2 (VRef la) k = Some r → h2 !! r = Some ∅)
    w (λ i, row ← alloc ∅; pop ← gets population; set_prop pop (Some i) row) g)
    as (g' & Hr & h' & -> & Hg & Hrows); [done| | |by exists h'].
  - exists (heap g). split; [by destruct g|]. split.
    + apply (grid_intro _ la ∅ 0); try done.
      intros k. rewrite lookup_empty. split; [by intros [? ?]|].
      intros (i & _ & Hi). lia.
    + intros k r. unfold row_loc, deref. rewrite Hla. simpl.
      by rewrite lookup_empty.
  - intros i g2 Hi (h2 & -> & Hg & Hrows).
    destruct (grid_inv _ _ _ Hg) as (l & o & [= <-] & Hl & Hdom & Hrws & Hinj).
    set (l' := fresh (dom h2)).
    assert (l' ∉ dom h2) as Hl' by apply is_fresh.
    assert (l' ≠ la) as Hne.
    { intros E. apply Hl'. rewrite E. by eapply elem_of_dom_2. }
    assert (o !! Some i = None) as Hoi.
    { destruct (o !! Some i) eqn:E; [|done].
      destruct (proj1 (Hdom (Some i))) as (i' & [= <-] & Hi'); [by eexists|lia]. }
    erewrite bind_ok; [|reflexivity]. rewrite bind_gets.
    change (heap (set_heap h2 g)) with h2. fold l'.
    change (population (set_heap (<[l' := ∅]> h2) (set_heap h2 g))) with (population g).
    rewrite Hpop. eexists. split; [reflexivity|].
    exists (<[la := <[Some i := VRef l']> o]> (<[l' := ∅]> h2)). split; [|split].
    + unfold set_heap, deref. simpl. rewrite lookup_insert_ne by done. by rewrite Hl.
    + apply (grid_intro _ la (<[Some i := VRef l']> o) (i + 1)).
      * by rewrite lookup_insert_eq.
      * intros k. rewrite lookup_insert_is_Some, Hdom. split.
        -- intros [<-|[_ (i' & -> & Hi')]]; [exists i|exists i']; split; (done || lia).
        -- intros (i' & -> & Hi'). destruct (decide (i' = i)) as [->|]; [by left|].
           right. split; [congruence|]. exists i'. split; [done|lia].
      * intros k v Hk. destruct (decide (k = Some i)) as [->|Hk'].
        -- rewrite lookup_insert_eq in Hk. injection Hk as <-.
           exists l', ∅. repeat split; try done.
           rewrite lookup_insert_ne by done. by rewrite lookup_insert_eq.
        -- rewrite lookup_insert_ne in Hk by done.
           destruct (Hrws _ _ Hk) as (r & ro & -> & Hrne & Hr2 & Hf).
           exists r, ro. repeat split; try done.
           rewrite !lookup_insert_ne; try done.
           intros <-. apply Hl'. by eapply elem_of_dom_2.
      * intros k1 k2 v H1 H2.
        destruct (decide (k1 = Some i)) as [->|E1], (decide (k2 = Some i)) as [->|E2];
          try done.
        -- rewrite lookup_insert_eq in H1. rewrite lookup_insert_ne in H2 by done.
           simplify_eq. destruct (Hrws _ _ H2) as (r & ro & [= <-] & _ & Hr2 & _).
           exfalso. apply Hl'. by eapply elem_of_dom_2.
        -- rewrite lookup_insert_eq in H2. rewrite lookup_insert_ne in H1 by done.
           simplify_eq. destruct (Hrws _ _ H1) as (r & ro & [= <-] & _ & Hr2 & _).
           exfalso. apply Hl'. by eapply elem_of_dom_2.
        -- rewrite lookup_insert_ne in H1, H2 by done. by eapply Hinj.
    + intros k r. unfold row_loc, deref. rewrite lookup_insert_eq. simpl.
      destruct (decide (k = Some i)) as [->|Hk'].
      * rewrite lookup_insert_eq. intros [= <-].
        rewrite lookup_insert_ne by done. by rewrite lookup_insert_eq.
      * rewrite lookup_insert_ne by done. intros Hk.
        assert (row_loc h2 (VRef la) k = Some r) as Hrl.
        { unfold row_loc, deref. by rewrite Hl. }
        pose proof (Hrows _ _ Hrl) as Hr2.
        rewrite !lookup_insert_ne; [done| |].
        -- intros <-. apply Hl'. by eapply elem_of_dom_2.
        -- intros <-. rewrite Hl in Hr2. injection Hr2 as ->.
           by rewrite lookup_empty in Hk.
Qed.

(** C8, as stated, fails: the constructor has no check on the size.  On a
    canvas of no width and height, and on one smaller than a cell, it
    returns normally with a grid of no columns. *)
Lemma constructor_accepts_empty_grid :
  (create (Some (canvas_element 0 0)) None no_entropy 2).1 = Ok tt ∧
  xLength (create (Some (canvas_element 0 0)) None no_entropy 2).2 = 0 ∧
  yLength (create (Some (canvas_element 0 0)) None no_entropy 2).2 = 0 ∧
  (create (Some (canvas_element 4 4)) None no_entropy 2).1 = Ok tt ∧
  xLength (create (Some (canvas_element 4 4)) None no_entropy 2).2 = 0.
Proof. by vm_compute. Qed.

(** The constructor on a canvas. *)
Lemma constructor_spec (w h : N) (cellSize : option positive)
    (rnd : nat → Q) (frames : nat) :
  ∃ g,
    create (Some (canvas_element w h)) cellSize rnd frames = (Ok tt, g) ∧
    xLength g = Z.of_N w / Z.pos (default default_cellSize cellSize) ∧
    yLength g = Z.of_N h / Z.pos (default default_cellSize cellSize) ∧
    stack g = frames ∧
    grid (heap g) (population g) (xLength g) ∧
    ∀ x y, cell g x y = VUndefined.
Proof.
  unfold create, GameOfLife. cbn [canvas_element nodeName].
  rewrite bool_decide_eq_false_2 by (by intros []).
  unfold init. rewrite !bind_modify.
  erewrite bind_ok; [|reflexivity]. rewrite bind_modify, bind_gets.
  set (cs := default default_cellSize cellSize).
  set (la := fresh (dom (∅ : store))).
  match goal with |- ∃ g, for_each _ _ ?gg = _ ∧ _ => set (g1 := gg) end.
  assert (0 ≤ xLength g1) as Hw by (apply Z.div_pos; lia).
  destruct (init_loop g1 la (xLength g1)) as (h' & Heq & Hg & Hrows); try done.
  exists (set_heap h' g1). split; [exact Heq|]. split; [done|]. split; [done|].
  split; [done|]. split; [exact Hg|].
  intros x y. unfold cell. change (heap (set_heap h' g1)) with h'.
  change (population (set_heap h' g1)) with (VRef la).
  pose proof (Hrows (Some x)) as Hr. unfold row_loc in Hr. unfold cell_at.
  destruct (deref h' la !! Some x) as [[| |r]|]; try done.
  unfold deref at 1. by rewrite (Hr r eq_refl).
Qed.

(** C8, amended.  On a canvas the constructor always returns, whatever the
    size: the grid has [floor (width / cellSize)] columns and
    [floor (height / cellSize)] rows, possibly none, it is well formed, and
    every cell of it is dead ([undefined]). *)
Theorem constructor_makes_dead_grid (w h : N) (cellSize : option positive)
    (rnd : nat → Q) (frames : nat) :
  ∃ g,
    create (Some (canvas_element w h)) cellSize rnd frames = (Ok tt, g) ∧
    xLength g = Z.of_N w / Z.pos (default default_cellSize cellSize) ∧
    yLength g = Z.of_N h / Z.pos (default default_cellSize cellSize) ∧
    grid (heap g) (population g) (xLength g) ∧
    ∀ x y, cell g x y = VUndefined ∧ is_alive g x y = false.
Proof.
  destruct (constructor_spec w h cellSize rnd frames)
    as (g & Heq & Hx & Hy & _ & Hg & Hc).
  exists g. split; [done|]. split; [done|]. split; [done|]. split; [done|].
  intros x y. split; [apply Hc|]. unfold is_alive. by rewrite Hc.
Qed.

(** ** The coin of [randomize] (C9) *)

(** Rounding to a double: the result lies between any two multiples of the
    unit that enclose the number. *)
Lemma pow2_pos t : (0 < pow2 t)%Q.
Proof.
  unfold pow2. destruct (0 <=? t) eqn:E.
  - apply Z.leb_le in E. rewrite <-(Zlt_Qlt 0). by apply Z.pow_pos_nonneg.
  - reflexivity.
Qed.

Lemma rne_between (q : Q) (n m : Z) :
  (inject_Z n <= q)%Q → (q <= inject_Z m)%Q → n ≤ rne q ≤ m.
Proof.
  intros Hn Hm. pose proof (Qfloor_le q) as Hf. pose proof (Qlt_floor q) as Hc.
  assert (n ≤ Qfloor q).
  { assert (n < Qfloor q + 1); [|lia]. rewrite Zlt_Qlt. by eapply Qle_lt_trans. }
  assert (Qfloor q ≤ m).
  { rewrite Zle_Qle. by eapply Qle_trans. }
  unfold rne. destruct (Qcompare_spec (q - inject_Z (Qfloor q)) (1 # 2)) as [E|E|E].
  - assert (Qfloor q < m); [|destruct (Z.even _); lia].
    rewrite Zlt_Qlt. eapply Qlt_le_trans; [|exact Hm]. lra.
  - lia.
  - assert (Qfloor q < m); [|lia].
    rewrite Zlt_Qlt. eapply Qlt_le_trans; [|exact Hm]. lra.
Qed.



Lemma round_double_nonneg (q : Q) : (0 <= q)%Q → (0 <= round_double q)%Q.
Proof.
  intros Hq. unfold round_double.
  destruct (Qcompare_spec q 0) as [E|E|E]; [lra|lra|].
  pose proof (pow2_pos (Z.max (binade q - 52) (-1074))) as Hu. fold (ulp q) in Hu.
  destruct (rne_between (q / ulp q) 0 (Qceiling (q / ulp q))) as [H1 _].
  - apply Qle_shift_div_l; [done|]. change (inject_Z 0) with 0%Q. lra.
  - apply Qle_ceiling.
  - apply Qmult_le_0_compat; [|lra]. by rewrite <-(Zle_Qle 0).
Qed.




































(** The rounding agrees with the IEEE 754 arithmetic of the Standard
    Library on samples: products with 10, sums, differences and quotients
    of doubles near the multiples of 1/1000, and subnormal numbers with
    ties. *)
Example round_double_is_IEEE :
  forallb (λ a,
    Qeq_bool (SF2Q (SpecFloat.SFmul 53 1024 (double_of a 1000) (double_of 10 1)))
             (round_double (SF2Q (double_of a 1000) * 10))) (seqZ 0 1000) = true ∧
  forallb (λ a,
    Qeq_bool (SF2Q (SpecFloat.SFadd 53 1024 (double_of a 7) (double_of (a * a) 3)))
             (round_double (SF2Q (double_of a 7) + SF2Q (double_of (a * a) 3))))
    (seqZ (-100) 200) = true ∧
  forallb (λ a,
    Qeq_bool (SF2Q (SpecFloat.SFsub 53 1024 (double_of a 10) (double_of 1 3)))
             (round_double (SF2Q (double_of a 10) - SF2Q (double_of 1 3))))
    (seqZ (-100) 200) = true ∧
  forallb (λ a,
    Qeq_bool (SF2Q (SpecFloat.SFdiv 53 1024 (double_of a 10) (double_of 8 1)))
             (round_double (SF2Q (double_of a 10) / 8))) (seqZ (-100) 200) = true ∧
  forallb (λ m,
    Qeq_bool (SF2Q (SpecFloat.SFmul 53 1024 (SpecFloat.S754_finite false m (-1074))
                      (double_of 1 2)))
             (round_double (SF2Q (SpecFloat.S754_finite false m (-1074)) * (1 # 2))))
    [1; 3; 5; 6; 7; 4503599627370497; 4503599627370499]%positive = true.
Proof. by vm_compute. Qed.

(** ** Every reachable instance is well formed *)

Lemma constructor_wf (w h : N) (cellSize : option positive) (rnd : nat → Q) (frames : nat) :
  (2 ≤ frames)%nat →
  wf (create (Some (canvas_element w h)) cellSize rnd frames).2.
Proof.
  intros Hf. destruct (constructor_spec w h cellSize rnd frames)
    as (g & -> & _ & _ & Hs & Hg & _).
  split; [done|]. simpl. by rewrite Hs.
Qed.

(** Without an element the constructor throws; on an element that is not a
    canvas it returns at once and leaves the instance without a grid. *)
Lemma constructor_without_canvas (e : Element) cellSize rnd frames :
  create None cellSize rnd frames = (Throw TypeError, blank rnd frames) ∧
  (nodeName e ≠ "CANVAS"%string →
   create (Some e) cellSize rnd frames = (Ok tt, blank rnd frames)).
Proof.
  split; [done|]. intros Hn. unfold create, GameOfLife.
  by rewrite bool_decide_eq_true_2.
Qed.

(** Writing through a column index that is not on the grid throws and
    changes nothing. *)
Lemma write_population_throw g x y v :
  wf g → ¬ (∃ i, x = Some i ∧ 0 ≤ i < xLength g) →
  write_population x y v g = (Throw TypeError, g).
Proof.
  intros [Hg _] Hx. unfold write_population. rewrite bind_gets.
  destruct (grid_inv _ _ _ Hg) as (l & o & -> & Hl & Hdom & _).
  assert (o !! x = None) as Hn.
  { destruct (o !! x) eqn:E; [|done]. exfalso. apply Hx, Hdom. by eexists. }
  unfold get_prop, deref. unfold mbind, M_bind, gets, mret, M_ret. simpl.
  rewrite Hl. simpl. by rewrite Hn.
Qed.

Lemma write_population_wf g x y v :
  wf g → is_object v = false → wf (write_population x y v g).2.
Proof.
  intros Hw Hv. destruct x as [i|].
  - destruct (decide (0 ≤ i < xLength g)) as [Hi|Hi].
    + destruct (write_population_ok g i y v Hw Hi Hv) as (h' & -> & Hw' & _). done.
    + rewrite write_population_throw; [done|done|]. by intros (k & [= <-] & Hk).
  - rewrite write_population_throw; [done|done|]. by intros (k & [=] & Hk).
Qed.

Lemma for_list_wf {A} (l : list A) (body : A → M unit) g :
  (∀ x g, wf g → wf (body x g).2) → wf g → wf (for_list l body g).2.
Proof.
  intros Hb. revert g. induction l as [|x l IH]; intros g Hw; [done|].
  cbn [for_list]. unfold mbind, M_bind. specialize (Hb x g Hw).
  destruct (body x g) as [[[]|e] g1]; simpl in Hb; [by apply IH|done].
Qed.

Lemma addLifeForm_wf g x y coords : wf g → wf (addLifeForm x y coords g).2.
Proof.
  intros Hw. unfold addLifeForm. apply for_list_wf; [|done].
  clear g Hw. intros c g Hw. rewrite !bind_gets.
  set (i := js_rem (x + c.1 + xLength g) (xLength g)).
  set (j := js_rem (y + c.2 + yLength g) (yLength g)).
  assert (∃ g1, match i, j with
                | Some a, Some b => populate a b
                | _, _ => _ ← random; mret tt
                end g = (Ok tt, g1) ∧ wf g1) as (g1 & Hp & Hw1).
  { destruct i, j; eexists; (split; [reflexivity|exact Hw]). }
  run Hp. by apply write_population_wf.
Qed.

(** The constructor makes a well-formed instance, and every method leaves
    one behind, whether it returns or throws. *)
Lemma methods_keep_wf g :
  wf g →
  wf (advance g).2 ∧ wf (randomize g).2 ∧ wf (killAll g).2 ∧ wf (toggle g).2 ∧
  ∀ x y coords, wf (addLifeForm x y coords g).2.
Proof.
  intros Hw. split; [|split; [|split; [|split]]].
  - destruct (advance_next g Hw) as (g' & -> & Hw' & _). done.
  - destruct (randomize_spec g Hw) as (g' & -> & Hw' & _). done.
  - destruct (decide (1 ≤ xLength g)) as [Hx|Hx].
    + destruct (killAll_spec g Hw Hx) as (g' & -> & Hw' & _). done.
    + destruct (killAll_empty g Hw) as (g' & -> & Hw' & _); [lia|done].
  - exact Hw.
  - intros x y coords. by apply addLifeForm_wf.
Qed.

(** ** The engine on known patterns *)

(** A lone cell on a 3 by 3 grid has no neighbour and dies. *)
Example middle_dies :
  live_cells middle = [(1, 1)] ∧
  (neighbours 1 1 middle).1 = Ok 0 ∧
  (advance middle).1 = Ok tt ∧
  live_cells (advance middle).2 = [].
Proof. by vm_compute. Qed.

(** The blinker turns from horizontal to vertical and back. *)
Example blinker_turns :
  live_cells blinker = [(1, 2); (2, 2); (3, 2)] ∧
  live_cells (advance blinker).2 = [(2, 1); (2, 2); (2, 3)] ∧
  live_cells blinker_again = [(1, 2); (2, 2); (3, 2)].
Proof. by vm_compute. Qed.

(** After four generations the glider is the same shape one cell further
    along the diagonal. *)
Example glider_moves :
  live_cells glider = [(1, 3); (2, 1); (2, 3); (3, 2); (3, 3)] ∧
  live_cells (advance (advance (advance (advance glider).2).2).2).2
  = [(2, 4); (3, 2); (3, 4); (4, 3); (4, 4)].
Proof. by vm_compute. Qed.

(** With the draws 3/20, 4/20, ... [randomize] adds life to the blinker and
    takes none away. *)
Example randomize_blinker :
  (randomize blinker_dice).1 = Ok tt ∧
  live_cells blinker ⊆ live_cells (randomize blinker_dice).2 ∧
  (length (live_cells blinker) < length (live_cells (randomize blinker_dice).2))%nat.
Proof.
  split; [by vm_compute|]. split.
  - apply (bool_decide_unpack _). by vm_compute.
  - vm_compute. lia.
Qed.

(** * Further properties *)

(** ** Placing life forms: [addLifeForm] *)

(** A loop over a list, cut in two. *)
Lemma for_list_app {A} (l1 l2 : list A) (body : A → M unit) g :
  for_list (l1 ++ l2) body g = (for_list l1 body;; for_list l2 body) g.
Proof.
  revert g. induction l1 as [|c l1 IH]; intros g; [done|].
  simpl. rewrite bind_assoc.
  destruct (body c g) as [[[]|e] g1] eqn:E.
  - rewrite !(bind_ok _ _ _ _ _ E). apply IH.
  - by rewrite !(bind_throw _ _ _ _ _ E).
Qed.

(** One offset: [populate] is called and takes its draw; then the write
    succeeds on a column of the grid and throws otherwise. *)
Lemma addLifeForm_one g x y c :
  wf g →
  ∃ h', let g1 := set_heap h' (set_canvas (canvas g ++ stamp_event (stamp_keys g x y c))
                     (set_draws (S (draws g)) g)) in
    wf g1 ∧
    if column_ok g x c then
      addLifeForm x y [c] g = (Ok tt, g1) ∧
      ∀ k, cell_at h' (population g) k.1 k.2
           = if decide (k = stamp_keys g x y c) then VBool true
             else cell_at (heap g) (population g) k.1 k.2
    else addLifeForm x y [c] g = (Throw TypeError, g1) ∧ h' = heap g.
Proof.
  intros Hwf. unfold addLifeForm, column_ok, stamp_keys. simpl for_list.
  rewrite !bind_assoc, bind_gets, !bind_assoc, bind_gets.
  set (i := js_rem (x + c.1 + xLength g) (xLength g)).
  set (j := js_rem (y + c.2 + yLength g) (yLength g)).
  set (g0 := set_canvas (canvas g ++ stamp_event (i, j)) (set_draws (S (draws g)) g)).
  assert (Hd : match i, j with
               | Some a, Some b => populate a b
               | _, _ => _ ← random; mret tt
               end g = (Ok tt, g0)).
  { unfold g0. destruct i as [a|], j as [b|]; simpl stamp_event;
      rewrite ?app_nil_r; reflexivity. }
  assert (Hwf0 : wf g0) by exact Hwf.
  rewrite !bind_assoc. rewrite (bind_ok _ _ _ _ _ Hd).
  destruct i as [a|] eqn:Ei.
  - destruct (decide (0 ≤ a < xLength g)) as [Ha|Ha].
    + rewrite bool_decide_eq_true_2 by done.
      destruct (write_population_ok g0 a j (VBool true) Hwf0 Ha eq_refl)
        as (h' & Hw & Hwf' & Hc).
      exists h'. split; [exact Hwf'|]. split.
      * by rewrite (bind_ok _ _ _ _ _ Hw).
      * intros [kx ky]. rewrite Hc. simpl.
        destruct (decide (kx = Some a ∧ ky = j)) as [[E1 E2]|Hn];
          destruct (decide ((kx, ky) = (Some a, j))) as [E|E]; try done.
        { destruct E. by rewrite E1, E2. }
        destruct Hn. by inversion E.
    + rewrite bool_decide_eq_false_2 by done.
      exists (heap g). split; [exact Hwf|]. split; [|done].
      assert (Hn : ¬ ∃ i', Some a = Some i' ∧ 0 ≤ i' < xLength g0).
      { intros (i' & [= <-] & Hi'). done. }
      by rewrite (bind_throw _ _ _ _ _ (write_population_throw g0 (Some a) j _ Hwf0 Hn)).
  - exists (heap g). split; [exact Hwf|]. split; [|done].
    assert (Hn : ¬ ∃ i', None = Some i' ∧ 0 ≤ i' < xLength g0).
    { by intros (i' & [=] & _). }
    by rewrite (bind_throw _ _ _ _ _ (write_population_throw g0 None j _ Hwf0 Hn)).
Qed.

Lemma addLifeForm_cons x y c l g :
  addLifeForm x y (c :: l) g = (addLifeForm x y [c];; addLifeForm x y l) g.
Proof. apply (for_list_app [c] l). Qed.

(** All offsets, when every column index is a column: the keys written,
    the calls logged and the draws taken. *)
Lemma addLifeForm_spec g x y coords :
  wf g → forallb (column_ok g x) coords = true →
  ∃ h', let g' := set_heap h'
                    (set_canvas (canvas g ++ (coords ≫= λ c, stamp_event (stamp_keys g x y c)))
                       (set_draws (draws g + length coords) g)) in
    addLifeForm x y coords g = (Ok tt, g') ∧ wf g' ∧
    ∀ k, cell_at h' (population g) k.1 k.2
         = if bool_decide (k ∈ stamp_keys g x y <$> coords) then VBool true
           else cell_at (heap g) (population g) k.1 k.2.
Proof.
  revert g. induction coords as [|c l IH]; intros g Hwf Hall.
  - exists (heap g). cbv zeta. change ([] ≫= _) with (@nil event).
    change (length []) with O. rewrite app_nil_r, Nat.add_0_r.
    split; [by destruct g|]. split; [exact Hwf|]. intros k.
    rewrite fmap_nil. by rewrite bool_decide_eq_false_2 by set_solver.
  - simpl in Hall. apply andb_true_iff in Hall as [Hc Hl].
    destruct (addLifeForm_one g x y c Hwf) as (h1 & Hwf1 & H1). cbv zeta in Hwf1, H1.
    rewrite Hc in H1. destruct H1 as [Hr1 Hc1].
    set (g1 := set_heap h1 (set_canvas (canvas g ++ stamp_event (stamp_keys g x y c))
                 (set_draws (S (draws g)) g))) in *.
    destruct (IH g1 Hwf1 Hl) as (h2 & Hr2 & Hwf2 & Hc2).
    exists h2. cbv zeta.
    assert (Hg : set_heap h2
        (set_canvas (canvas g ++ ((c :: l) ≫= λ c, stamp_event (stamp_keys g x y c)))
           (set_draws (draws g + length (c :: l)) g))
      = set_heap h2
        (set_canvas (canvas g1 ++ (l ≫= λ c, stamp_event (stamp_keys g1 x y c)))
           (set_draws (draws g1 + length l) g1))).
    { unfold set_heap, set_canvas, set_draws, g1. simpl. f_equal.
      - f_equal. lia.
      - by rewrite <-app_assoc. }
    rewrite Hg. split; [|split; [exact Hwf2|]].
    + rewrite addLifeForm_cons. by rewrite (bind_ok _ _ _ _ _ Hr1).
    + intros k. change (population g) with (population g1). rewrite Hc2.
      change (heap g1) with h1. change (population g1) with (population g).
      rewrite Hc1. change (stamp_keys g1 x y) with (stamp_keys g x y).
      rewrite fmap_cons. destruct (decide (k = stamp_keys g x y c)) as [->|Hk].
      * rewrite (bool_decide_eq_true_2 (_ ∈ _ :: _)) by (apply elem_of_cons; by left).
        by destruct (bool_decide _).
      * apply (f_equal (λ b : bool, if b then _ else _)).
        apply bool_decide_ext. rewrite elem_of_cons.
        split; [by right|intros [E|E]; [by destruct Hk|done]].
Qed.

(** Whether [addLifeForm] returns is decided by the column indices. *)
Lemma addLifeForm_outcome g x y coords :
  wf g →
  (addLifeForm x y coords g).1
  = if forallb (column_ok g x) coords then Ok tt else Throw TypeError.
Proof.
  revert g. induction coords as [|c l IH]; intros g Hwf; [done|].
  destruct (addLifeForm_one g x y c Hwf) as (h1 & Hwf1 & H1). cbv zeta in Hwf1, H1.
  rewrite addLifeForm_cons. simpl forallb.
  destruct (column_ok g x c).
  - destruct H1 as [Hr1 _]. rewrite (bind_ok _ _ _ _ _ Hr1). exact (IH _ Hwf1).
  - destruct H1 as [Hr1 _]. by rewrite (bind_throw _ _ _ _ _ Hr1).
Qed.

(** [(a + w) % w] is the mathematical [a mod w] when [a + w] is not
    negative. *)
Lemma js_rem_mod a w :
  0 ≤ a + w → 0 < w → js_rem (a + w) w = Some (a `mod` w).
Proof.
  intros Ha Hw. unfold js_rem. rewrite decide_False by lia.
  rewrite Z.rem_mod_nonneg by lia.
  replace (a + w) with (a + 1 * w) by lia. by rewrite Z_mod_plus_full.
Qed.

(** When the remainder is a column: a negative dividend gives a remainder
    that is negative or zero. *)
Lemma column_ok_iff g x c :
  column_ok g x c = true
  ↔ 1 ≤ xLength g ∧ (- xLength g ≤ x + c.1 ∨ (x + c.1) `mod` xLength g = 0).
Proof.
  unfold column_ok, js_rem. set (w := xLength g). set (a := x + c.1).
  destruct (decide (w = 0)) as [E|E]; [split; [done|lia]|].
  cbv beta iota. rewrite bool_decide_eq_true.
  destruct (decide (1 ≤ w)) as [Hw|Hw].
  2:{ split; lia. }
  assert (Hm : (a + w) `mod` w = a `mod` w).
  { replace (a + w) with (a + 1 * w) by lia. by rewrite Z_mod_plus_full. }
  destruct (decide (0 ≤ a + w)) as [Ha|Ha].
  - pose proof (Z.rem_bound_pos (a + w) w). split; lia.
  - pose proof (Z.rem_bound_pos_neg (a + w) w).
    pose proof (Z.rem_mod_eq_0 (a + w) w E) as H0. rewrite Hm in H0.
    split.
    + intros Hr. split; [done|]. right. apply H0. lia.
    + intros [_ [Hn|Hz]]; [lia|]. apply H0 in Hz. lia.
Qed.

(** A life form whose offsets stay within one grid length of the grid:
    every index is the mathematical modulo, and the cells written are the
    wrapped ones. *)
Lemma addLifeForm_wrapped g x y coords :
  wf g → 1 ≤ xLength g → 1 ≤ yLength g →
  Forall (λ c, 0 ≤ x + c.1 + xLength g ∧ 0 ≤ y + c.2 + yLength g) coords →
  ∃ h',
    addLifeForm x y coords g
    = (Ok tt, set_heap h'
                (set_canvas (canvas g ++ (coords ≫= λ c, stamp_event (stamp_keys g x y c)))
                   (set_draws (draws g + length coords) g))) ∧
    (∀ c, c ∈ coords →
       stamp_keys g x y c = (Some (wrapped g x y c).1, Some (wrapped g x y c).2)) ∧
    (∀ a b, cell_at h' (population g) (Some a) (Some b)
            = if bool_decide ((a, b) ∈ wrapped g x y <$> coords)
              then VBool true else cell g a b).
Proof.
  intros Hwf Hw Hh Hall.
  assert (Hk : ∀ c, c ∈ coords →
            stamp_keys g x y c = (Some (wrapped g x y c).1, Some (wrapped g x y c).2)).
  { intros c Hc. rewrite Forall_forall in Hall. destruct (Hall c Hc) as [H1 H2].
    unfold stamp_keys, wrapped. simpl.
    rewrite (js_rem_mod (x + c.1)), (js_rem_mod (y + c.2)) by lia. done. }
  assert (Hok : forallb (column_ok g x) coords = true).
  { apply forallb_forall. intros c Hc%list_elem_of_In. apply column_ok_iff.
    rewrite Forall_forall in Hall. destruct (Hall c Hc). lia. }
  destruct (addLifeForm_spec g x y coords Hwf Hok) as (h' & Hr & _ & Hcell).
  cbv zeta in Hr. exists h'. split; [exact Hr|]. split; [exact Hk|].
  intros a b.
  pose proof (Hcell (Some a, Some b)) as Hab. simpl in Hab. rewrite Hab. clear Hab.
  apply (f_equal (λ b : bool, if b then _ else _)), bool_decide_ext.
  rewrite !list_elem_of_fmap. split.
  - intros (c & E & Hc). exists c. split; [|done]. rewrite (Hk c Hc) in E.
    by injection E as -> ->.
  - intros (c & E & Hc). exists c. split; [|done]. rewrite (Hk c Hc). by rewrite <-E.
Qed.

(** X1.  A life form placed where every offset stays within one grid
    length of the grid ([x + dx >= -xLength] and [y + dy >= -yLength]), with
    coordinates on which the index sums are exact, is stamped on the torus:
    [addLifeForm] returns, each offset lands on the
    cell [((x + dx) mod xLength, (y + dy) mod yLength)] of the grid, exactly
    these cells hold [true] afterwards and every other cell keeps its value,
    and [populate] is called once per offset, in order, each call taking one
    draw for its colour. *)
Theorem addLifeForm_stamps g x y coords :
  wf g → exact_sums g x y coords → 1 ≤ xLength g → 1 ≤ yLength g →
  Forall (λ c, 0 ≤ x + c.1 + xLength g ∧ 0 ≤ y + c.2 + yLength g) coords →
  ∃ g',
    addLifeForm x y coords g = (Ok tt, g') ∧
    Forall (λ p, 0 ≤ p.1 < xLength g ∧ 0 ≤ p.2 < yLength g) (wrapped g x y <$> coords) ∧
    (∀ a b, cell g' a b = if bool_decide ((a, b) ∈ wrapped g x y <$> coords)
                          then VBool true else cell g a b) ∧
    canvas g' = canvas g ++ ((λ p, Populate p.1 p.2) <$> (wrapped g x y <$> coords)) ∧
    draws g' = (draws g + length coords)%nat.
Proof.
  intros Hwf _ Hw Hh Hall.
  destruct (addLifeForm_wrapped g x y coords Hwf Hw Hh Hall) as (h' & Hr & Hk & Hcell).
  eexists. split; [exact Hr|]. split; [|split; [|split]].
  - apply Forall_fmap, Forall_forall. intros c _. unfold wrapped. simpl.
    split; apply Z.mod_pos_bound; lia.
  - exact Hcell.
  - unfold set_heap, set_canvas; cbn [canvas]. f_equal. clear -Hk.
    induction coords as [|c l IH]; [done|].
    rewrite !fmap_cons, bind_cons.
    rewrite IH by (intros; apply Hk; by right).
    rewrite (Hk c) by by left. done.
  - done.
Qed.

Lemma addLifeForm_stamps_witness :
  ∃ g',
    addLifeForm 6 (-2) glider_shape (new_game 8 8) = (Ok tt, g') ∧
    Forall (λ p, 0 ≤ p.1 < xLength (new_game 8 8) ∧ 0 ≤ p.2 < yLength (new_game 8 8))
      (wrapped (new_game 8 8) 6 (-2) <$> glider_shape) ∧
    (∀ a b, cell g' a b
            = if bool_decide ((a, b) ∈ wrapped (new_game 8 8) 6 (-2) <$> glider_shape)
              then VBool true else cell (new_game 8 8) a b) ∧
    canvas g' = canvas (new_game 8 8)
                ++ ((λ p, Populate p.1 p.2) <$> (wrapped (new_game 8 8) 6 (-2) <$> glider_shape)) ∧
    draws g' = (draws (new_game 8 8) + length glider_shape)%nat.
Proof.
  apply (addLifeForm_stamps (new_game 8 8) 6 (-2) glider_shape).
  - apply (bool_decide_unpack _). vm_compute. exact I.
  - apply (bool_decide_unpack _). vm_compute. exact I.
  - vm_compute. discriminate.
  - vm_compute. discriminate.
  - apply (bool_decide_unpack _). vm_compute. exact I.
Defined.

(** X2.  With coordinates on which the index sums are exact,
    [addLifeForm] returns or throws a [TypeError], and it returns
    exactly when every column index [(x + dx + xLength) % xLength] is a
    column of the grid: the grid has a column and [x + dx] is at least
    [-xLength] or a multiple of [xLength].  Further to the left the
    remainder is negative and the write to [population[i][j]] throws.  The
    row index plays no part in this. *)
Theorem addLifeForm_returns_iff g x y coords :
  wf g → exact_sums g x y coords →
  ((addLifeForm x y coords g).1 = Ok tt ∨
   (addLifeForm x y coords g).1 = Throw TypeError) ∧
  ((addLifeForm x y coords g).1 = Ok tt ↔
     ∀ c, c ∈ coords →
       1 ≤ xLength g ∧ (- xLength g ≤ x + c.1 ∨ (x + c.1) `mod` xLength g = 0)).
Proof.
  intros Hwf _. rewrite (addLifeForm_outcome g x y coords Hwf).
  destruct (forallb (column_ok g x) coords) eqn:E.
  - split; [by left|]. split; [|done]. intros _ c Hc.
    apply column_ok_iff. rewrite forallb_forall in E. by apply E, list_elem_of_In.
  - split; [by right|]. split; [done|]. intros H.
    assert (forallb (column_ok g x) coords = true) as E'; [|congruence].
    apply forallb_forall. intros c Hc%list_elem_of_In. by apply column_ok_iff, H.
Qed.

Lemma addLifeForm_returns_iff_witness :
  ((addLifeForm (-9) 0 glider_shape (new_game 8 8)).1 = Ok tt ∨
   (addLifeForm (-9) 0 glider_shape (new_game 8 8)).1 = Throw TypeError) ∧
  ((addLifeForm (-9) 0 glider_shape (new_game 8 8)).1 = Ok tt ↔
     ∀ c, c ∈ glider_shape →
       1 ≤ xLength (new_game 8 8) ∧
       (- xLength (new_game 8 8) ≤ -9 + c.1 ∨ (-9 + c.1) `mod` xLength (new_game 8 8) = 0)).
Proof.
  apply (addLifeForm_returns_iff (new_game 8 8) (-9) 0 glider_shape).
  - apply (bool_decide_unpack _). vm_compute. exact I.
  - apply (bool_decide_unpack _). vm_compute. exact I.
Defined.

(** X3.  A life form placed so far above the grid that every row index
    [(y + dy + yLength) % yLength] is negative, with coordinates on which
    the index sums are exact, is lost without an error:
    [addLifeForm] returns, [populate] is called with the negative row, the
    value [true] is stored under that negative key of the column, and no
    cell with a row index from 0 upwards changes. *)
Theorem addLifeForm_row_off_grid g x y coords :
  wf g → exact_sums g x y coords → 1 ≤ xLength g → 1 ≤ yLength g →
  Forall (λ c, 0 ≤ x + c.1 + xLength g ∧
               y + c.2 + yLength g < 0 ∧ (y + c.2) `mod` yLength g ≠ 0) coords →
  ∃ g',
    addLifeForm x y coords g = (Ok tt, g') ∧
    (∀ a b, 0 ≤ b → cell g' a b = cell g a b) ∧
    (∀ c, c ∈ coords →
       Z.rem (y + c.2 + yLength g) (yLength g) < 0 ∧
       cell g' ((x + c.1) `mod` xLength g) (Z.rem (y + c.2 + yLength g) (yLength g))
       = VBool true) ∧
    canvas g' = canvas g ++
      ((λ c, Populate ((x + c.1) `mod` xLength g)
                      (Z.rem (y + c.2 + yLength g) (yLength g))) <$> coords).
Proof.
  intros Hwf _ Hw Hh Hall. rewrite Forall_forall in Hall.
  assert (Hneg : ∀ c, c ∈ coords → Z.rem (y + c.2 + yLength g) (yLength g) < 0).
  { intros c Hc. destruct (Hall c Hc) as (_ & H1 & H2).
    pose proof (Z.rem_bound_pos_neg (y + c.2 + yLength g) (yLength g)).
    assert (Z.rem (y + c.2 + yLength g) (yLength g) ≠ 0); [|lia].
    rewrite Z.rem_mod_eq_0 by lia.
    replace (y + c.2 + yLength g) with (y + c.2 + 1 * yLength g) by lia.
    by rewrite Z_mod_plus_full. }
  assert (Hk : ∀ c, c ∈ coords →
            stamp_keys g x y c = (Some ((x + c.1) `mod` xLength g),
                                  Some (Z.rem (y + c.2 + yLength g) (yLength g)))).
  { intros c Hc. destruct (Hall c Hc) as (H1 & _).
    unfold stamp_keys. rewrite (js_rem_mod (x + c.1)) by lia.
    unfold js_rem. by rewrite decide_False by lia. }
  assert (Hok : forallb (column_ok g x) coords = true).
  { apply forallb_forall. intros c Hc%list_elem_of_In. apply column_ok_iff.
    destruct (Hall c Hc). lia. }
  destruct (addLifeForm_spec g x y coords Hwf Hok) as (h' & Hr & _ & Hcell).
  cbv zeta in Hr. eexists. split; [exact Hr|]. split; [|split].
  - intros a b Hb. unfold cell. simpl heap. simpl population.
    pose proof (Hcell (Some a, Some b)) as Hab. simpl in Hab. rewrite Hab. clear Hab.
    rewrite bool_decide_eq_false_2; [done|].
    rewrite list_elem_of_fmap. intros (c & E & Hc). rewrite (Hk c Hc) in E.
    injection E as _ ->. specialize (Hneg c Hc). lia.
  - intros c Hc. split; [by apply Hneg|]. unfold cell. simpl heap. simpl population.
    pose proof (Hcell (stamp_keys g x y c)) as Hab. rewrite (Hk c Hc) in Hab at 1 2.
    simpl in Hab. rewrite Hab. rewrite bool_decide_eq_true_2; [done|].
    apply list_elem_of_fmap. by exists c.
  - unfold set_heap, set_canvas; cbn [canvas]. f_equal. clear -Hk.
    induction coords as [|c l IH]; [done|].
    rewrite !fmap_cons, bind_cons.
    rewrite IH by (intros; apply Hk; by right).
    rewrite (Hk c) by by left. done.
Qed.

Lemma addLifeForm_row_off_grid_witness :
  ∃ g',
    addLifeForm 0 (-7) [(0, 0)] (new_game 5 5) = (Ok tt, g') ∧
    (∀ a b, 0 ≤ b → cell g' a b = cell (new_game 5 5) a b) ∧
    (∀ c, c ∈ [(0, 0)] →
       Z.rem (-7 + c.2 + yLength (new_game 5 5)) (yLength (new_game 5 5)) < 0 ∧
       cell g' ((0 + c.1) `mod` xLength (new_game 5 5))
               (Z.rem (-7 + c.2 + yLength (new_game 5 5)) (yLength (new_game 5 5)))
       = VBool true) ∧
    canvas g' = canvas (new_game 5 5) ++
      ((λ c, Populate ((0 + c.1) `mod` xLength (new_game 5 5))
                      (Z.rem (-7 + c.2 + yLength (new_game 5 5)) (yLength (new_game 5 5))))
         <$> [(0, 0)]).
Proof.
  apply (addLifeForm_row_off_grid (new_game 5 5) 0 (-7) [(0, 0)]).
  - apply (bool_decide_unpack _). vm_compute. exact I.
  - apply (bool_decide_unpack _). vm_compute. exact I.
  - vm_compute. discriminate.
  - vm_compute. discriminate.
  - apply (bool_decide_unpack _). vm_compute. exact I.
Defined.

(** ** Rows off the grid, still lifes and shifts: [neighbours], [advance] and the timer *)

(** X4.  [neighbours(x, y)] for a column [x] of the grid and a row
    [y >= 1 - yLength] on which the three index sums [y + j + yLength] are
    exact: the scan wraps [y] onto the row [y mod yLength] and counts the
    live cells of that cell's window, the cell itself included; what is
    taken off at the end is the cell at the row [y] as given.  For
    a row of the grid the two cancel; for a row below the grid that holds
    nothing, the wrapped cell is counted among its own neighbours. *)
Theorem neighbours_wraps_row g x y :
  wf g → 0 ≤ x < xLength g → 1 ≤ yLength g → 1 - yLength g ≤ y →
  Forall (λ j, safe_sum y j (yLength g)) [-1; 0; 1] →
  neighbours x y g
  = (Ok (live_neighbours g x (y `mod` yLength g)
         + Z.b2z (is_alive g x (y `mod` yLength g))
         - Z.b2z (is_alive g x y)), g).
Proof.
  intros Hwf Hx Hh Hy _. rewrite neighbours_ok by done. do 2 f_equal.
  assert (Hy' : 0 ≤ y `mod` yLength g < yLength g) by (apply Z.mod_pos_bound; lia).
  rewrite <-(scanned_in_range g x (y `mod` yLength g)) by done.
  assert (Hs : scanned g x y = scanned g x (y `mod` yLength g)); [|lia].
  assert (Hj : ∀ j, -1 ≤ j ≤ 1 →
            js_rem (y + j + yLength g) (yLength g)
            = js_rem (y `mod` yLength g + j + yLength g) (yLength g)).
  { intros j Hj. rewrite !js_rem_mod by lia. by rewrite Zplus_mod_idemp_l. }
  unfold scanned, window. cbn [foldl fst snd].
  by rewrite !(Hj (-1)), !(Hj 0), !(Hj 1) by lia.
Qed.

Lemma neighbours_wraps_row_witness :
  neighbours 2 7 blinker
  = (Ok (live_neighbours blinker 2 (7 `mod` yLength blinker)
         + Z.b2z (is_alive blinker 2 (7 `mod` yLength blinker))
         - Z.b2z (is_alive blinker 2 7)), blinker).
Proof.
  apply (neighbours_wraps_row blinker 2 7).
  - apply (bool_decide_unpack _). vm_compute. exact I.
  - vm_compute. split; discriminate || reflexivity.
  - vm_compute. discriminate.
  - vm_compute. discriminate.
  - apply (bool_decide_unpack _). vm_compute. exact I.
Defined.

(** [still] and [shifted], cell by cell. *)
Lemma still_spec g :
  still g ↔ ∀ x y, 0 ≤ x < xLength g → 0 ≤ y < yLength g →
    rule (is_alive g x y) (live_neighbours g x y) = is_alive g x y.
Proof.
  unfold still. rewrite Forall_forall. split.
  - intros H x y Hx Hy. specialize (H x). rewrite Forall_forall in H.
    apply H; apply elem_of_seqZ; lia.
  - intros H x Hx%elem_of_seqZ. apply Forall_forall. intros y Hy%elem_of_seqZ.
    apply H; lia.
Qed.

Lemma bind_nil_all {A B} (f : A → list B) (l : list A) :
  (∀ x, x ∈ l → f x = []) → l ≫= f = [].
Proof.
  induction l as [|x l IH]; intros H; [done|].
  rewrite bind_cons, (H x) by by left. apply IH. intros; apply H. by right.
Qed.

(** One generation of a still life. *)
Lemma advance_still g :
  wf g → still g →
  ∃ g', advance g = (Ok tt, g') ∧ wf g' ∧ still g' ∧
        xLength g' = xLength g ∧ yLength g' = yLength g ∧
        (∀ x y, 0 ≤ x < xLength g → 0 ≤ y < yLength g → cell g' x y = cell g x y) ∧
        canvas g' = canvas g.
Proof.
  intros Hwf Hst. pose proof Hst as Hst0. rewrite still_spec in Hst.
  destruct (advance_next g Hwf) as (g' & Hr & Hwf' & Hx' & Hy' & Hc & Hcv & _).
  assert (Hn : ∀ x y, 0 ≤ x < xLength g → 0 ≤ y < yLength g → next_cell g x y = cell g x y).
  { intros x y Hx Hy. unfold next_cell.
    destruct (strict_eq (cell g x y) (live_value (cell g x y) (live_neighbours g x y))) eqn:E.
    - symmetry. by apply bool_decide_eq_true in E.
    - apply changed_iff in E; [|by apply cell_flat]. destruct E.
      rewrite live_value_rule. symmetry. by apply Hst. }
  assert (Hcell : ∀ x y, 0 ≤ x < xLength g → 0 ≤ y < yLength g → cell g' x y = cell g x y).
  { intros x y Hx Hy. rewrite Hc by done. by apply Hn. }
  assert (Hsame : same_liveness g g').
  { apply same_liveness_spec. split; [done|]. split; [done|].
    intros x y Hx Hy. unfold is_alive. by rewrite Hcell. }
  exists g'. split; [done|]. split; [done|]. split; [|split; [done|split; [done|split; [done|]]]].
  - apply still_spec. rewrite Hx', Hy'. intros x y Hx Hy.
    rewrite (live_neighbours_same g g') by done.
    unfold is_alive. rewrite Hcell by done. by apply Hst.
  - rewrite Hcv. rewrite <-(app_nil_r (canvas g)) at 2. f_equal.
    unfold redraws. apply bind_nil_all. intros x Hx%elem_of_seqZ.
    unfold redraw_column. apply bind_nil_all. intros y Hy%elem_of_seqZ.
    unfold redraw. rewrite Hn by lia. unfold strict_eq. by rewrite bool_decide_eq_true_2.
Qed.

(** X5.  A still life stays as it is for as long as the timer runs: when
    every cell already has the liveness the rule gives it (in particular
    when no cell is alive), any number of ticks returns, every cell of the
    grid keeps its value, and no drawing call is made. *)
Theorem still_life_forever g n :
  wf g → still g →
  ∃ g', ticks n g = (Ok tt, g') ∧
        (∀ x y, 0 ≤ x < xLength g → 0 ≤ y < yLength g → cell g' x y = cell g x y) ∧
        canvas g' = canvas g.
Proof.
  intros Hwf Hst.
  cut (∃ g', ticks n g = (Ok tt, g') ∧ wf g' ∧ still g' ∧
        xLength g' = xLength g ∧ yLength g' = yLength g ∧
        (∀ x y, 0 ≤ x < xLength g → 0 ≤ y < yLength g → cell g' x y = cell g x y) ∧
        canvas g' = canvas g).
  { intros (g' & H1 & _ & _ & _ & _ & H2 & H3). by exists g'. }
  revert g Hwf Hst. induction n as [|n IH]; intros g Hwf Hst.
  - by exists g.
  - destruct (advance_still g Hwf Hst) as (g1 & Hr1 & Hw1 & Hs1 & Hx1 & Hy1 & Hc1 & Hv1).
    destruct (IH g1 Hw1 Hs1) as (g2 & Hr2 & Hw2 & Hs2 & Hx2 & Hy2 & Hc2 & Hv2).
    exists g2. cbn [ticks]. rewrite (bind_ok _ _ _ _ _ Hr1).
    split; [done|]. split; [done|]. split; [done|].
    split; [congruence|]. split; [congruence|]. split; [|congruence].
    intros x y Hx Hy. rewrite Hc2 by (rewrite ?Hx1, ?Hy1; done). by apply Hc1.
Qed.

Lemma still_life_forever_witness :
  ∃ g', ticks 3 block = (Ok tt, g') ∧
        (∀ x y, 0 ≤ x < xLength block → 0 ≤ y < yLength block → cell g' x y = cell block x y) ∧
        canvas g' = canvas block.
Proof.
  apply (still_life_forever block 3).
  - apply (bool_decide_unpack _). vm_compute. exact I.
  - apply (bool_decide_unpack _). vm_compute. exact I.
Defined.

Lemma shifted_spec a b g1 g2 :
  shifted a b g1 g2 ↔
  xLength g2 = xLength g1 ∧ yLength g2 = yLength g1 ∧
  ∀ x y, 0 ≤ x < xLength g1 → 0 ≤ y < yLength g1 →
    is_alive g2 x y = is_alive g1 ((x - a) `mod` xLength g1) ((y - b) `mod` yLength g1).
Proof.
  unfold shifted. rewrite Forall_forall.
  split; intros (Hx & Hy & H); (split; [done|]); (split; [done|]).
  - intros x y Hx' Hy'. specialize (H x). rewrite Forall_forall in H.
    apply H; apply elem_of_seqZ; lia.
  - intros x Hx'%elem_of_seqZ. apply Forall_forall. intros y Hy'%elem_of_seqZ.
    apply H; lia.
Qed.

(** One generation of a grid and of the same grid moved by [(a, b)]: the
    window of a moved cell is the moved window. *)
Lemma advance_shift a b g1 g2 :
  wf g1 → wf g2 → shifted a b g1 g2 →
  ∃ g1' g2',
    advance g1 = (Ok tt, g1') ∧ advance g2 = (Ok tt, g2') ∧
    wf g1' ∧ wf g2' ∧ shifted a b g1' g2'.
Proof.
  intros Hw1 Hw2 (Hx2 & Hy2 & Hs)%shifted_spec.
  destruct (advance_next g1 Hw1) as (g1' & Hr1 & Hw1' & Hx1' & Hy1' & Hc1 & _).
  destruct (advance_next g2 Hw2) as (g2' & Hr2 & Hw2' & Hx2' & Hy2' & Hc2 & _).
  exists g1', g2'. split; [done|]. split; [done|]. split; [done|]. split; [done|].
  apply shifted_spec. split; [congruence|]. split; [congruence|].
  rewrite Hx1', Hy1'. intros x y Hx Hy.
  set (w := xLength g1) in *. set (h := yLength g1) in *.
  assert (Hx' : 0 ≤ (x - a) `mod` w < w) by (apply Z.mod_pos_bound; lia).
  assert (Hy' : 0 ≤ (y - b) `mod` h < h) by (apply Z.mod_pos_bound; lia).
  rewrite (is_alive_next g2 g2' x y) by (apply Hc2; lia).
  rewrite (is_alive_next g1 g1' _ _ (Hc1 _ _ Hx' Hy')).
  rewrite Hs by done. f_equal.
  unfold live_neighbours. rewrite Hx2, Hy2. fold w h. do 2 f_equal.
  apply list_filter_iff. intros d.
  rewrite Hs by (split; apply Z.mod_pos_bound; lia).
  rewrite !Zminus_mod_idemp_l, !Zplus_mod_idemp_l.
  replace (x + d.1 - a) with (x - a + d.1) by lia.
  by replace (y + d.2 - b) with (y - b + d.2) by lia.
Qed.

(** X6.  The generations do not depend on where a pattern sits on the
    torus: if one grid is another one moved by [(a, b)], it still is after
    any number of ticks on both. *)
Theorem ticks_commute_with_shift a b g1 g2 n :
  wf g1 → wf g2 → shifted a b g1 g2 →
  ∃ g1' g2',
    ticks n g1 = (Ok tt, g1') ∧ ticks n g2 = (Ok tt, g2') ∧ shifted a b g1' g2'.
Proof.
  revert g1 g2. induction n as [|n IH]; intros g1 g2 Hw1 Hw2 Hs.
  - by exists g1, g2.
  - destruct (advance_shift a b g1 g2 Hw1 Hw2 Hs) as (h1 & h2 & Hr1 & Hr2 & Hv1 & Hv2 & Hs').
    destruct (IH h1 h2 Hv1 Hv2 Hs') as (g1' & g2' & Hq1 & Hq2 & Hs'').
    exists g1', g2'. cbn [ticks].
    by rewrite (bind_ok _ _ _ _ _ Hr1), (bind_ok _ _ _ _ _ Hr2).
Qed.

Lemma ticks_commute_with_shift_witness :
  ∃ g1' g2',
    ticks 4 glider = (Ok tt, g1') ∧ ticks 4 glider_across = (Ok tt, g2') ∧
    shifted 5 6 g1' g2'.
Proof.
  apply (ticks_commute_with_shift 5 6 glider glider_across 4).
  - apply (bool_decide_unpack _). vm_compute. exact I.
  - apply (bool_decide_unpack _). vm_compute. exact I.
  - apply (bool_decide_unpack _). vm_compute. exact I.
Defined.

(** X17.  The timer can run for ever: from a well-formed instance any
    number of ticks returns, with the same grid size and the same running
    flag, and no object that existed before is written (every generation
    is built from new objects). *)
Theorem ticks_return g n :
  wf g →
  ∃ g', ticks n g = (Ok tt, g') ∧ wf g' ∧
        xLength g' = xLength g ∧ yLength g' = yLength g ∧ alive g' = alive g ∧
        ∀ l, l ∈ dom (heap g) → heap g' !! l = heap g !! l.
Proof.
  revert g. induction n as [|n IH]; intros g Hw.
  - by exists g.
  - destruct (advance_next g Hw) as (g1 & Hr1 & Hw1 & Hx1 & Hy1 & _ & _ & Hf1 & _ & Ha1).
    destruct (IH g1 Hw1) as (g2 & Hr2 & Hw2 & Hx2 & Hy2 & Ha2 & Hf2).
    exists g2. cbn [ticks]. rewrite (bind_ok _ _ _ _ _ Hr1).
    split; [done|]. split; [done|]. split; [congruence|]. split; [congruence|].
    split; [congruence|]. intros l Hl. rewrite <-(Hf1 l Hl). apply Hf2.
    apply elem_of_dom. rewrite (Hf1 l Hl). by apply elem_of_dom.
Qed.

Lemma ticks_return_witness :
  ∃ g', ticks 5 glider = (Ok tt, g') ∧ wf g' ∧
        xLength g' = xLength glider ∧ yLength g' = yLength glider ∧ alive g' = alive glider ∧
        ∀ l, l ∈ dom (heap glider) → heap g' !! l = heap glider !! l.
Proof.
  apply (ticks_return glider 5).
  apply (bool_decide_unpack _). vm_compute. exact I.
Defined.

(** ** Degenerate random sources: [randomize] *)

(** X7.  With a random source whose every draw selects the cell,
    [randomize] makes every cell of the grid alive and calls [populate] for
    each of them. *)
Theorem randomize_fills g :
  wf g → (∀ n, coin (entropy g n) ≠ 0) →
  ∃ g', randomize g = (Ok tt, g') ∧
        ∀ x y, 0 ≤ x < xLength g → 0 ≤ y < yLength g →
          cell g' x y = VBool true ∧ Populate x y ∈ canvas g'.
Proof.
  intros Hw Hcoin. unfold randomize. rewrite bind_gets.
  destruct (sweep
    (λ d g2, wf g2 ∧ xLength g2 = xLength g ∧ yLength g2 = yLength g ∧
       entropy g2 = entropy g ∧
       ∀ x y, 0 ≤ x < xLength g → 0 ≤ y < yLength g → d x y = true →
         cell g2 x y = VBool true ∧ Populate x y ∈ canvas g2)
    (xLength g) (yLength g) randomize_cell g)
    as (g' & Hr & _ & _ & _ & _ & Hc).
  - intros d d' g2 Hd (H1 & H2 & H3 & H4 & H5). repeat (split; [done|]).
    intros x y Hx Hy Hxy. apply H5; [done|done|]. by rewrite Hd.
  - by intros d g2 (_ & _ & H & _).
  - intros d i j g2 Hi Hj _ (Hw2 & Hx2 & Hy2 & He2 & Hc2).
    unfold randomize_cell. erewrite bind_ok; [|reflexivity].
    rewrite bool_decide_eq_true_2 by (simpl; rewrite He2; apply Hcoin).
    unfold populate. rewrite !bind_assoc. erewrite bind_ok; [|reflexivity].
    rewrite bind_modify.
    match goal with |- ∃ g', write_population _ _ _ ?gg = _ ∧ _ =>
      set (g4 := gg) end.
    assert (wf g4) as Hw4 by exact Hw2.
    destruct (write_population_ok g4 i (Some j) (VBool true) Hw4) as (h5 & Heq & Hw5 & Hc5);
      [change (xLength g4) with (xLength g2); by rewrite Hx2|done|].
    eexists. split; [exact Heq|]. split; [exact Hw5|]. split; [done|]. split; [done|].
    split; [done|].
    intros x y Hx Hy Hd. unfold cell. change (population (set_heap h5 g4)) with (population g4).
    change (heap (set_heap h5 g4)) with h5. rewrite Hc5.
    change (canvas (set_heap h5 g4)) with (canvas g2 ++ [Populate i j]).
    destruct (decide (Some x = Some i ∧ Some y = Some j)) as [[[= ->] [= ->]]|Hne].
    + split; [done|]. apply elem_of_app. right. by left.
    + assert (d x y = true) as Hdd.
      { destruct (d x y); [done|]. simpl in Hd.
        apply andb_true_iff in Hd as [->%Z.eqb_eq ->%Z.eqb_eq]. by destruct Hne. }
      destruct (Hc2 x y Hx Hy Hdd) as [H1 H2]. split; [done|].
      apply elem_of_app. by left.
  - split; [done|]. split; [done|]. split; [done|]. split; [done|]. by intros x y _ _ [=].
  - exists g'. split; [done|]. intros x y Hx Hy. by apply Hc.
Qed.

Lemma randomize_fills_witness :
  ∃ g', randomize (new_game_with loaded 3 2) = (Ok tt, g') ∧
        ∀ x y, 0 ≤ x < xLength (new_game_with loaded 3 2) →
               0 ≤ y < yLength (new_game_with loaded 3 2) →
          cell g' x y = VBool true ∧ Populate x y ∈ canvas g'.
Proof.
  apply (randomize_fills (new_game_with loaded 3 2)).
  - apply (bool_decide_unpack _). vm_compute. exact I.
  - intros n. vm_compute. discriminate.
Defined.

(** X8.  With a random source whose every draw leaves the cell alone,
    [randomize] changes nothing but the position in the random stream: it
    takes exactly one draw per cell of the grid. *)
Theorem randomize_skips g :
  (∀ n, coin (entropy g n) = 0) →
  randomize g
  = (Ok tt, set_draws (draws g + Z.to_nat (Z.max 0 (xLength g) * Z.max 0 (yLength g))) g).
Proof.
  intros Hcoin. unfold randomize. rewrite bind_gets.
  set (H := Z.max 0 (yLength g)).
  destruct (for_each_run (λ i g2, g2 = set_draws (draws g + Z.to_nat (i * H)) g)
    (xLength g) (λ i, yl ← gets yLength; for_each yl (λ j, randomize_cell i j)) g)
    as (g' & Hr & ->); [| |exact Hr].
  - rewrite Z.mul_0_l, Nat.add_0_r. by destruct g.
  - intros i g2 Hi ->. rewrite bind_gets. change (yLength (set_draws _ g)) with (yLength g).
    destruct (for_each_run (λ j g3, g3 = set_draws (draws g + Z.to_nat (i * H + j)) g)
      (yLength g) (λ j, randomize_cell i j) (set_draws (draws g + Z.to_nat (i * H)) g))
      as (g3 & Hr3 & ->).
    + by rewrite Z.add_0_r.
    + intros j g3 Hj ->. unfold randomize_cell. erewrite bind_ok; [|reflexivity].
      rewrite bool_decide_eq_false_2 by (intros E; apply E, Hcoin).
      eexists. split; [reflexivity|]. unfold set_draws. simpl. f_equal. lia.
    + eexists. split; [exact Hr3|]. fold H. f_equal. lia.
Qed.

Lemma randomize_skips_witness :
  randomize blinker
  = (Ok tt, set_draws (draws blinker
                       + Z.to_nat (Z.max 0 (xLength blinker) * Z.max 0 (yLength blinker)))
              blinker).
Proof.
  apply (randomize_skips blinker).
  intros n. vm_compute. reflexivity.
Defined.

(** ** The grid without a column: [killAll] *)

(** X9.  On a grid without a column [killAll] returns: there is nothing
    to erase and nothing to copy, so [this.extend(true, [], ...)] returns
    its first argument and [future] is left holding the primitive [true];
    besides the new empty array nothing else changes, the running flag
    included. *)
Theorem killAll_without_columns g :
  wf g → xLength g ≤ 0 →
  killAll g
  = (Ok tt, set_future (VBool true)
              (set_heap (<[fresh (dom (heap g)) := ∅]> (heap g)) g)).
Proof.
  intros Hw Hx. unfold killAll. rewrite bind_gets.
  set (g0 := set_alive false g).
  assert ((if alive g then toggle else mret tt) g = (Ok tt, g0)) as Htog.
  { unfold g0. destruct g as [? ? ? ? [|] ? ? ? ? ?]; reflexivity. }
  run Htog. rewrite bind_gets. change (xLength g0) with (xLength g).
  rewrite ?bind_assoc. erewrite bind_ok; [|by apply for_each_none].
  erewrite bind_ok; [|reflexivity]. rewrite bind_gets.
  set (la := fresh (dom (heap g0))).
  set (g3 := set_heap (<[la := ∅]> (heap g0)) g0).
  destruct Hw as [Hg Hst].
  destruct (grid_inv _ _ _ Hg) as (lp & po & Hpop & Hlp & Hdom & _).
  assert (la ∉ dom (heap g)) as Hla by apply is_fresh.
  assert (la ≠ lp) as Hne.
  { intros E. apply Hla. rewrite E. by eapply elem_of_dom_2. }
  change (population g3) with (population g). rewrite Hpop.
  assert (extend (VBool true) [VRef la; VRef lp] g3 = (Ok (VBool true), g3)) as Hext.
  { unfold extend, or_new_object. cbn [truthy]. rewrite bind_ret. cbn [for_list truthy].
    assert (own_keys (VRef la) g3 = (Ok [], g3)) as Hka.
    { unfold own_keys. rewrite bind_gets. unfold deref, g3. simpl.
      rewrite lookup_insert_eq. simpl. by rewrite keys_of_empty. }
    assert (own_keys (VRef lp) g3 = (Ok [], g3)) as Hkp.
    { unfold own_keys. rewrite bind_gets. unfold deref, g3. simpl.
      rewrite lookup_insert_ne by done. rewrite Hlp. simpl.
      destruct (keys_of po) as [|k ks] eqn:Hks; [done|].
      assert (k ∈ keys_of po) as Hk by (rewrite Hks; by left).
      apply keys_of_elem, Hdom in Hk as (i & _ & Hi). lia. }
    run Hka. cbn [for_list]. rewrite bind_ret. run Hkp. cbn [for_list].
    by rewrite !bind_ret. }
  run Hext. rewrite bind_modify.
  unfold g3, g0, la. destruct g as [? ? ? ? [|] ? ? ? ? ?]; reflexivity.
Qed.

Lemma killAll_without_columns_witness :
  killAll (new_game 0 3)
  = (Ok tt, set_future (VBool true)
              (set_heap (<[fresh (dom (heap (new_game 0 3))) := ∅]> (heap (new_game 0 3)))
                 (new_game 0 3))).
Proof.
  apply (killAll_without_columns (new_game 0 3)).
  - apply (bool_decide_unpack _). vm_compute. exact I.
  - vm_compute. discriminate.
Defined.

(** ** Merging and copying: [extend] and [deepExtend] *)

Lemma set_heap_id g : set_heap (heap g) g = g.
Proof. by destruct g. Qed.

(** One argument of [extend]: its properties are laid over those of the
    target. *)
Lemma extend_arg (g : game) (lo : positive) (acc : object) (arg : value) :
  heap g !! lo = Some acc → arg ≠ VRef lo →
  (if truthy arg then
     keys ← own_keys arg;
     for_list keys (λ k, v ← get_prop arg k; set_prop (VRef lo) k v)
   else mret tt) g
  = (Ok tt, set_heap (<[lo := properties (heap g) arg ∪ acc]> (heap g)) g).
Proof.
  intros Hlo Hne.
  assert (Hid : (Ok tt, g) = (Ok tt, set_heap (<[lo := ∅ ∪ acc]> (heap g)) g)).
  { rewrite (left_id ∅ (∪)), insert_id by done. by rewrite set_heap_id. }
  destruct arg as [|[|]|l]; cbn [truthy properties]; try exact Hid.
  assert (Hl : l ≠ lo) by congruence.
  set (h := heap g) in *. set (o := deref h l).
  unfold own_keys. rewrite bind_assoc, bind_gets, bind_ret. fold h o.
  destruct (for_list_inv
    (λ pre g2, ∃ acc2 : object, g2 = set_heap (<[lo := acc2]> h) g ∧
       ∀ k, acc2 !! k = if decide (k ∈ pre) then o !! k else acc !! k)
    (keys_of o)
    (λ k, v ← get_prop (VRef l) k; set_prop (VRef lo) k v) g)
    as (g2 & Hloop & acc2 & -> & Hacc).
  { exists acc. split.
    - unfold h. by rewrite insert_id, set_heap_id.
    - intros k. rewrite decide_False; [done|]. apply not_elem_of_nil. }
  { intros pre k g2 [post Hpost] (acc2 & -> & Hacc).
    assert (is_Some (o !! k)) as [v Hv].
    { apply keys_of_elem. rewrite Hpost. apply elem_of_app. right. by left. }
    assert (get_prop (VRef l) k (set_heap (<[lo := acc2]> h) g)
            = (Ok v, set_heap (<[lo := acc2]> h) g)) as Hget.
    { unfold get_prop. rewrite bind_gets. unfold mret, M_ret, deref. simpl.
      rewrite lookup_insert_ne by done. fold (deref h l). fold o. by rewrite Hv. }
    rewrite (bind_ok _ _ _ _ _ Hget).
    eexists. split; [reflexivity|].
    exists (<[k := v]> acc2). split.
    - unfold set_heap, deref. simpl. rewrite lookup_insert_eq. simpl.
      by rewrite insert_insert_eq.
    - intros k'. destruct (decide (k' = k)) as [->|Hk'].
      + rewrite lookup_insert_eq. rewrite decide_True; [done|].
        apply elem_of_app. right. by left.
      + rewrite lookup_insert_ne by done. rewrite Hacc.
        destruct (decide (k' ∈ pre)) as [Hin|Hin].
        * rewrite decide_True; [done|]. apply elem_of_app. by left.
        * rewrite decide_False; [done|].
          intros [?|?%list_elem_of_singleton]%elem_of_app; done. }
  rewrite Hloop. do 3 f_equal.
  apply map_eq. intros k. rewrite Hacc, lookup_union.
  destruct (decide (k ∈ keys_of o)) as [Hin|Hin].
  - apply keys_of_elem in Hin as [v Hv]. rewrite Hv. by destruct (acc !! k).
  - destruct (o !! k) eqn:E.
    + exfalso. apply Hin, keys_of_elem. by eexists.
    + by destruct (acc !! k).
Qed.

(** Writing the target does not change what the other arguments hold. *)
Lemma properties_frame (h : store) (lo : positive) (o : object) (v : value) :
  v ≠ VRef lo → properties (<[lo := o]> h) v = properties h v.
Proof.
  intros Hne. destruct v as [| |l]; try done. simpl. unfold deref.
  rewrite lookup_insert_ne; [done|congruence].
Qed.

Lemma merged_frame (h : store) (lo : positive) (o acc : object) (args : list value) :
  VRef lo ∉ args → merged (<[lo := o]> h) acc args = merged h acc args.
Proof.
  revert acc. induction args as [|v l IH]; intros acc Hn; [done|].
  apply not_elem_of_cons in Hn as [Hv Hl]. unfold merged. cbn [foldl].
  rewrite properties_frame by (by apply not_eq_sym). by apply IH.
Qed.

(** The loop of [extend] over its arguments. *)
Lemma extend_loop (g : game) (lo : positive) (acc : object) (args : list value) :
  heap g !! lo = Some acc → VRef lo ∉ args →
  for_list args (λ arg,
    if truthy arg then
      keys ← own_keys arg;
      for_list keys (λ k, v ← get_prop arg k; set_prop (VRef lo) k v)
    else mret tt) g
  = (Ok tt, set_heap (<[lo := merged (heap g) acc args]> (heap g)) g).
Proof.
  revert g acc. induction args as [|a l IH]; intros g acc Hlo Hn.
  - simpl. unfold merged. simpl. by rewrite insert_id, set_heap_id.
  - apply not_elem_of_cons in Hn as [Ha Hl]. cbn [for_list].
    apply not_eq_sym in Ha.
    rewrite (bind_ok _ _ _ _ _ (extend_arg g lo acc a Hlo Ha)).
    rewrite (IH _ (properties (heap g) a ∪ acc)); [|apply lookup_insert_eq|done].
    unfold set_heap. simpl. rewrite insert_insert_eq.
    by rewrite merged_frame.
Qed.

(** A key none of the arguments has keeps the value of the target. *)
Lemma merged_none (h : store) (out : object) (args : list value) (k : option Z) :
  Forall (λ v, properties h v !! k = None) args → merged h out args !! k = out !! k.
Proof.
  revert out. induction args as [|v l IH]; intros out Hall; [done|].
  apply Forall_cons in Hall as [Hv Hl]. unfold merged. cbn [foldl].
  fold (merged h (properties h v ∪ out) l). rewrite (IH _ Hl).
  rewrite lookup_union, Hv. by destruct (out !! k).
Qed.

(** X11.  [extend] merges: called on a target object and arguments other
    than the target, it returns the target, whose properties are then those
    of the arguments laid over its own one after the other.  For every key
    the last argument that has it gives the value; a key no argument has
    keeps the target's value.  Arguments that are [undefined], [false] or
    [true] contribute nothing. *)
Theorem extend_merges (g : game) (lo : positive) (oo : object) (args : list value) :
  heap g !! lo = Some oo → VRef lo ∉ args →
  extend (VRef lo) args g
  = (Ok (VRef lo), set_heap (<[lo := merged (heap g) oo args]> (heap g)) g) ∧
  (∀ pre v post k x,
     args = pre ++ v :: post → properties (heap g) v !! k = Some x →
     Forall (λ v', properties (heap g) v' !! k = None) post →
     merged (heap g) oo args !! k = Some x) ∧
  (∀ k, Forall (λ v, properties (heap g) v !! k = None) args →
        merged (heap g) oo args !! k = oo !! k).
Proof.
  intros Hlo Hn. split; [|split].
  - unfold extend, or_new_object. cbn [truthy]. rewrite bind_ret.
    by rewrite (bind_ok _ _ _ _ _ (extend_loop g lo oo args Hlo Hn)).
  - intros pre v post k x -> Hv Hpost. unfold merged.
    rewrite foldl_app. cbn [foldl].
    match goal with |- foldl _ ?o post !! k = _ =>
      change (merged (heap g) o post !! k = Some x); rewrite merged_none by done end.
    by apply lookup_union_Some_l.
  - intros k. apply merged_none.
Qed.

Lemma extend_merges_witness :
  extend (VRef 1) [VRef 2; VUndefined; VRef 3] mergeable
  = (Ok (VRef 1),
     set_heap (<[1%positive := merged (heap mergeable) ∅ [VRef 2; VUndefined; VRef 3]]>
                 (heap mergeable)) mergeable) ∧
  (∀ pre v post k x,
     [VRef 2; VUndefined; VRef 3] = pre ++ v :: post →
     properties (heap mergeable) v !! k = Some x →
     Forall (λ v', properties (heap mergeable) v' !! k = None) post →
     merged (heap mergeable) ∅ [VRef 2; VUndefined; VRef 3] !! k = Some x) ∧
  (∀ k, Forall (λ v, properties (heap mergeable) v !! k = None) [VRef 2; VUndefined; VRef 3] →
        merged (heap mergeable) ∅ [VRef 2; VUndefined; VRef 3] !! k = (∅ : object) !! k).
Proof.
  apply (extend_merges mergeable 1 ∅ [VRef 2; VUndefined; VRef 3]).
  - vm_compute. reflexivity.
  - apply (bool_decide_unpack _). vm_compute. exact I.
Defined.

(** X12.  [extend] copies one level only: the copy it makes of the
    population is a new array, but its entries are the row objects of the
    population themselves, so a cell written through the copy is written
    in the population. *)
Theorem extend_shares_rows g i :
  wf g → 0 ≤ i < xLength g →
  ∃ la g1,
    extend VUndefined [population g] g = (Ok (VRef la), g1) ∧
    (la ∉ dom (heap g)) ∧
    population g1 = population g ∧
    (∀ l, l ∈ dom (heap g) → heap g1 !! l = heap g !! l) ∧
    (∀ k, row_loc (heap g1) (VRef la) k = row_loc (heap g) (population g) k) ∧
    ∀ j v, ∃ g2,
      (row ← get_prop (VRef la) (Some i); set_prop row j v) g1 = (Ok tt, g2) ∧
      cell_at (heap g2) (population g2) (Some i) j = v.
Proof.
  intros [Hg Hst] Hi.
  destruct (grid_inv _ _ _ Hg) as (lp & po & Hpop & Hlp & Hdom & Hrows & Hinj).
  set (h := heap g) in *. set (la := fresh (dom h)).
  assert (Hla : la ∉ dom h) by apply is_fresh.
  assert (Hne : la ≠ lp).
  { intros E. apply Hla. rewrite E. by eapply elem_of_dom_2. }
  set (g0 := set_heap (<[la := ∅]> h) g).
  assert (Hloop := extend_loop g0 la ∅ [VRef lp] (lookup_insert_eq _ _ _)).
  assert (Hm : merged (heap g0) ∅ [VRef lp] = po).
  { unfold merged, g0. cbn [foldl properties heap set_heap]. unfold deref.
    rewrite lookup_insert_ne by done. fold h. rewrite Hlp. simpl.
    apply (right_id ∅ (∪)). }
  rewrite Hm in Hloop.
  set (h1 := <[la := po]> h).
  assert (Hg1 : set_heap (<[la := po]> (heap g0)) g0 = set_heap h1 g).
  { unfold g0, h1, set_heap. simpl. by rewrite insert_insert_eq. }
  rewrite Hg1 in Hloop.
  assert (Hfr : ∀ l, l ∈ dom h → h1 !! l = h !! l).
  { intros l Hl. unfold h1. rewrite lookup_insert_ne; [done|]. by intros <-. }
  exists la, (set_heap h1 g). split; [|split; [done|split; [done|split; [exact Hfr|split]]]].
  - rewrite Hpop. unfold extend, or_new_object. cbn [truthy].
    erewrite bind_ok; [|reflexivity]. fold h la g0.
    erewrite bind_ok; [|apply Hloop; rewrite not_elem_of_cons;
      split; [congruence|apply not_elem_of_nil]]. done.
  - intros k. rewrite Hpop. unfold row_loc, deref. cbn [heap set_heap].
    unfold h1. rewrite lookup_insert_eq. fold h. by rewrite Hlp.
  - intros j v.
    destruct (grid_row _ _ _ _ Hg Hi) as (r & ro & Hr & Hro & _). fold h in Hr, Hro.
    assert (Hpi : po !! Some i = Some (VRef r)).
    { rewrite Hpop in Hr. unfold row_loc, deref in Hr. rewrite Hlp in Hr. simpl in Hr.
      destruct (po !! Some i) as [[| |r']|]; try done. by injection Hr as ->. }
    destruct (Hrows _ _ Hpi) as (r' & ro' & [= <-] & Hrl & _).
    assert (Hra : r ≠ la).
    { intros E. apply Hla. rewrite <-E. by eapply elem_of_dom_2. }
    eexists. split.
    + unfold get_prop at 1. rewrite bind_assoc, bind_gets, bind_ret.
      unfold deref at 1. cbn [heap set_heap]. unfold h1 at 1. rewrite lookup_insert_eq.
      simpl. rewrite Hpi. simpl. reflexivity.
    + cbn [heap set_heap population]. rewrite Hpop. unfold cell_at, deref.
      rewrite lookup_insert_ne by done. unfold h1. rewrite lookup_insert_ne by done.
      fold h. rewrite Hlp. simpl. rewrite Hpi. rewrite lookup_insert_eq. simpl.
      by rewrite lookup_insert_eq.
Qed.

Lemma extend_shares_rows_witness :
  ∃ la g1,
    extend VUndefined [population blinker] blinker = (Ok (VRef la), g1) ∧
    (la ∉ dom (heap blinker)) ∧
    population g1 = population blinker ∧
    (∀ l, l ∈ dom (heap blinker) → heap g1 !! l = heap blinker !! l) ∧
    (∀ k, row_loc (heap g1) (VRef la) k = row_loc (heap blinker) (population blinker) k) ∧
    ∀ j v, ∃ g2,
      (row ← get_prop (VRef la) (Some 2); set_prop row j v) g1 = (Ok tt, g2) ∧
      cell_at (heap g2) (population g2) (Some 2) j = v.
Proof.
  apply (extend_shares_rows blinker 2).
  - apply (bool_decide_unpack _). vm_compute. exact I.
  - vm_compute. split; discriminate || reflexivity.
Defined.

(** ** Clicks, sequences of calls, and elements that are no canvas *)

(** A number that is not negative rounds to one that is not negative, so
    a pointer offset from 0 upwards gives an index from 0 upwards. *)
Lemma click_cell_nonneg page rect scroll cs :
  (0 <= pointer_offset page rect scroll)%Q → 0 ≤ click_cell page rect scroll cs.
Proof.
  intros H. unfold click_cell. rewrite <-(Qfloor_Z 0). apply Qfloor_resp_le.
  apply round_double_nonneg.
  apply Qle_shift_div_l; [reflexivity|]. rewrite Qmult_0_l. lra.
Qed.

(** X13.  A click handler that stamps a life form never throws.  The
    listener rounds the difference [pageX - rect.left], the sum with the
    scroll offset and the quotient by [cellSize] to doubles; for pointer
    coordinates and a cell size of moderate size and an offset [left], [top]
    from 0 upwards it computes cell indices from 0 upwards, and
    [addLifeForm] with offsets from 0 upwards (and exact index sums) then
    returns, on a grid with at least one cell, stamping the cells wrapped
    onto the torus, also for a click beyond the last column or row. *)
Theorem onClick_stamps g cs coords pageX pageY rectLeft rectTop scrollLeft scrollTop :
  wf g → 1 ≤ xLength g → 1 ≤ yLength g →
  Forall moderate [pageX; pageY; rectLeft; rectTop; scrollLeft; scrollTop;
                   inject_Z (Z.pos cs)] →
  (0 <= pointer_offset pageX rectLeft scrollLeft)%Q →
  (0 <= pointer_offset pageY rectTop scrollTop)%Q →
  Forall (λ c, 0 ≤ c.1 ∧ 0 ≤ c.2) coords →
  exact_sums g (click_cell pageX rectLeft scrollLeft cs)
               (click_cell pageY rectTop scrollTop cs) coords →
  ∃ g',
    onClick cs (λ x y, addLifeForm x y coords)
      pageX pageY rectLeft rectTop scrollLeft scrollTop g = (Ok tt, g') ∧
    0 ≤ click_cell pageX rectLeft scrollLeft cs ∧
    0 ≤ click_cell pageY rectTop scrollTop cs ∧
    ∀ a b, cell g' a b
           = if bool_decide ((a, b) ∈ wrapped g (click_cell pageX rectLeft scrollLeft cs)
                                                (click_cell pageY rectTop scrollTop cs)
                                        <$> coords)
             then VBool true else cell g a b.
Proof.
  intros Hwf Hw Hh _ Hx Hy Hall _.
  pose proof (click_cell_nonneg pageX rectLeft scrollLeft cs Hx) as Hcx.
  pose proof (click_cell_nonneg pageY rectTop scrollTop cs Hy) as Hcy.
  destruct (addLifeForm_wrapped g (click_cell pageX rectLeft scrollLeft cs)
              (click_cell pageY rectTop scrollTop cs) coords Hwf Hw Hh)
    as (h' & Hr & _ & Hc).
  { eapply Forall_impl; [exact Hall|]. simpl. intros c [H1 H2]. lia. }
  eexists. split; [exact Hr|]. split; [done|]. split; [done|]. exact Hc.
Qed.

Lemma onClick_stamps_witness :
  ∃ g',
    onClick 8 (λ x y, addLifeForm x y glider_shape)
      1 33 (round_double (1 # 10)) 10 (round_double (71 # 10)) 20 (new_game 8 8)
    = (Ok tt, g') ∧
    0 ≤ click_cell 1 (round_double (1 # 10)) (round_double (71 # 10)) 8 ∧
    0 ≤ click_cell 33 10 20 8 ∧
    ∀ a b, cell g' a b
           = if bool_decide ((a, b) ∈ wrapped (new_game 8 8)
                                        (click_cell 1 (round_double (1 # 10))
                                                      (round_double (71 # 10)) 8)
                                        (click_cell 33 10 20 8)
                                        <$> glider_shape)
             then VBool true else cell (new_game 8 8) a b.
Proof.
  apply (onClick_stamps (new_game 8 8) 8 glider_shape
           1 33 (round_double (1 # 10)) 10 (round_double (71 # 10)) 20).
  - apply (bool_decide_unpack _). vm_compute. exact I.
  - vm_compute. discriminate.
  - vm_compute. discriminate.
  - repeat constructor; vm_compute; discriminate.
  - vm_compute. discriminate.
  - vm_compute. discriminate.
  - apply (bool_decide_unpack _). vm_compute. exact I.
  - apply (bool_decide_unpack _). vm_compute. exact I.
Defined.

(** The listener on doubles: with [pageX] 1, [rect.left] 0.1 and a scroll
    offset of 7.1 the rounded offset is 8 and the cell is 1, where exact
    arithmetic would give an offset just below 8 and the cell 0. *)
Example click_cell_rounds :
  (pointer_offset 1 (round_double (1 # 10)) (round_double (71 # 10)) == 8)%Q ∧
  click_cell 1 (round_double (1 # 10)) (round_double (71 # 10)) 8 = 1 ∧
  Qfloor ((1 - round_double (1 # 10) + round_double (71 # 10)) / 8) = 0.
Proof. by vm_compute. Qed.

(** Every call leaves a well-formed instance. *)
Lemma perform_wf c g : wf g → wf (perform c g).2.
Proof.
  intros Hw. destruct (methods_keep_wf g Hw) as (H1 & H2 & H3 & H4 & H5).
  destruct c; simpl; auto.
Qed.

(** X10.  The grid stays a grid: after the constructor (on a stack with
    room for the two nested calls of a copy) and any sequence of calls of
    [advance], [randomize], [killAll], [toggle] and [addLifeForm], whether
    they return or throw, [population] is an array with exactly the indices
    below [xLength], each holding a row object of its own that contains no
    object. *)
Theorem reachable_instances_well_formed (w h : N) cellSize rnd frames calls :
  (2 ≤ frames)%nat →
  wf (after calls (create (Some (canvas_element w h)) cellSize rnd frames).2).
Proof.
  intros Hf. pose proof (constructor_wf w h cellSize rnd frames Hf) as Hw.
  revert Hw. generalize (create (Some (canvas_element w h)) cellSize rnd frames).2.
  induction calls as [|c l IH]; intros g Hw; [done|].
  simpl. apply IH. by apply perform_wf.
Qed.

Lemma reachable_instances_well_formed_witness :
  wf (after [AddLifeForm 1 1 glider_shape; Advance; KillAll; Randomize; Toggle; Advance]
        (create (Some (canvas_element 64 64)) None dice 2).2).
Proof.
  apply (reachable_instances_well_formed 64 64 None dice 2
           [AddLifeForm 1 1 glider_shape; Advance; KillAll; Randomize; Toggle; Advance]).
  lia.
Defined.

(** X14.  On an element that is not a canvas the constructor returns
    without an error and without a grid; on such an instance [neighbours]
    and [live] throw a [TypeError] for every coordinate. *)
Theorem constructor_skips_non_canvas (e : Element) cellSize rnd frames :
  nodeName e ≠ "CANVAS"%string →
  ∃ g, create (Some e) cellSize rnd frames = (Ok tt, g) ∧
       population g = VUndefined ∧
       ∀ x y, neighbours x y g = (Throw TypeError, g) ∧
              live x y g = (Throw TypeError, g).
Proof.
  intros Hn. exists (blank rnd frames). split; [|split; [done|]].
  - unfold create, GameOfLife. by rewrite bool_decide_eq_true_2.
  - intros x y. assert (Hnb : neighbours x y (blank rnd frames) = (Throw TypeError, blank rnd frames)).
    { reflexivity. }
    split; [done|]. unfold live. by rewrite (bind_throw _ _ _ _ _ Hnb).
Qed.

Lemma constructor_skips_non_canvas_witness :
  ∃ g, create (Some div_element) None no_entropy 2 = (Ok tt, g) ∧
       population g = VUndefined ∧
       ∀ x y, neighbours x y g = (Throw TypeError, g) ∧
              live x y g = (Throw TypeError, g).
Proof.
  apply (constructor_skips_non_canvas div_element None no_entropy 2).
  vm_compute. discriminate.
Defined.

(** ** The first release, and the two ways to copy *)

(** X15.  The first release counted a live cell among its own
    neighbours: on a cell of the grid its [neighbours] returns the number of
    live neighbours plus one when the cell is alive, where the current
    [neighbours] returns the number of live neighbours. *)
Theorem first_release_counts_centre g x y :
  wf g → 0 ≤ x < xLength g → 0 ≤ y < yLength g →
  V010.neighbours x y g = (Ok (live_neighbours g x y + Z.b2z (is_alive g x y)), g) ∧
  neighbours x y g = (Ok (live_neighbours g x y), g).
Proof.
  intros Hw Hx Hy. split; [|by apply neighbours_in_range].
  unfold V010.neighbours, for_range.
  change (Z.to_nat (2 - -1)) with 3%nat.
  set (F := λ (i j : Z) (c : Z), c + Z.b2z (truthy (cell_at (heap g) (population g)
              (js_rem (x + i + xLength g) (xLength g))
              (js_rem (y + j + yLength g) (yLength g))))).
  erewrite bind_ok; cycle 1.
  { apply (for_iter_pure 3 (-1) _ (λ i c, foldl (λ c j, F i j c) c (seqZ (-1) 3))).
    intros i c Hi. apply (for_iter_pure 3 (-1) _ (F i)).
    intros j c' Hj. rewrite !bind_gets.
    rewrite read_population_bind; [|done|].
    - unfold mret, M_ret, F. by rewrite if_b2z.
    - rewrite js_rem_wrap by lia. eexists. split; [done|]. by apply wrap_in_range. }
  unfold mret, M_ret. do 2 f_equal.
  change (scanned g x y = live_neighbours g x y + Z.b2z (is_alive g x y)).
  rewrite <-(scanned_in_range g x y) by done. lia.
Qed.

Lemma first_release_counts_centre_witness :
  V010.neighbours 2 2 blinker
  = (Ok (live_neighbours blinker 2 2 + Z.b2z (is_alive blinker 2 2)), blinker) ∧
  neighbours 2 2 blinker = (Ok (live_neighbours blinker 2 2), blinker).
Proof.
  apply (first_release_counts_centre blinker 2 2).
  - apply (bool_decide_unpack _). vm_compute. exact I.
  - vm_compute. split; discriminate || reflexivity.
  - vm_compute. split; discriminate || reflexivity.
Defined.

(** X16.  On an object that holds no object [deepExtend] and [extend]
    do the same: both return a new object with the same properties and
    leave every other object as it was. *)
Theorem deepExtend_flat_is_extend fuel g r ro :
  heap g !! r = Some ro → flat ro →
  deepExtend (S fuel) VUndefined [VRef r] g = extend VUndefined [VRef r] g ∧
  extend VUndefined [VRef r] g
  = (Ok (VRef (fresh (dom (heap g)))),
     set_heap (<[fresh (dom (heap g)) := ro]> (heap g)) g).
Proof.
  intros Hr Hf. rewrite (copy_row fuel g r ro Hr Hf).
  assert (He : extend VUndefined [VRef r] g
    = (Ok (VRef (fresh (dom (heap g)))),
       set_heap (<[fresh (dom (heap g)) := ro]> (heap g)) g)); [|by rewrite He].
  set (h := heap g) in *. set (la := fresh (dom h)).
  assert (Hne : la ≠ r).
  { intros E. apply (is_fresh (dom h)). fold la. rewrite E. by eapply elem_of_dom_2. }
  unfold extend, or_new_object. cbn [truthy].
  erewrite bind_ok; [|reflexivity]. fold h la.
  set (g0 := set_heap (<[la := ∅]> h) g).
  erewrite bind_ok; cycle 1.
  { apply (extend_loop g0 la ∅ [VRef r]); [apply lookup_insert_eq|].
    rewrite not_elem_of_cons. split; [congruence|apply not_elem_of_nil]. }
  unfold mret, M_ret. f_equal.
  assert (Hm : merged (heap g0) ∅ [VRef r] = ro).
  { unfold merged, g0. cbn [foldl properties heap set_heap]. unfold deref.
    rewrite lookup_insert_ne by done. rewrite Hr. simpl. apply (right_id ∅ (∪)). }
  rewrite Hm. unfold g0, set_heap. simpl. by rewrite insert_insert_eq.
Qed.

Lemma deepExtend_flat_is_extend_witness :
  deepExtend 1 VUndefined [VRef 2] mergeable = extend VUndefined [VRef 2] mergeable ∧
  extend VUndefined [VRef 2] mergeable
  = (Ok (VRef (fresh (dom (heap mergeable)))),
     set_heap (<[fresh (dom (heap mergeable))
                 := {[ Some 0 := VBool false; Some 1 := VBool true ]}]> (heap mergeable))
       mergeable).
Proof.
  apply (deepExtend_flat_is_extend 0 mergeable 2).
  - vm_compute. reflexivity.
  - apply (bool_decide_unpack _). vm_compute. exact I.
Defined.
